(** * Espresso: a JNLP application launcher

    A shallow embedding of [main.go]: the cache reconciler [download], the
    artifact materializer [runResource], the resolution engine [runJnlp] and
    the launch assembler [run], together with the parts of Go's standard
    library they call.  Package-level variables, the file system, the wait
    group and the error aggregator are threaded through an explicit state;
    goroutines started with [go] are kept in a pool and interleaved by a
    scheduler. *)

From Stdlib Require Import ZArith Lia Ascii String.
From stdpp Require Import base option list strings gmap.

Open Scope string_scope.
Open Scope Z_scope.

(** ** Go strings as byte sequences *)

(** A Go [string] is a sequence of bytes; a [rune] is a Unicode code point. *)
Definition rune := Z.

Definition byte_val (a : ascii) : Z := Z.of_N (N_of_ascii a).
Definition byte_of (b : Z) : ascii := ascii_of_N (Z.to_N (b mod 256)).

Definition bytes (s : string) : list Z := byte_val <$> list_ascii_of_string s.
Definition of_bytes (l : list Z) : string := string_of_list_ascii (byte_of <$> l).

(** [len(s)] *)
Definition len (s : string) : Z := Z.of_nat (String.length s).

(** All bytes of [s] are below [utf8.RuneSelf]. *)
Definition isASCII (s : string) : bool := forallb (fun b => b <? 128) (bytes s).

(** ** Package [unicode/utf8] *)
Module utf8.

Definition RuneError : rune := 0xFFFD.
Definition RuneSelf : Z := 0x80.
Definition MaxRune : rune := 0x10FFFF.

Definition between (lo hi b : Z) : bool := (lo <=? b) && (b <=? hi).

(** The table [first] together with [acceptRanges]: for a leading byte,
    the length of the sequence and the range accepted for the second
    byte.  [None] stands for the entries [as] (ASCII) and [xx] (invalid). *)
Definition first (b : Z) : option (Z * Z * Z) :=
  if between 0xC2 0xDF b then Some (2, 0x80, 0xBF)
  else if b =? 0xE0 then Some (3, 0xA0, 0xBF)
  else if between 0xE1 0xEC b then Some (3, 0x80, 0xBF)
  else if b =? 0xED then Some (3, 0x80, 0x9F)
  else if between 0xEE 0xEF b then Some (3, 0x80, 0xBF)
  else if b =? 0xF0 then Some (4, 0x90, 0xBF)
  else if between 0xF1 0xF3 b then Some (4, 0x80, 0xBF)
  else if b =? 0xF4 then Some (4, 0x80, 0x8F)
  else None.

(** [DecodeRuneInString]: the first rune of the byte sequence and its
    width; an invalid or truncated sequence yields [(RuneError, 1)]. *)
Definition DecodeRune (s : list Z) : rune * nat :=
  match s with
  | [] => (RuneError, 0%nat)
  | s0 :: t =>
    if s0 <? RuneSelf then (s0, 1%nat)
    else
      match first s0, t with
      | Some (sz, lo, hi), s1 :: t1 =>
        if negb (between lo hi s1) then (RuneError, 1%nat)
        else if sz <=? 2 then
          (Z.lor (Z.shiftl (Z.land s0 0x1F) 6) (Z.land s1 0x3F), 2%nat)
        else
          match t1 with
          | s2 :: t2 =>
            if negb (between 0x80 0xBF s2) then (RuneError, 1%nat)
            else if sz <=? 3 then
              (Z.lor (Z.shiftl (Z.land s0 0x0F) 12)
                 (Z.lor (Z.shiftl (Z.land s1 0x3F) 6) (Z.land s2 0x3F)), 3%nat)
            else
              match t2 with
              | s3 :: _ =>
                if negb (between 0x80 0xBF s3) then (RuneError, 1%nat)
                else
                  (Z.lor (Z.shiftl (Z.land s0 0x07) 18)
                     (Z.lor (Z.shiftl (Z.land s1 0x3F) 12)
                        (Z.lor (Z.shiftl (Z.land s2 0x3F) 6) (Z.land s3 0x3F))),
                   4%nat)
              | [] => (RuneError, 1%nat)
              end
          | [] => (RuneError, 1%nat)
          end
      | _, _ => (RuneError, 1%nat)
      end
  end.

(** The runes visited by [for _, c := range s]. *)
Fixpoint decode (fuel : nat) (s : list Z) : list rune :=
  match fuel, s with
  | S fuel', _ :: _ =>
    let '(r, w) := DecodeRune s in r :: decode fuel' (drop w s)
  | _, _ => []
  end.

Definition runes (s : string) : list rune :=
  decode (String.length s) (bytes s).

(** [EncodeRune] / [AppendRune]: surrogates and out-of-range values are
    written as [RuneError]. *)
Definition encode3 (r : rune) : list Z :=
  [Z.lor 0xE0 (Z.shiftr r 12);
   Z.lor 0x80 (Z.land (Z.shiftr r 6) 0x3F);
   Z.lor 0x80 (Z.land r 0x3F)].

Definition EncodeRune (r : rune) : list Z :=
  if between 0 0x7F r then [r]
  else if between 0x80 0x7FF r then
    [Z.lor 0xC0 (Z.shiftr r 6); Z.lor 0x80 (Z.land r 0x3F)]
  else if (r <? 0) || (MaxRune <? r) || between 0xD800 0xDFFF r then
    encode3 RuneError
  else if r <=? 0xFFFF then encode3 r
  else
    [Z.lor 0xF0 (Z.shiftr r 18);
     Z.lor 0x80 (Z.land (Z.shiftr r 12) 0x3F);
     Z.lor 0x80 (Z.land (Z.shiftr r 6) 0x3F);
     Z.lor 0x80 (Z.land r 0x3F)].

End utf8.

(** ** Package [unicode] *)

(** The case and category tables of package [unicode] are data of the Go
    distribution.  They are an interface here, specified on the ASCII
    range, where [unicode.ToTitle], [unicode.ToUpper] and [unicode.ToLower]
    are the usual letter shifts. *)
Definition ascii_upper (r : rune) : rune :=
  if utf8.between 97 122 r then r - 32 else r.
Definition ascii_lower (r : rune) : rune :=
  if utf8.between 65 90 r then r + 32 else r.

Class UnicodeTables := {
  unicode_ToTitle : rune -> rune;
  unicode_ToLower : rune -> rune;
  unicode_IsLetter : rune -> bool;
  unicode_IsDigit : rune -> bool;
  unicode_IsSpace : rune -> bool;
  unicode_ToTitle_ascii : forall r, 0 <= r < 128 -> unicode_ToTitle r = ascii_upper r;
  unicode_ToLower_ascii : forall r, 0 <= r < 128 -> unicode_ToLower r = ascii_lower r
}.

(** ** Package [strings] *)
Module strings.

(** [Map]: every rune of [s] is passed through [mapping] and written
    back in UTF-8; a negative result drops the rune. *)
Definition write (r : rune) : list Z :=
  if r <? 0 then [] else utf8.EncodeRune r.

Definition Map (mapping : rune -> rune) (s : string) : string :=
  of_bytes (concat ((fun c => write (mapping c)) <$> utf8.runes s)).

Definition ToTitle `{UnicodeTables} (s : string) : string :=
  Map unicode_ToTitle s.

Definition ToLower `{UnicodeTables} (s : string) : string :=
  Map unicode_ToLower s.

Definition isSeparator `{UnicodeTables} (r : rune) : bool :=
  if r <=? 0x7F then
    if utf8.between 48 57 r then false
    else if utf8.between 97 122 r then false
    else if utf8.between 65 90 r then false
    else if r =? 95 then false
    else true
  else if unicode_IsLetter r || unicode_IsDigit r then false
  else unicode_IsSpace r.

(** [Title] maps the runes that begin a word to title case.  The closure
    of the source remembers the previous rune in [prev]. *)
Fixpoint title_runes `{UnicodeTables} (prev : rune) (l : list rune) : list rune :=
  match l with
  | [] => []
  | r :: l' =>
    (if isSeparator prev then unicode_ToTitle r else r) :: title_runes r l'
  end.

Definition Title `{UnicodeTables} (s : string) : string :=
  of_bytes (concat (write <$> title_runes 32 (utf8.runes s))).

(** [HasSuffix] *)
Definition HasSuffix (s suffix : string) : bool :=
  let n := String.length s in
  let m := String.length suffix in
  (m <=? n)%nat && String.eqb (substring (n - m) m s) suffix.

(** [LastIndex(s, "/")]: the index of the last [sep] byte, or [-1]. *)
Fixpoint last_index_from (i : Z) (sep : ascii) (s : string) (acc : Z) : Z :=
  match s with
  | EmptyString => acc
  | String a s' =>
    last_index_from (i + 1) sep s' (if Ascii.eqb a sep then i else acc)
  end.

Definition LastIndexByte (s : string) (sep : ascii) : Z :=
  last_index_from 0 sep s (-1).

(** [Join(elems, sep)] *)
Fixpoint Join (elems : list string) (sep : string) : string :=
  match elems with
  | [] => ""
  | [e] => e
  | e :: rest => e +:+ sep +:+ Join rest sep
  end.

End strings.

(** ** Package [github.com/mpetavy/common]: string helpers *)
Module common.

(** Modelled from the spec: [common.CompareIgnoreCase] belongs to the
    package [github.com/mpetavy/common], which the repository imports
    and does not contain.  It is the case-insensitive comparison of two
    strings: both sides are lowered with [strings.ToLower] and compared. *)
Definition CompareIgnoreCase `{UnicodeTables} (s0 s1 : string) : bool :=
  String.eqb (strings.ToLower s0) (strings.ToLower s1).

End common.

(** ** Package [path/filepath] (Unix build: the separator is [/]) *)
Module filepath.

Definition Separator : string := "/".

(** The elements of a path between separators, empty ones included. *)
Fixpoint split_from (cur : string) (s : string) : list string :=
  match s with
  | EmptyString => [cur]
  | String a s' =>
    if Ascii.eqb a "/"%char then cur :: split_from "" s'
    else split_from (cur +:+ String a "") s'
  end.

Definition split (s : string) : list string := split_from "" s.

(** The element-wise pass of [Clean]: empty elements and [.] are dropped,
    [..] removes the element before it, is dropped at the root, and is
    kept in front of a relative path.  [out] is the output so far, last
    element first. *)
Fixpoint clean_elems (rooted : bool) (elems out : list string) : list string :=
  match elems with
  | [] => rev out
  | e :: rest =>
    if String.eqb e "" || String.eqb e "." then clean_elems rooted rest out
    else if String.eqb e ".." then
      match out with
      | top :: out' =>
        if String.eqb top ".." then clean_elems rooted rest (e :: out)
        else clean_elems rooted rest out'
      | [] =>
        if rooted then clean_elems rooted rest []
        else clean_elems rooted rest [e]
      end
    else clean_elems rooted rest (e :: out)
  end.

Definition isRooted (path : string) : bool :=
  match path with
  | String a _ => Ascii.eqb a "/"%char
  | EmptyString => false
  end.

Definition Clean (path : string) : string :=
  let rooted := isRooted path in
  let out := strings.Join (clean_elems rooted (split path) []) Separator in
  if rooted then "/" +:+ out
  else if String.eqb out "" then "." else out.

(** [Join]: leading empty elements are ignored, the rest is joined with
    the separator and cleaned. *)
Fixpoint Join (elem : list string) : string :=
  match elem with
  | [] => ""
  | e :: rest =>
    if String.eqb e "" then Join rest
    else Clean (strings.Join elem Separator)
  end.

(** [Dir]: everything up to the last separator, cleaned. *)
Definition Dir (path : string) : string :=
  let i := strings.LastIndexByte path "/"%char in
  Clean (substring 0 (Z.to_nat (i + 1)) path).

End filepath.

(** ** Package [strconv] *)
Module strconv.

Fixpoint digits (s : string) (acc : Z) : option Z :=
  match s with
  | EmptyString => Some acc
  | String a s' =>
    let d := byte_val a - 48 in
    if utf8.between 0 9 d then digits s' (10 * acc + d) else None
  end.

(** [ParseInt(s, 10, 64)]: the value and whether an error is returned.
    On a syntax error the value is 0; out of range it is the nearest
    bound of [int64]. *)
Definition ParseInt (s : string) : Z * bool :=
  let '(neg, body) :=
    match s with
    | String "+" s' => (false, s')
    | String "-" s' => (true, s')
    | _ => (false, s)
    end in
  match body with
  | EmptyString => (0, true)
  | _ =>
    match digits body 0 with
    | None => (0, true)
    | Some n =>
      if neg then
        if 2 ^ 63 <? n then (- 2 ^ 63, true) else (- n, false)
      else
        if 2 ^ 63 - 1 <? n then (2 ^ 63 - 1, true) else (n, false)
    end
  end.

End strconv.

(** ** Descriptor model *)

Definition error := string.

(** A [*url.URL], as far as the program observes it: the field [Host] and
    the result of [String()]. *)
Record URL := { URL_Host : string; URL_String : string }.

Record Icon := { Icon_Href : string }.

Record Information := {
  Information_Title : string;
  Information_Vendor : string;
  Information_Homepage : string;
  Information_Description : string;
  Information_Icon : Icon
}.

Record Argument := { Argument_Text : string }.

Record ApplicationDesc := {
  ApplicationDesc_MainClass : string;
  ApplicationDesc_Arguments : list Argument
}.

Record Param := { Param_Text : string }.

Record AppletDesc := {
  AppletDesc_MainClass : string;
  AppletDesc_Params : list Param
}.

Record J2se := {
  J2se_Href : string;
  J2se_Version : string;
  J2se_MaxHeapSize : string
}.

Record Jar := {
  Jar_Href : string;
  Jar_Path : string;
  Jar_URL : option URL
}.

Record Extension := {
  Extension_Href : string;
  Extension_Path : string;
  Extension_URL : option URL
}.

Record PrivateJre := {
  PrivateJre_Os : string;
  PrivateJre_Arch : string;
  PrivateJre_Href : string;
  PrivateJre_Path : string;
  PrivateJre_URL : option URL
}.

Record Resource := {
  Resource_J2se : list J2se;
  Resource_Java : list J2se;
  Resource_Os : string;
  Resource_Arch : string;
  Resource_Jars : list Jar;
  Resource_Nativelibs : list Jar;
  Resource_Extensions : list Extension
}.

Record Jnlp := {
  Jnlp_Spec : string;
  Jnlp_Codebase : string;
  Jnlp_Information : Information;
  Jnlp_Resources : list Resource;
  Jnlp_PrivateJres : list PrivateJre;
  Jnlp_ApplicationDesc : ApplicationDesc;
  Jnlp_AppletDesc : AppletDesc
}.

(** ** The outside world *)

(** The operations that leave the process: file system, network, archive
    reader and child processes.  The [trace] of a state lists them in the
    order they were issued. *)
Inductive Op :=
| OpFileExists (filename : string)
| OpFileSize (filename : string)
| OpFileStore (filename : string)
| OpMkdirAll (path : string)
| OpHead (href : string)
| OpGet (href : string)
| OpReadAll (href : string)
| OpZipOpen (filename : string)
| OpZipEntry (filename name : string)
| OpRun (name : string) (args : list string)
| OpStart (name : string) (args : list string).

#[global] Instance Op_eq_dec : EqDecision Op.
Proof. solve_decision. Defined.

(** An entry of a ZIP archive: [f.Name], [f.FileInfo().IsDir()] and the
    bytes read from [f.Open()]. *)
Record ZipEntry := {
  ZipEntry_Name : string;
  ZipEntry_IsDir : bool;
  ZipEntry_Data : string
}.

(** A node of the file system. *)
Inductive Node :=
| File (content : string)
| Dir.

(** Flags, platform constants and the behaviour of everything the program
    calls but does not define.  [fault] decides, from the operations issued
    so far, whether the next one fails. *)
Record Env := {
  (* command line *)
  os_Args : list string;
  flag_url : string;
  flag_jre : string;
  flag_arch : string;
  flag_cache : string;
  (* platform *)
  runtime_GOOS : string;
  (* failures of external operations *)
  fault : list Op -> Op -> option error;
  (* the remote side: the Content-Length header of a HEAD response, the
     status code and the body of a GET response *)
  http_ContentLength : string -> string;
  http_StatusCode : string -> Z;
  http_Body : string -> string;
  (* net/url *)
  url_Parse : string -> error + URL;
  URL_Parse : URL -> string -> error + URL;
  (* github.com/mpetavy/common *)
  common_Trim4Path : string -> string;
  common_ToUTF8 : string -> string;
  (* encoding/xml *)
  xml_Decode : string -> error + Jnlp;
  (* archive/zip *)
  zip_File : string -> list ZipEntry;
  (* os.Stat(..).Size() of a directory *)
  dir_Size : string -> Z
}.

(** ** Program state *)

(** A function started by a [go] statement. *)
Inductive Task :=
| GoResource (url path : string) (doUnzip doExtract : bool)
| GoJnlp (address : string) (doHeader : bool).

(** The package-level variables of [main.go], the wait group counter, the
    error aggregator, the goroutines started and not yet run, the file
    system and the trace of external operations.  The flags are part
    of the environment; the variable [address], which [run] sets from the
    command line before anything else, is a local value of [run_resolve]. *)
Record State := {
  operatingsystem : string;
  jars : string;
  nativelibs : string;
  maxheapsize : string;
  jrepath : string;
  wg : Z;
  channelError : list error;
  goroutines : list Task;
  fs : gmap string Node;
  trace : list Op
}.

Definition set_operatingsystem (v : string) (s : State) : State :=
  {| operatingsystem := v; jars := jars s; nativelibs := nativelibs s;
     maxheapsize := maxheapsize s; jrepath := jrepath s; wg := wg s;
     channelError := channelError s; goroutines := goroutines s;
     fs := fs s; trace := trace s |}.
Definition set_jars (v : string) (s : State) : State :=
  {| operatingsystem := operatingsystem s; jars := v; nativelibs := nativelibs s;
     maxheapsize := maxheapsize s; jrepath := jrepath s; wg := wg s;
     channelError := channelError s; goroutines := goroutines s;
     fs := fs s; trace := trace s |}.
Definition set_nativelibs (v : string) (s : State) : State :=
  {| operatingsystem := operatingsystem s; jars := jars s; nativelibs := v;
     maxheapsize := maxheapsize s; jrepath := jrepath s; wg := wg s;
     channelError := channelError s; goroutines := goroutines s;
     fs := fs s; trace := trace s |}.
Definition set_maxheapsize (v : string) (s : State) : State :=
  {| operatingsystem := operatingsystem s; jars := jars s; nativelibs := nativelibs s;
     maxheapsize := v; jrepath := jrepath s; wg := wg s;
     channelError := channelError s; goroutines := goroutines s;
     fs := fs s; trace := trace s |}.
Definition set_jrepath (v : string) (s : State) : State :=
  {| operatingsystem := operatingsystem s; jars := jars s; nativelibs := nativelibs s;
     maxheapsize := maxheapsize s; jrepath := v; wg := wg s;
     channelError := channelError s; goroutines := goroutines s;
     fs := fs s; trace := trace s |}.
Definition set_wg (v : Z) (s : State) : State :=
  {| operatingsystem := operatingsystem s; jars := jars s; nativelibs := nativelibs s;
     maxheapsize := maxheapsize s; jrepath := jrepath s; wg := v;
     channelError := channelError s; goroutines := goroutines s;
     fs := fs s; trace := trace s |}.
Definition set_channelError (v : list error) (s : State) : State :=
  {| operatingsystem := operatingsystem s; jars := jars s; nativelibs := nativelibs s;
     maxheapsize := maxheapsize s; jrepath := jrepath s; wg := wg s;
     channelError := v; goroutines := goroutines s;
     fs := fs s; trace := trace s |}.
Definition set_goroutines (v : list Task) (s : State) : State :=
  {| operatingsystem := operatingsystem s; jars := jars s; nativelibs := nativelibs s;
     maxheapsize := maxheapsize s; jrepath := jrepath s; wg := wg s;
     channelError := channelError s; goroutines := v;
     fs := fs s; trace := trace s |}.
Definition set_fs (v : gmap string Node) (s : State) : State :=
  {| operatingsystem := operatingsystem s; jars := jars s; nativelibs := nativelibs s;
     maxheapsize := maxheapsize s; jrepath := jrepath s; wg := wg s;
     channelError := channelError s; goroutines := goroutines s;
     fs := v; trace := trace s |}.
Definition set_trace (v : list Op) (s : State) : State :=
  {| operatingsystem := operatingsystem s; jars := jars s; nativelibs := nativelibs s;
     maxheapsize := maxheapsize s; jrepath := jrepath s; wg := wg s;
     channelError := channelError s; goroutines := goroutines s;
     fs := fs s; trace := v |}.

(** ** The monad of function bodies *)

(** What stops the whole process. *)
Inductive HaltKind :=
| OsExit (code : Z)
| Panic (msg : string).

(** A statement of a function whose result type is [R] either completes
    with a value, executes [return], or stops the process. *)
Inductive Res (R A : Type) :=
| Val (a : A) (s : State)
| Return (r : R) (s : State)
| Halt (h : HaltKind) (s : State).
Arguments Val {R A} a s.
Arguments Return {R A} r s.
Arguments Halt {R A} h s.

Definition Body (R A : Type) : Type := State -> Res R A.

Definition ret {R A} (a : A) : Body R A := fun s => Val a s.

Definition bind {R A B} (m : Body R A) (k : A -> Body R B) : Body R B :=
  fun s =>
    match m s with
    | Val a s' => k a s'
    | Return r s' => Return r s'
    | Halt h s' => Halt h s'
    end.

Declare Scope body_scope.
Delimit Scope body_scope with body.
Notation "x <- m ;; k" := (bind m (fun x => k))
  (at level 100, m at next level, right associativity) : body_scope.
Notation "m ;; k" := (bind m (fun _ => k))
  (at level 100, right associativity) : body_scope.
Open Scope body_scope.

(** [return r] *)
Definition return_ {R A} (r : R) : Body R A := fun s => Return r s.

(** [os.Exit(code)] *)
Definition os_Exit {R A} (code : Z) : Body R A := fun s => Halt (OsExit code) s.

(** A run-time panic. *)
Definition panic {R A} (msg : string) : Body R A := fun s => Halt (Panic msg) s.

Definition get {R} : Body R State := fun s => Val s s.
Definition modify {R} (f : State -> State) : Body R unit := fun s => Val tt (f s).

(** A call [f(...)] of a function with a result: its body ends in a
    [return], and what it returns is the value of the call. *)
Definition call {R R'} (f : Body R Empty_set) : Body R' R :=
  fun s =>
    match f s with
    | Val a s' => match a with end
    | Return r s' => Val r s'
    | Halt h s' => Halt h s'
    end.

(** A call of a function without result, which may also run off its end. *)
Definition call_proc {R'} (f : Body unit unit) : Body R' unit :=
  fun s =>
    match f s with
    | Val _ s' => Val tt s'
    | Return _ s' => Val tt s'
    | Halt h s' => Halt h s'
    end.

(** [defer d()] at the head of a body: [d] runs when the body completes,
    returns or panics; [os.Exit] skips it. *)
Definition defer {R} (d : Body R unit) (body : Body R unit) : Body R unit :=
  fun s =>
    match body s with
    | Val a s' => d s'
    | Return r s' =>
      match d s' with
      | Val _ s'' => Return r s''
      | other => other
      end
    | Halt (Panic msg) s' =>
      match d s' with
      | Val _ s'' => Halt (Panic msg) s''
      | other => other
      end
    | Halt h s' => Halt h s'
    end.

(** [for _, x := range l { body }] *)
Fixpoint for_range {R A} (l : list A) (body : A -> Body R unit) : Body R unit :=
  match l with
  | [] => ret tt
  | x :: l' => body x ;; for_range l' body
  end.

(** [if cond { body }] *)
Definition when {R} (cond : bool) (body : Body R unit) : Body R unit :=
  if cond then body else ret tt.

(** [v, err := f(); if err != nil { handler }] *)
Definition or_else {R A} (r : error + A) (handler : error -> Body R A) : Body R A :=
  match r with
  | inl err => handler err
  | inr a => ret a
  end.

(** ** The program *)

Section Program.

Context `{UnicodeTables} (env : Env).

(** *** External operations *)

(** Every external operation is appended to the trace; [fault] tells
    whether it fails. *)
Definition issue {R} (op : Op) : Body R (option error) :=
  fun s => Val (fault env (trace s) op) (set_trace (trace s ++ [op])%list s).

(** [common.FileExists]: [os.Stat] with "does not exist" turned into
    [(false, nil)]. *)
Definition common_FileExists {R} (filename : string) : Body R (bool * option error) :=
  f <- issue (OpFileExists filename) ;;
  s <- get ;;
  match f with
  | Some err => ret (false, Some err)
  | None => ret (bool_decide (is_Some (fs s !! filename)), None)
  end.

(** [common.FileSize] *)
Definition common_FileSize {R} (filename : string) : Body R (error + Z) :=
  f <- issue (OpFileSize filename) ;;
  s <- get ;;
  match f with
  | Some err => ret (inl err)
  | None =>
    match fs s !! filename with
    | Some (File content) => ret (inr (len content))
    | Some Dir => ret (inr (dir_Size env filename))
    | None => ret (inl ("stat " +:+ filename +:+ ": no such file or directory"))
    end
  end.

(** The directories [os.MkdirAll(path)] has to find or make: [path] and
    its parents. *)
Fixpoint parents (fuel : nat) (path : string) : list string :=
  match fuel with
  | O => [path]
  | S fuel' =>
    let d := filepath.Dir path in
    if String.eqb d path then [path] else path :: parents fuel' d
  end.

Definition mkdir (path : string) (m : gmap string Node) : gmap string Node :=
  match m !! path with
  | Some _ => m
  | None => <[path := Dir]> m
  end.

(** [os.MkdirAll]: fails when [path] or one of its parents is a regular
    file. *)
Definition os_MkdirAll {R} (path : string) : Body R (option error) :=
  f <- issue (OpMkdirAll path) ;;
  s <- get ;;
  match f with
  | Some err => ret (Some err)
  | None =>
    let ps := parents (String.length path) path in
    if existsb (fun p => match fs s !! p with Some (File _) => true | _ => false end) ps
    then ret (Some ("mkdir " +:+ path +:+ ": not a directory"))
    else modify (set_fs (foldr mkdir (fs s) ps)) ;; ret None
  end.

(** [common.FileStore(filename, r)]: create or truncate the file and
    copy the reader into it. *)
Definition common_FileStore {R} (filename content : string) : Body R (option error) :=
  f <- issue (OpFileStore filename) ;;
  s <- get ;;
  match f with
  | Some err => ret (Some err)
  | None =>
    match fs s !! filename with
    | Some Dir => ret (Some ("open " +:+ filename +:+ ": is a directory"))
    | _ => modify (set_fs (<[filename := File content]> (fs s))) ;; ret None
    end
  end.

(** [client.Head(href)]; the value is the [Content-Length] header. *)
Definition client_Head {R} (href : string) : Body R (error + string) :=
  f <- issue (OpHead href) ;;
  match f with
  | Some err => ret (inl err)
  | None => ret (inr (http_ContentLength env href))
  end.

(** [client.Get(href)]; the value is the status code and the body still
    to be read. *)
Definition client_Get {R} (href : string) : Body R (error + Z * string) :=
  f <- issue (OpGet href) ;;
  match f with
  | Some err => ret (inl err)
  | None => ret (inr (http_StatusCode env href, http_Body env href))
  end.

(** [ioutil.ReadAll(response.Body)] *)
Definition ioutil_ReadAll {R} (href body : string) : Body R (error + string) :=
  f <- issue (OpReadAll href) ;;
  match f with
  | Some err => ret (inl err)
  | None => ret (inr body)
  end.

(** [zip.OpenReader(filename)]; the value is [r.File]. *)
Definition zip_OpenReader {R} (filename : string) : Body R (error + list ZipEntry) :=
  f <- issue (OpZipOpen filename) ;;
  s <- get ;;
  match f with
  | Some err => ret (inl err)
  | None =>
    match fs s !! filename with
    | Some (File content) => ret (inr (zip_File env content))
    | Some Dir => ret (inl ("read " +:+ filename +:+ ": is a directory"))
    | None => ret (inl ("open " +:+ filename +:+ ": no such file or directory"))
    end
  end.

(** [f.Open()] for an entry of the archive [filename]. *)
Definition zip_Open {R} (filename : string) (f : ZipEntry) : Body R (error + string) :=
  e <- issue (OpZipEntry filename (ZipEntry_Name f)) ;;
  match e with
  | Some err => ret (inl err)
  | None => ret (inr (ZipEntry_Data f))
  end.

(** [exec.Command(name, args...).Run()] *)
Definition cmd_Run {R} (name : string) (args : list string) : Body R (option error) :=
  issue (OpRun name args).

(** [exec.Command(name, args...).Start()] *)
Definition cmd_Start {R} (name : string) (args : list string) : Body R (option error) :=
  issue (OpStart name args).

(** *** Wait group, error aggregator, goroutines *)

(** [wg.Add(delta)]; a negative counter panics.  The panics of
    [sync.WaitGroup] on a call of [Add] that is concurrent with [Wait]
    are not modelled. *)
Definition wg_Add {R} (delta : Z) : Body R unit :=
  s <- get ;;
  if wg s + delta <? 0 then panic "sync: negative WaitGroup counter"
  else modify (set_wg (wg s + delta)).

Definition wg_Done {R} : Body R unit := wg_Add (-1).

(** [channelError.Add(err)] *)
Definition channelError_Add {R} (err : error) : Body R unit :=
  modify (fun s => set_channelError (channelError s ++ [err])%list s).

(** [channelError.Exists()] and [channelError.Get()] *)
Definition channelError_Exists (s : State) : bool :=
  match channelError s with [] => false | _ => true end.
Definition channelError_Get (s : State) : option error := head (channelError s).

(** [go f(...)] *)
Definition go {R} (t : Task) : Body R unit :=
  modify (fun s => set_goroutines (goroutines s ++ [t])%list s).

(** *** Platform constants *)

Definition common_IsWindowsOS : bool := String.eqb (runtime_GOOS env) "windows".

Definition filepath_ListSeparator : string :=
  if common_IsWindowsOS then ";" else ":".

(** *** [download] *)

(** The deferred [response.Body.Close()] has no effect on the state. *)
Definition download (href filename : string) : Body (option error) Empty_set :=
  be <- common_FileExists filename ;;
  let '(b, err) := be in
  when (bool_decide (is_Some err)) (return_ None) ;;
  mustDownload <-
    (if b then
       r <- client_Head href ;;
       response <- or_else r (fun err => return_ (Some err)) ;;
       let contentLength := (strconv.ParseInt response).1 in
       r <- common_FileSize filename ;;
       fs <- or_else r (fun err => return_ (Some err)) ;;
       ret (negb (fs =? contentLength))
     else ret true) ;;
  when mustDownload (
    r <- client_Get href ;;
    response <- or_else r (fun err => return_ (Some err)) ;;
    err <- os_MkdirAll (filepath.Dir filename) ;;
    when (bool_decide (is_Some err)) (return_ err) ;;
    err <- common_FileStore filename response.2 ;;
    when (bool_decide (is_Some err)) (return_ err)) ;;
  return_ None.

(** *** [runUnzip] *)

Definition runUnzip (filename path : string) : Body (option error) Empty_set :=
  r <- zip_OpenReader filename ;;
  files <- or_else r (fun err => return_ (Some err)) ;;
  for_range files (fun f =>
    let path := filepath.Join [path; ZipEntry_Name f] in
    err <- os_MkdirAll (filepath.Dir path) ;;
    when (bool_decide (is_Some err)) (return_ err) ;;
    r <- zip_Open filename f ;;
    zipfile <- or_else r (fun err => return_ (Some err)) ;;
    when (negb (ZipEntry_IsDir f)) (
      err <- common_FileStore path zipfile ;;
      when (bool_decide (is_Some err)) (return_ err))) ;;
  return_ None.

(** *** [runSelfextract] *)

Definition runSelfextract (filename : string) : Body (option error) Empty_set :=
  err <- cmd_Run filename ["-y"; "-o" +:+ filepath.Dir filename] ;;
  return_ err.

(** *** [runResource] *)

Definition runResource (url path : string) (doUnzip doExtract : bool) : Body unit unit :=
  defer wg_Done (
    err <- call (download url path) ;;
    match err with
    | Some err => channelError_Add err ;; return_ tt
    | None =>
      let doUnzip := doUnzip || strings.HasSuffix path ".zip" in
      let doExtract := doExtract || strings.HasSuffix path ".exe" in
      when doUnzip (
        err <- call (runUnzip path (filepath.Dir path)) ;;
        match err with
        | Some err => channelError_Add err ;; return_ tt
        | None => ret tt
        end) ;;
      when doExtract (
        err <- call (runSelfextract path) ;;
        match err with
        | Some err => channelError_Add err ;; return_ tt
        | None => ret tt
        end)
    end).

(** *** [runJnlp] *)

(** The test of [runJnlp] on a resource group or private runtime: is it
    relevant for the architecture [*arch] and the OS? *)
Definition relevant (Arch Os : string) (arch operatingsystem : string) : bool :=
  ((len Arch =? 0) || common.CompareIgnoreCase Arch arch)
  && ((len Os =? 0) || common.CompareIgnoreCase Os operatingsystem).

(** The first statements of the loop over [jnlp.Resources]: the copy
    [resource] gets its [Arch] in title case and its [Os] in upper case. *)
Definition normalized_Arch (resource : Resource) : string :=
  if 0 <? len (Resource_Arch resource)
  then strings.Title (Resource_Arch resource) else Resource_Arch resource.

Definition normalized_Os (resource : Resource) : string :=
  if 0 <? len (Resource_Os resource)
  then strings.ToTitle (Resource_Os resource) else Resource_Os resource.

(** The condition under which the loop body of [runJnlp] processes
    [resource]. *)
Definition group_active (resource : Resource) (arch operatingsystem : string) : bool :=
  relevant (normalized_Arch resource) (normalized_Os resource) arch operatingsystem.

(** [u.Parse(codebase + "/" + href)] *)
Definition resolve (u : URL) (codebase href : string) : error + URL :=
  URL_Parse env u (codebase +:+ "/" +:+ href).

(** [filename] of a private runtime: what follows the last [/] of its
    [Href]. *)
Definition jre_filename (Href : string) : string :=
  let p := strings.LastIndexByte Href "/"%char in
  if negb (p =? -1)
  then substring (Z.to_nat (p + 1)) (String.length Href - Z.to_nat (p + 1)) Href
  else Href.

Definition runJnlp (address : string) (doHeader : bool) : Body (option Jnlp) Empty_set :=
  (* try to get the JNLP file *)
  r <- client_Get address ;;
  response <- or_else r (fun err => channelError_Add err ;; return_ None) ;;
  (* load the JNLP file *)
  r <- ioutil_ReadAll address response.2 ;;
  content <- or_else r (fun err => channelError_Add err ;; return_ None) ;;
  (* check for the HTTP status code *)
  when (negb (response.1 =? 200)) (os_Exit 1) ;;
  (* parse the JNLP u *)
  u <- or_else (url_Parse env address) (fun err => channelError_Add err ;; return_ None) ;;
  let jnlpPath := filepath.Join [flag_cache env; common_Trim4Path env (URL_Host u)] in
  let appPath := filepath.Join [jnlpPath; "app"] in
  let content := common_ToUTF8 env content in
  jnlp <- or_else (xml_Decode env content) (fun err => channelError_Add err ;; return_ None) ;;
  codebase <-
    (if String.eqb (Jnlp_Codebase jnlp) "" then
       let i := strings.LastIndexByte address "/"%char in
       if i <? 0 then panic "slice bounds out of range"
       else ret (substring 0 (Z.to_nat i) address)
     else ret (Jnlp_Codebase jnlp)) ;;
  (* iterate over the JNLP defined resources *)
  for_range (Jnlp_Resources jnlp) (fun resource =>
    s <- get ;;
    when (group_active resource (flag_arch env) (operatingsystem s)) (
      (* iterate over the resource JARS *)
      for_range (Resource_Jars resource) (fun jar =>
        wg_Add 1 ;;
        let Path := filepath.Join [appPath; Jar_Href jar] in
        URL <- or_else (resolve u codebase (Jar_Href jar))
                 (fun err => channelError_Add err ;; return_ None) ;;
        modify (fun s => set_jars (strings.Join [jars s; Path] filepath_ListSeparator) s) ;;
        go (GoResource (URL_String URL) Path false false)) ;;
      (* iterate over the resource EXTENSIONS *)
      for_range (Resource_Extensions resource) (fun extension =>
        URL <- or_else (resolve u codebase (Extension_Href extension))
                 (fun err => channelError_Add err ;; return_ None) ;;
        go (GoJnlp (URL_String URL) false)) ;;
      (* iterate over the defined nativelibs *)
      for_range (Resource_Nativelibs resource) (fun nativelib =>
        wg_Add 1 ;;
        let Path := filepath.Join [appPath; Jar_Href nativelib] in
        URL <- or_else (resolve u codebase (Jar_Href nativelib))
                 (fun err => channelError_Add err ;; return_ None) ;;
        modify (fun s =>
          set_nativelibs
            (strings.Join [nativelibs s; filepath.Dir Path] filepath_ListSeparator) s) ;;
        go (GoResource (URL_String URL) Path true false)) ;;
      when doHeader (
        for_range (Resource_J2se resource) (fun j2se =>
          modify (set_maxheapsize (J2se_MaxHeapSize j2se))) ;;
        s <- get ;;
        when (len (maxheapsize s) =? 0) (
          for_range (Resource_Java resource) (fun java =>
            modify (set_maxheapsize (J2se_MaxHeapSize java))))))) ;;
  (* iterate over the private JREs *)
  for_range (Jnlp_PrivateJres jnlp) (fun jre =>
    s <- get ;;
    when (relevant (PrivateJre_Arch jre) (PrivateJre_Os jre)
            (flag_arch env) (operatingsystem s)) (
      wg_Add 1 ;;
      let filename := jre_filename (PrivateJre_Href jre) in
      let Path := filepath.Join [jnlpPath; PrivateJre_Arch jre; filename] in
      URL <- or_else (resolve u codebase (PrivateJre_Href jre))
               (fun err => channelError_Add err ;; return_ None) ;;
      when doHeader (
        modify (set_jrepath (filepath.Join [filepath.Dir Path; "bin"; "javaw"]))) ;;
      call_proc (runResource (URL_String URL) Path false true))) ;;
  return_ (Some jnlp).

(** *** [run] *)

(** [run] up to [wg.Wait()]: the value is what the root call of [runJnlp]
    returned. *)
Definition run_resolve : Body (option error) (option Jnlp) :=
  when (Nat.eqb (length (os_Args env)) 1) (os_Exit 1) ;;
  let address :=
    match os_Args env with
    | [_; a] => a
    | _ => flag_url env
    end in
  be <- common_FileExists (flag_cache env) ;;
  let '(b, err) := be in
  when (bool_decide (is_Some err)) (return_ err) ;;
  when (negb b) (
    err <- os_MkdirAll (flag_cache env) ;;
    when (bool_decide (is_Some err)) (return_ err)) ;;
  (if String.eqb (runtime_GOOS env) "linux" then
     modify (set_operatingsystem (strings.ToTitle "Linux"))
   else if String.eqb (runtime_GOOS env) "windows" then
     modify (set_operatingsystem (strings.ToTitle "Windows"))
   else if String.eqb (runtime_GOOS env) "darwin" then
     modify (set_operatingsystem (strings.ToTitle "Mac OS X"))
   else ret tt) ;;
  s <- get ;;
  when (len (jrepath s) =? 0) (
    if common_IsWindowsOS then modify (set_jrepath "javaw")
    else modify (set_jrepath "java")) ;;
  call (runJnlp address true).

(** The command line parameters [cmds] as far as they come from the
    package-level variables. *)
Definition cmds_prefix (s : State) : list string :=
  ((if 0 <? len (maxheapsize s) then ["-Xmx" +:+ maxheapsize s] else [])
   ++ (if negb (String.eqb (nativelibs s) "")
       then ["-Djava.library.path=" +:+ nativelibs s] else [])
   ++ ["-cp"; jars s])%list.

(** The main class and its arguments. *)
Definition cmds_main (jnlp : Jnlp) : list string :=
  if negb (String.eqb (ApplicationDesc_MainClass (Jnlp_ApplicationDesc jnlp)) "") then
    ApplicationDesc_MainClass (Jnlp_ApplicationDesc jnlp)
    :: (Argument_Text <$> ApplicationDesc_Arguments (Jnlp_ApplicationDesc jnlp))
  else
    AppletDesc_MainClass (Jnlp_AppletDesc jnlp)
    :: (Param_Text <$> AppletDesc_Params (Jnlp_AppletDesc jnlp)).

Definition nil_dereference : string :=
  "invalid memory address or nil pointer dereference".

(** [run] after [wg.Wait()] has returned. *)
Definition run_launch (jnlp : option Jnlp) : Body (option error) Empty_set :=
  s <- get ;;
  when (channelError_Exists s) (return_ (channelError_Get s)) ;;
  let cmds := cmds_prefix s in
  match jnlp with
  | None => panic nil_dereference
  | Some jnlp =>
    let cmds := (cmds ++ cmds_main jnlp)%list in
    err <- cmd_Start (jrepath s) cmds ;;
    return_ err
  end.

(** *** Goroutines and the scheduler *)

(** Where the main goroutine stands. *)
Inductive MainPC :=
| MainInit
| MainWait (jnlp : option Jnlp)
| MainDone (err : option error).

Inductive Config :=
| Running (pc : MainPC) (s : State)
| Stopped (h : HaltKind) (s : State).

Inductive Choice :=
| RunMain
| RunGo (i : nat).

Definition run_task (t : Task) : Body unit unit :=
  match t with
  | GoResource url path doUnzip doExtract =>
    call_proc (runResource url path doUnzip doExtract)
  | GoJnlp address doHeader =>
    _ <- call (runJnlp address doHeader) ;; ret tt
  end.

(** One scheduling decision.  The main goroutine runs [run] up to
    [wg.Wait()], passes the barrier once the counter is zero, and runs
    the rest of [run]; the goroutine at position [i] of the pool runs to
    its end.  When [run] has returned the process is over.  [None]: the
    choice is not enabled.  Goroutines are interleaved at this
    granularity: each of these pieces runs without interruption. *)
Definition step (c : Choice) (cfg : Config) : option Config :=
  match cfg, c with
  | Running MainInit s, RunMain =>
    Some match run_resolve s with
         | Val jnlp s' => Running (MainWait jnlp) s'
         | Return err s' => Running (MainDone err) s'
         | Halt h s' => Stopped h s'
         end
  | Running (MainWait jnlp) s, RunMain =>
    if wg s =? 0 then
      Some match run_launch jnlp s with
           | Val a _ => match a with end
           | Return err s' => Running (MainDone err) s'
           | Halt h s' => Stopped h s'
           end
    else None
  | Running (MainWait jnlp) s, RunGo i =>
    match goroutines s !! i with
    | Some t =>
      Some match run_task t (set_goroutines (delete i (goroutines s)) s) with
           | Val _ s' | Return _ s' => Running (MainWait jnlp) s'
           | Halt h s' => Stopped h s'
           end
    | None => None
    end
  | _, _ => None
  end.

Fixpoint exec (sched : list Choice) (cfg : Config) : option Config :=
  match sched with
  | [] => Some cfg
  | c :: sched' =>
    match step c cfg with
    | Some cfg' => exec sched' cfg'
    | None => None
    end
  end.

(** The state in which [main] starts: the package-level variables hold
    their zero values, [*jrepath] the value of the flag. *)
Definition init (disk : gmap string Node) : Config :=
  Running MainInit
    {| operatingsystem := ""; jars := ""; nativelibs := ""; maxheapsize := "";
       jrepath := flag_jre env; wg := 0; channelError := []; goroutines := [];
       fs := disk; trace := [] |}.

End Program.

(** * Properties *)

(** ** Concrete environments for the examples *)

Module Fixture.

(** The entries of Go's [unicode] tables for ASCII and for the code
    points U+0130, U+0131 and U+017F: [ToTitle] sends the dotless i
    (U+0131) to [I] and the long s (U+017F) to [S]; [ToLower] sends the
    dotted capital I (U+0130) to [i].  The examples use no other code
    point. *)
Definition ToTitle (r : rune) : rune :=
  if r <? 128 then ascii_upper r
  else if r =? 0x131 then 0x49 else if r =? 0x17F then 0x53 else r.

Definition ToLower (r : rune) : rune :=
  if r <? 128 then ascii_lower r else if r =? 0x130 then 0x69 else r.

Lemma latin_ToTitle_ascii r : 0 <= r < 128 -> ToTitle r = ascii_upper r.
Proof. intros Hr. unfold ToTitle. destruct (Z.ltb_spec r 128); [reflexivity | lia]. Qed.

Lemma latin_ToLower_ascii r : 0 <= r < 128 -> ToLower r = ascii_lower r.
Proof. intros Hr. unfold ToLower. destruct (Z.ltb_spec r 128); [reflexivity | lia]. Qed.

Definition latin : UnicodeTables := {|
  unicode_ToTitle := ToTitle;
  unicode_ToLower := ToLower;
  unicode_IsLetter r := (r =? 0x130) || (r =? 0x131) || (r =? 0x17F);
  unicode_IsDigit r := false;
  unicode_IsSpace r := false;
  unicode_ToTitle_ascii := latin_ToTitle_ascii;
  unicode_ToLower_ascii := latin_ToLower_ascii
|}.

(** Absolute URLs of the form [scheme://host/path], which [url.Parse]
    accepts and prints back unchanged. *)
Definition parse (s : string) : error + URL :=
  match index 0 "://" s with
  | Some n =>
    let rest := substring (n + 3) (String.length s - (n + 3)) s in
    let host :=
      match index 0 "/" rest with
      | Some m => substring 0 m rest
      | None => rest
      end in
    inr {| URL_Host := host; URL_String := s |}
  | None => inl ("parse " +:+ s +:+ ": not an absolute URL")
  end.

Fixpoint assoc {A} (k : string) (l : list (string * A)) : option A :=
  match l with
  | [] => None
  | (k', a) :: l' => if String.eqb k k' then Some a else assoc k l'
  end.

(** A remote resource: status code, [Content-Length] header and body. *)
Record Remote := { status : Z; content_length : string; body : string }.

(** An environment on a Unix platform: [remote] lists what the server
    serves, [docs] what the XML decoder makes of a body, [faults] the
    operations that fail. *)
Definition world (goos arch cache : string) (args : list string)
    (remote : list (string * Remote)) (docs : list (string * Jnlp))
    (faults : list Op) : Env :=
  {| os_Args := args;
     flag_url := "";
     flag_jre := "";
     flag_arch := arch;
     flag_cache := cache;
     runtime_GOOS := goos;
     fault := fun _ op => if bool_decide (op ∈ faults) then Some "failed" else None;
     http_ContentLength := fun u => from_option content_length "" (assoc u remote);
     http_StatusCode := fun u => from_option status 404 (assoc u remote);
     http_Body := fun u => from_option body "" (assoc u remote);
     url_Parse := parse;
     URL_Parse := fun _ ref => parse ref;
     common_Trim4Path := fun s => s;
     common_ToUTF8 := fun s => s;
     xml_Decode := fun s =>
       match assoc s docs with
       | Some j => inr j
       | None => inl "EOF"
       end;
     zip_File := fun _ => [];
     dir_Size := fun _ => 4096 |}.

Definition info : Information :=
  {| Information_Title := ""; Information_Vendor := ""; Information_Homepage := "";
     Information_Description := ""; Information_Icon := {| Icon_Href := "" |} |}.

Definition jar (href : string) : Jar :=
  {| Jar_Href := href; Jar_Path := ""; Jar_URL := None |}.

Definition extension (href : string) : Extension :=
  {| Extension_Href := href; Extension_Path := ""; Extension_URL := None |}.

Definition group (os arch : string) (jars nativelibs : list Jar)
    (extensions : list Extension) (heap : list J2se) : Resource :=
  {| Resource_J2se := heap; Resource_Java := []; Resource_Os := os;
     Resource_Arch := arch; Resource_Jars := jars; Resource_Nativelibs := nativelibs;
     Resource_Extensions := extensions |}.

Definition descriptor (codebase : string) (resources : list Resource)
    (jres : list PrivateJre) (main : string) (args : list string) : Jnlp :=
  {| Jnlp_Spec := "1.0+"; Jnlp_Codebase := codebase; Jnlp_Information := info;
     Jnlp_Resources := resources; Jnlp_PrivateJres := jres;
     Jnlp_ApplicationDesc :=
       {| ApplicationDesc_MainClass := main;
          ApplicationDesc_Arguments := (fun a => {| Argument_Text := a |}) <$> args |};
     Jnlp_AppletDesc := {| AppletDesc_MainClass := ""; AppletDesc_Params := [] |} |}.

Definition ok (len body : string) : Remote :=
  {| status := 200; content_length := len; body := body |}.

Definition j2se (heap : string) : J2se :=
  {| J2se_Href := ""; J2se_Version := "1.8+"; J2se_MaxHeapSize := heap |}.

Definition private_jre (os arch href : string) : PrivateJre :=
  {| PrivateJre_Os := os; PrivateJre_Arch := arch; PrivateJre_Href := href;
     PrivateJre_Path := ""; PrivateJre_URL := None |}.

(** A root descriptor with a heap hint and one extension; the extension
    descriptor has a heap hint of its own, a jar and a private runtime. *)
Definition with_extension : Env :=
  world "linux" "amd64" "/c" ["espresso"; "http://h/app/a.jnlp"]
    [("http://h/app/a.jnlp", ok "6" "<root>");
     ("http://h/app/ext.jnlp", ok "5" "<ext>");
     ("http://h/ext/lib.jar", ok "3" "LIB");
     ("http://h/ext/jre/j.bin", ok "3" "JRE")]
    [("<root>",
      descriptor "http://h/app"
        [group "" "" [] [] [extension "ext.jnlp"] [j2se "256m"]] [] "Main" []);
     ("<ext>",
      descriptor "http://h/ext"
        [group "" "" [jar "lib.jar"] [] [] [j2se "1g"]]
        [private_jre "" "" "jre/j.bin"] "" [])]
    [].

(** A root descriptor with a jar and an extension whose descriptor the
    server does not have. *)
Definition missing_extension : Env :=
  world "linux" "amd64" "/c" ["espresso"; "http://h/app/a.jnlp"]
    [("http://h/app/a.jnlp", ok "6" "<root>");
     ("http://h/app/x.jar", ok "3" "JAR");
     ("http://h/app/ext.jnlp",
      {| status := 404; content_length := "9"; body := "Not Found" |})]
    [("<root>",
      descriptor "http://h/app"
        [group "" "" [jar "x.jar"] [] [extension "ext.jnlp"] []] [] "Main" [])]
    [].

(** A root descriptor that cannot be fetched. *)
Definition unreachable_root : Env :=
  world "linux" "amd64" "/c" ["espresso"; "http://h/app/a.jnlp"] [] []
    [OpGet "http://h/app/a.jnlp"].

(** The scenario of the specification: codebase [http://h/app], one
    jar [x.jar] in a group without filters, no private runtime, no heap
    hint, main class [Main]; the cache root is [/c]. *)
Definition single_jar : Env :=
  world "linux" "amd64" "/c" ["espresso"; "http://h/app/a.jnlp"]
    [("http://h/app/a.jnlp", ok "6" "<root>"); ("http://h/app/x.jar", ok "3" "JAR")]
    [("<root>", descriptor "http://h/app" [group "" "" [jar "x.jar"] [] [] []] [] "Main" [])]
    [].

(** The same, with a cached jar whose [os.Stat] fails. *)
Definition stat_fails : Env :=
  world "linux" "amd64" "/c" ["espresso"; "http://h/app/a.jnlp"]
    [("http://h/app/a.jnlp", ok "6" "<root>"); ("http://h/app/x.jar", ok "3" "JAR")]
    [("<root>", descriptor "http://h/app" [group "" "" [jar "x.jar"] [] [] []] [] "Main" [])]
    [OpFileExists "/c/h/app/x.jar"].

(** The same, with a server that sends the jar without a
    [Content-Length] header. *)
Definition no_length : Env :=
  world "linux" "amd64" "/c" ["espresso"; "http://h/app/a.jnlp"]
    [("http://h/app/a.jnlp", ok "6" "<root>"); ("http://h/app/x.jar", ok "" "JAR")]
    [("<root>", descriptor "http://h/app" [group "" "" [jar "x.jar"] [] [] []] [] "Main" [])]
    [].

(** A root descriptor with a jar that the server does not deliver and
    an extension whose descriptor does not decode. *)
Definition failing_tasks : Env :=
  world "linux" "amd64" "/c" ["espresso"; "http://h/app/a.jnlp"]
    [("http://h/app/a.jnlp", ok "6" "<root>");
     ("http://h/app/x.jar", ok "3" "JAR");
     ("http://h/app/ext.jnlp", ok "5" "<bad>")]
    [("<root>",
      descriptor "http://h/app"
        [group "" "" [jar "x.jar"] [] [extension "ext.jnlp"] []] [] "Main" [])]
    [OpGet "http://h/app/x.jar"].

(** A descriptor with both launch blocks populated. *)
Definition both_blocks : Jnlp :=
  {| Jnlp_Spec := "1.0+"; Jnlp_Codebase := "http://h/app"; Jnlp_Information := info;
     Jnlp_Resources := []; Jnlp_PrivateJres := [];
     Jnlp_ApplicationDesc :=
       {| ApplicationDesc_MainClass := "Main";
          ApplicationDesc_Arguments := [{| Argument_Text := "-v" |}; {| Argument_Text := "in" |}] |};
     Jnlp_AppletDesc :=
       {| AppletDesc_MainClass := "Applet";
          AppletDesc_Params := [{| Param_Text := "p" |}] |} |}.

(** The state of [main] at its start, on an empty disk. *)
Definition start (env : Env) : State := 
  {| operatingsystem := ""; jars := ""; nativelibs := ""; maxheapsize := "";
     jrepath := flag_jre env; wg := 0; channelError := []; goroutines := [];
     fs := ∅; trace := [] |}.

End Fixture.

#[local] Existing Instance Fixture.latin.

(** Closed goals about the fixtures are settled by evaluation. *)
Ltac evaluate :=
  lazymatch goal with
  | |- _ /\ _ => split; [vm_compute; reflexivity | evaluate]
  | _ => vm_compute; reflexivity
  end.

(** ** Strings over the ASCII range *)

Section StringFacts.

Context `{UnicodeTables}.

Lemma byte_val_range a : 0 <= byte_val a < 256.
Proof.
  unfold byte_val. pose proof (N_ascii_bounded a) as Hb. lia.
Qed.

Lemma byte_of_val a : byte_of (byte_val a) = a.
Proof.
  unfold byte_of. pose proof (byte_val_range a) as Hr.
  rewrite Z.mod_small by exact Hr. unfold byte_val.
  rewrite N2Z.id. apply ascii_N_embedding.
Qed.

Lemma byte_val_of b : 0 <= b < 256 -> byte_val (byte_of b) = b.
Proof.
  intros Hb. unfold byte_of, byte_val. rewrite Z.mod_small by exact Hb.
  rewrite N_ascii_embedding by lia. lia.
Qed.

Lemma of_bytes_bytes s : of_bytes (bytes s) = s.
Proof.
  unfold of_bytes, bytes. rewrite <- list_fmap_compose.
  rewrite (list_fmap_ext (byte_of ∘ byte_val) id (list_ascii_of_string s))
    by (intros _ a _; apply byte_of_val).
  rewrite list_fmap_id. apply string_of_list_ascii_of_string.
Qed.

Lemma bytes_of_bytes l : Forall (fun b => 0 <= b < 256) l -> bytes (of_bytes l) = l.
Proof.
  intros Hl. unfold of_bytes, bytes.
  rewrite list_ascii_of_string_of_list_ascii, <- list_fmap_compose.
  induction Hl as [|b l Hb _ IH]; [reflexivity|].
  cbn. rewrite byte_val_of by exact Hb. f_equal. exact IH.
Qed.

Lemma length_bytes s : length (bytes s) = String.length s.
Proof.
  unfold bytes. rewrite length_fmap.
  induction s as [|a s IH]; [reflexivity | cbn; f_equal; exact IH].
Qed.

Lemma length_of_bytes l : String.length (of_bytes l) = length l.
Proof.
  unfold of_bytes. rewrite <- (length_fmap byte_of l).
  generalize (byte_of <$> l). intros l'.
  induction l' as [|a l' IH]; [reflexivity | cbn; f_equal; exact IH].
Qed.

(** The bytes of an ASCII string, as a list property. *)
Definition ascii_bytes (l : list Z) : Prop := Forall (fun b => 0 <= b < 128) l.

Lemma isASCII_bytes s : isASCII s = true -> ascii_bytes (bytes s).
Proof.
  unfold isASCII, ascii_bytes. rewrite forallb_forall, Forall_forall.
  intros Hs b Hb. apply list_elem_of_In in Hb as Hb'. specialize (Hs b Hb').
  apply Z.ltb_lt in Hs. unfold bytes in Hb.
  apply list_elem_of_fmap in Hb as (a & -> & _).
  pose proof (byte_val_range a). lia.
Qed.

Lemma ascii_bytes_wide l : ascii_bytes l -> Forall (fun b => 0 <= b < 256) l.
Proof.
  intros Hl. eapply Forall_impl; [exact Hl|]. intros b Hb. cbn in Hb. lia.
Qed.

Lemma isASCII_of_bytes l : ascii_bytes l -> isASCII (of_bytes l) = true.
Proof.
  intros Hl. unfold isASCII. rewrite bytes_of_bytes by (apply ascii_bytes_wide, Hl).
  apply forallb_forall. intros b Hb. apply Z.ltb_lt.
  unfold ascii_bytes in Hl. rewrite Forall_forall in Hl.
  apply list_elem_of_In in Hb. specialize (Hl b Hb). lia.
Qed.

(** On ASCII, ranging over a string visits its bytes. *)
Lemma decode_ascii l fuel :
  ascii_bytes l -> (length l <= fuel)%nat -> utf8.decode fuel l = l.
Proof.
  intros Hl. revert fuel.
  induction Hl as [|b l Hb _ IH]; intros fuel Hf.
  - destruct fuel; reflexivity.
  - destruct fuel as [|fuel]; [cbn in Hf; lia|].
    cbn [utf8.decode utf8.DecodeRune].
    replace (b <? utf8.RuneSelf) with true
      by (symmetry; apply Z.ltb_lt; unfold utf8.RuneSelf; lia).
    cbn [drop]. f_equal. apply IH. cbn in Hf. lia.
Qed.

Lemma runes_ascii s : isASCII s = true -> utf8.runes s = bytes s.
Proof.
  intros Hs. unfold utf8.runes. apply decode_ascii.
  - apply isASCII_bytes, Hs.
  - rewrite length_bytes. lia.
Qed.

Lemma write_ascii r : 0 <= r < 128 -> strings.write r = [r].
Proof.
  intros Hr. unfold strings.write.
  destruct (Z.ltb_spec r 0); [lia|].
  unfold utf8.EncodeRune, utf8.between.
  destruct (Z.leb_spec 0 r); [|lia].
  destruct (Z.leb_spec r 127); [reflexivity | lia].
Qed.

Lemma concat_write_ascii l :
  ascii_bytes l -> concat (strings.write <$> l) = l.
Proof.
  induction 1 as [|b l Hb _ IH]; [reflexivity|].
  cbn. rewrite write_ascii by exact Hb. cbn. f_equal. exact IH.
Qed.

Lemma ascii_upper_range r : 0 <= r < 128 -> 0 <= ascii_upper r < 128.
Proof.
  intros Hr. unfold ascii_upper, utf8.between.
  destruct (Z.leb_spec 97 r), (Z.leb_spec r 122); cbn; lia.
Qed.

Lemma ascii_lower_range r : 0 <= r < 128 -> 0 <= ascii_lower r < 128.
Proof.
  intros Hr. unfold ascii_lower, utf8.between.
  destruct (Z.leb_spec 65 r), (Z.leb_spec r 90); cbn; lia.
Qed.

Lemma ascii_lower_upper r : ascii_lower (ascii_upper r) = ascii_lower r.
Proof.
  unfold ascii_lower, ascii_upper, utf8.between.
  destruct (Z.leb_spec 97 r), (Z.leb_spec r 122); cbn;
    repeat match goal with
           | |- context [?a <=? ?b] => destruct (Z.leb_spec a b); cbn
           end; lia.
Qed.

(** [strings.Map] on an ASCII string, for a mapping that stays in ASCII. *)
Lemma Map_ascii (f g : rune -> rune) s :
  isASCII s = true ->
  (forall r, 0 <= r < 128 -> f r = g r) ->
  (forall r, 0 <= r < 128 -> 0 <= g r < 128) ->
  strings.Map f s = of_bytes (g <$> bytes s).
Proof.
  intros Hs Hfg Hg. unfold strings.Map. rewrite runes_ascii by exact Hs.
  f_equal. apply isASCII_bytes in Hs.
  induction Hs as [|b l Hb _ IH]; [reflexivity|].
  cbn. rewrite Hfg, write_ascii by auto. cbn. f_equal. exact IH.
Qed.

Lemma ascii_bytes_fmap (g : rune -> rune) l :
  (forall r, 0 <= r < 128 -> 0 <= g r < 128) ->
  ascii_bytes l -> ascii_bytes (g <$> l).
Proof.
  intros Hg. induction 1 as [|b l Hb _ IH]; constructor; auto.
Qed.

Lemma ToLower_ascii s :
  isASCII s = true -> strings.ToLower s = of_bytes (ascii_lower <$> bytes s).
Proof.
  intros Hs. unfold strings.ToLower.
  apply Map_ascii; [exact Hs | apply unicode_ToLower_ascii | apply ascii_lower_range].
Qed.

Lemma ToTitle_ascii s :
  isASCII s = true -> strings.ToTitle s = of_bytes (ascii_upper <$> bytes s).
Proof.
  intros Hs. unfold strings.ToTitle.
  apply Map_ascii; [exact Hs | apply unicode_ToTitle_ascii | apply ascii_upper_range].
Qed.

(** [strings.Title] only changes the case of ASCII letters. *)
Lemma title_runes_ascii prev l :
  ascii_bytes l ->
  ascii_bytes (strings.title_runes prev l)
  /\ ascii_lower <$> strings.title_runes prev l = ascii_lower <$> l.
Proof.
  intros Hl. revert prev.
  induction Hl as [|b l Hb _ IH]; intros prev; [split; [constructor | reflexivity]|].
  cbn [strings.title_runes]. destruct (IH b) as [IH1 IH2]. split.
  - constructor; [|exact IH1].
    destruct (strings.isSeparator prev); [|exact Hb].
    rewrite unicode_ToTitle_ascii by exact Hb. apply ascii_upper_range, Hb.
  - cbn. f_equal; [|exact IH2].
    destruct (strings.isSeparator prev); [|reflexivity].
    rewrite unicode_ToTitle_ascii by exact Hb. apply ascii_lower_upper.
Qed.

Lemma length_title_runes prev l : length (strings.title_runes prev l) = length l.
Proof.
  revert prev. induction l as [|r l IH]; intros prev; [reflexivity|].
  cbn. f_equal. apply IH.
Qed.

Lemma Title_ascii s :
  isASCII s = true ->
  strings.Title s = of_bytes (strings.title_runes 32 (bytes s)).
Proof.
  intros Hs. unfold strings.Title. rewrite runes_ascii by exact Hs.
  rewrite concat_write_ascii; [reflexivity|].
  apply title_runes_ascii, isASCII_bytes, Hs.
Qed.

(** Lowering after [ToTitle] or [Title] is lowering. *)
Lemma ToLower_ToTitle s :
  isASCII s = true -> strings.ToLower (strings.ToTitle s) = strings.ToLower s.
Proof.
  intros Hs. pose proof (isASCII_bytes s Hs) as Hb.
  rewrite (ToTitle_ascii s Hs).
  assert (ascii_bytes (ascii_upper <$> bytes s)) as Hu
    by (apply ascii_bytes_fmap; [apply ascii_upper_range | exact Hb]).
  rewrite ToLower_ascii by (apply isASCII_of_bytes, Hu).
  rewrite bytes_of_bytes by (apply ascii_bytes_wide, Hu).
  rewrite (ToLower_ascii s Hs). f_equal.
  rewrite <- list_fmap_compose. apply list_fmap_ext.
  intros _ b _. apply ascii_lower_upper.
Qed.

Lemma ToLower_Title s :
  isASCII s = true -> strings.ToLower (strings.Title s) = strings.ToLower s.
Proof.
  intros Hs. pose proof (isASCII_bytes s Hs) as Hb.
  rewrite (Title_ascii s Hs).
  destruct (title_runes_ascii 32 (bytes s) Hb) as [Ht Hl].
  rewrite ToLower_ascii by (apply isASCII_of_bytes, Ht).
  rewrite bytes_of_bytes by (apply ascii_bytes_wide, Ht).
  rewrite (ToLower_ascii s Hs). f_equal. exact Hl.
Qed.

Lemma len_ToTitle s : isASCII s = true -> len (strings.ToTitle s) = len s.
Proof.
  intros Hs. unfold len. rewrite (ToTitle_ascii s Hs).
  rewrite length_of_bytes, length_fmap, length_bytes. reflexivity.
Qed.

Lemma len_Title s : isASCII s = true -> len (strings.Title s) = len s.
Proof.
  intros Hs. unfold len. rewrite (Title_ascii s Hs).
  rewrite length_of_bytes, length_title_runes, length_bytes. reflexivity.
Qed.

Lemma len_zero s : (len s =? 0) = true <-> s = "".
Proof.
  unfold len. destruct s; cbn; split; intros Hs; reflexivity || discriminate.
Qed.

End StringFacts.

(** ** Platform filter *)

(** What the specification calls an active resource group: each filter is
    empty or equal to the running value, compared without regard to case. *)
Definition filter_matches `{UnicodeTables}
    (filterOs filterArch runtimeOs runtimeArch : string) : Prop :=
  (filterOs = "" \/ common.CompareIgnoreCase filterOs runtimeOs = true)
  /\ (filterArch = "" \/ common.CompareIgnoreCase filterArch runtimeArch = true).

Lemma relevant_spec `{UnicodeTables} (Arch Os arch operatingsystem : string) :
  relevant Arch Os arch operatingsystem = true <-> filter_matches Os Arch operatingsystem arch.
Proof.
  unfold relevant, filter_matches.
  rewrite andb_true_iff, !orb_true_iff, !len_zero. tauto.
Qed.

Lemma normalized_Os_ascii `{UnicodeTables} (resource : Resource) (os : string) :
  isASCII (Resource_Os resource) = true ->
  ((len (normalized_Os resource) =? 0) = (len (Resource_Os resource) =? 0))
  /\ common.CompareIgnoreCase (normalized_Os resource) os
     = common.CompareIgnoreCase (Resource_Os resource) os.
Proof.
  intros Hs. unfold normalized_Os, common.CompareIgnoreCase.
  destruct (0 <? len (Resource_Os resource)); [|split; reflexivity].
  rewrite len_ToTitle, ToLower_ToTitle by exact Hs. split; reflexivity.
Qed.

Lemma normalized_Arch_ascii `{UnicodeTables} (resource : Resource) (arch : string) :
  isASCII (Resource_Arch resource) = true ->
  ((len (normalized_Arch resource) =? 0) = (len (Resource_Arch resource) =? 0))
  /\ common.CompareIgnoreCase (normalized_Arch resource) arch
     = common.CompareIgnoreCase (Resource_Arch resource) arch.
Proof.
  intros Hs. unfold normalized_Arch, common.CompareIgnoreCase.
  destruct (0 <? len (Resource_Arch resource)); [|split; reflexivity].
  rewrite len_Title, ToLower_Title by exact Hs. split; reflexivity.
Qed.

(** [C6], amended.  For a resource group whose [os] and [arch] attributes
    are ASCII, the group is processed by [runJnlp] iff each attribute is
    empty or equals the running value without regard to case, and the
    [Title]/[ToTitle] normalization leaves the test unchanged. *)
Theorem platform_filter_ascii `{UnicodeTables}
    (resource : Resource) (arch operatingsystem : string) :
  isASCII (Resource_Os resource) = true ->
  isASCII (Resource_Arch resource) = true ->
  (group_active resource arch operatingsystem = true <->
   filter_matches (Resource_Os resource) (Resource_Arch resource) operatingsystem arch)
  /\ group_active resource arch operatingsystem
     = relevant (Resource_Arch resource) (Resource_Os resource) arch operatingsystem.
Proof.
  intros Hos Harch.
  assert (group_active resource arch operatingsystem
          = relevant (Resource_Arch resource) (Resource_Os resource) arch operatingsystem)
    as Heq.
  { unfold group_active, relevant.
    destruct (normalized_Os_ascii resource operatingsystem Hos) as [-> ->].
    destruct (normalized_Arch_ascii resource arch Harch) as [-> ->].
    reflexivity. }
  split; [|exact Heq].
  rewrite Heq. apply relevant_spec.
Qed.

(** A group for Linux on amd64, written in mixed case, on a Linux host
    started with [-arch AMD64]. *)
Lemma platform_filter_ascii_witness :
  let resource := Fixture.group "Linux" "amd64" [] [] [] [] in
  (group_active resource "AMD64" "LINUX" = true <->
   filter_matches "Linux" "amd64" "LINUX" "AMD64")
  /\ group_active resource "AMD64" "LINUX" = relevant "amd64" "Linux" "AMD64" "LINUX".
Proof.
  apply (platform_filter_ascii (Fixture.group "Linux" "amd64" [] [] [] []) "AMD64" "LINUX");
    reflexivity.
Defined.

(** The [os] attribute [l?nux] spelled with a dotless i (U+0131, the bytes
    C4 B1). *)
Definition dotless_linux : string :=
  String "l" (String "196" (String "177" "nux")).

(** [C6] fails beyond ASCII: [strings.ToTitle] turns the dotless i into
    [I], so the group is processed on Linux although its attribute does
    not equal [LINUX] without regard to case; the normalization changes
    the outcome of the test. *)
Lemma platform_filter_dotless_i :
  ~ (forall (resource : Resource) (arch operatingsystem : string),
       (group_active resource arch operatingsystem = true <->
        filter_matches (Resource_Os resource) (Resource_Arch resource) operatingsystem arch)
       /\ group_active resource arch operatingsystem
          = relevant (Resource_Arch resource) (Resource_Os resource) arch operatingsystem).
Proof.
  intros Hall.
  destruct (Hall (Fixture.group dotless_linux "" [] [] [] []) "amd64" "LINUX") as [_ Heq].
  vm_compute in Heq. discriminate Heq.
Qed.

(** ** Reasoning about function bodies *)

(** [triple P m Q Qr Qh]: started in a state satisfying [P], the statement
    [m] completes in a state satisfying [Q], returns [r] in a state
    satisfying [Qr r], or stops the process with [h] in a state satisfying
    [Qh h]. *)
Definition triple {R A} (P : State -> Prop) (m : Body R A) (Q : State -> Prop)
    (Qr : R -> State -> Prop) (Qh : HaltKind -> State -> Prop) : Prop :=
  forall s, P s ->
    match m s with
    | Val _ s' => Q s'
    | Return r s' => Qr r s'
    | Halt h s' => Qh h s'
    end.

(** The state in which a body ends, however it ends. *)
Definition outcome_state {R A} (r : Res R A) : State :=
  match r with
  | Val _ s => s
  | Return _ s => s
  | Halt _ s => s
  end.

(** What stops the process, when the body does. *)
Definition halted {R A} (r : Res R A) : option HaltKind :=
  match r with
  | Halt h _ => Some h
  | _ => None
  end.

(** The assertion [I] holds before and after [m]. *)
Abbreviation inv I Qr Qh m := (triple I m I Qr Qh).

Section Rules.

Context {R : Type} (P Q : State -> Prop) (Qr : R -> State -> Prop)
  (Qh : HaltKind -> State -> Prop).

Lemma triple_ret {A} (a : A) : (forall s, P s -> Q s) -> triple P (ret a) Q Qr Qh.
Proof. intros HPQ s Hs. apply HPQ, Hs. Qed.

Lemma triple_get : (forall s, P s -> Q s) -> triple P get Q Qr Qh.
Proof. intros HPQ s Hs. apply HPQ, Hs. Qed.

Lemma triple_modify (f : State -> State) :
  (forall s, P s -> Q (f s)) -> triple P (modify f) Q Qr Qh.
Proof. intros Hf s Hs. apply Hf, Hs. Qed.

Lemma triple_return {A} (r : R) :
  (forall s, P s -> Qr r s) -> triple P (@return_ R A r) Q Qr Qh.
Proof. intros Hr s Hs. apply Hr, Hs. Qed.

Lemma triple_os_Exit {A} (code : Z) :
  (forall s, P s -> Qh (OsExit code) s) -> triple P (@os_Exit R A code) Q Qr Qh.
Proof. intros Hr s Hs. apply Hr, Hs. Qed.

Lemma triple_panic {A} (msg : string) :
  (forall s, P s -> Qh (Panic msg) s) -> triple P (@panic R A msg) Q Qr Qh.
Proof. intros Hr s Hs. apply Hr, Hs. Qed.

Lemma triple_issue (env : Env) (op : Op) :
  (forall s, P s -> Q (set_trace (trace s ++ [op])%list s)) ->
  triple P (issue env op) Q Qr Qh.
Proof. intros Hf s Hs. apply Hf, Hs. Qed.

Lemma triple_when (cond : bool) (body : Body R unit) :
  (cond = true -> triple P body Q Qr Qh) ->
  (cond = false -> forall s, P s -> Q s) ->
  triple P (when cond body) Q Qr Qh.
Proof.
  intros Ht Hf. destruct cond; [apply Ht; reflexivity|].
  apply triple_ret, Hf. reflexivity.
Qed.

Lemma triple_or_else {A} (r : error + A) (handler : error -> Body R A) :
  (forall err, r = inl err -> triple P (handler err) Q Qr Qh) ->
  (forall a, r = inr a -> forall s, P s -> Q s) ->
  triple P (or_else r handler) Q Qr Qh.
Proof.
  intros Hl Hr. destruct r as [err|a]; [apply (Hl err); reflexivity|].
  apply triple_ret, (Hr a). reflexivity.
Qed.

Lemma triple_call {R'} (f : Body R' Empty_set) :
  triple P f Q (fun _ => Q) Qh -> triple P (@call R' R f) Q Qr Qh.
Proof.
  intros Hf s Hs. unfold call. specialize (Hf s Hs).
  destruct (f s) as [[]|r s'|h s']; exact Hf.
Qed.

Lemma triple_call_proc (f : Body unit unit) :
  triple P f Q (fun _ => Q) Qh -> triple P (@call_proc R f) Q Qr Qh.
Proof.
  intros Hf s Hs. unfold call_proc. specialize (Hf s Hs).
  destruct (f s) as [a s'|r s'|h s']; exact Hf.
Qed.

(** Sequencing through an intermediate assertion. *)
Lemma triple_bind {A B} (Q1 : State -> Prop) (m : Body R A) (k : A -> Body R B) :
  triple P m Q1 Qr Qh -> (forall a, triple Q1 (k a) Q Qr Qh) ->
  triple P (bind m k) Q Qr Qh.
Proof.
  intros Hm Hk s Hs. unfold bind. specialize (Hm s Hs).
  destruct (m s) as [a s'|r s'|h s']; [apply Hk, Hm | exact Hm | exact Hm].
Qed.

(** Sequencing after a statement that keeps the precondition. *)
Lemma triple_seq {A B} (m : Body R A) (k : A -> Body R B) :
  triple P m P Qr Qh -> (forall a, triple P (k a) Q Qr Qh) ->
  triple P (bind m k) Q Qr Qh.
Proof. apply triple_bind. Qed.

(** Rules that follow the value of a statement into its continuation. *)
Lemma triple_bind_ret {A B} (a : A) (k : A -> Body R B) :
  triple P (k a) Q Qr Qh -> triple P (bind (ret a) k) Q Qr Qh.
Proof. intros Hk s Hs. apply Hk, Hs. Qed.

Lemma triple_bind_assoc {A B C} (m : Body R A) (k1 : A -> Body R B) (k2 : B -> Body R C) :
  triple P (bind m (fun x => bind (k1 x) k2)) Q Qr Qh ->
  triple P (bind (bind m k1) k2) Q Qr Qh.
Proof.
  intros Hm s Hs. specialize (Hm s Hs). unfold bind in *.
  destruct (m s) as [a s'|r s'|h s']; exact Hm.
Qed.

Lemma triple_bind_return {A B} (r : R) (k : A -> Body R B) :
  (forall s, P s -> Qr r s) -> triple P (bind (return_ r) k) Q Qr Qh.
Proof. intros Hr s Hs. apply Hr, Hs. Qed.

Lemma triple_bind_os_Exit {A B} (code : Z) (k : A -> Body R B) :
  (forall s, P s -> Qh (OsExit code) s) -> triple P (bind (os_Exit code) k) Q Qr Qh.
Proof. intros Hr s Hs. apply Hr, Hs. Qed.

Lemma triple_bind_panic {A B} (msg : string) (k : A -> Body R B) :
  (forall s, P s -> Qh (Panic msg) s) -> triple P (bind (panic msg) k) Q Qr Qh.
Proof. intros Hr s Hs. apply Hr, Hs. Qed.

Lemma triple_bind_when {B} (cond : bool) (body : Body R unit) (k : unit -> Body R B) :
  (cond = true -> triple P (bind body k) Q Qr Qh) ->
  (cond = false -> triple P (k tt) Q Qr Qh) ->
  triple P (bind (when cond body) k) Q Qr Qh.
Proof. intros Ht Hf. destruct cond; [apply Ht | apply Hf]; reflexivity. Qed.

Lemma triple_bind_or_else {A B} (r : error + A) (handler : error -> Body R A)
    (k : A -> Body R B) :
  (forall err, r = inl err -> triple P (bind (handler err) k) Q Qr Qh) ->
  (forall a, r = inr a -> triple P (k a) Q Qr Qh) ->
  triple P (bind (or_else r handler) k) Q Qr Qh.
Proof. intros Hl Hr. destruct r as [err|a]; [apply Hl | apply Hr]; reflexivity. Qed.

(** [channelError.Add(err); return r] *)
Lemma triple_fail {A} (err : error) (r : R) :
  (forall s, P s -> Qr r (set_channelError (channelError s ++ [err])%list s)) ->
  triple P (bind (channelError_Add err) (fun _ => @return_ R A r)) Q Qr Qh.
Proof. intros Hr s Hs. apply Hr, Hs. Qed.

Lemma triple_fail_bind {A B} (err : error) (r : R) (k : A -> Body R B) :
  (forall s, P s -> Qr r (set_channelError (channelError s ++ [err])%list s)) ->
  triple P (bind (channelError_Add err) (fun _ => bind (return_ r) k)) Q Qr Qh.
Proof. intros Hr s Hs. apply Hr, Hs. Qed.

Lemma triple_conseq {A} (P' Q' : State -> Prop) (Qr' : R -> State -> Prop)
    (Qh' : HaltKind -> State -> Prop) (m : Body R A) :
  triple P' m Q' Qr' Qh' ->
  (forall s, P s -> P' s) -> (forall s, Q' s -> Q s) ->
  (forall r s, Qr' r s -> Qr r s) -> (forall h s, Qh' h s -> Qh h s) ->
  triple P m Q Qr Qh.
Proof.
  intros Hm HP HQ Hr Hh s Hs. specialize (Hm s (HP s Hs)).
  destruct (m s) as [a s'|r s'|h s']; auto.
Qed.

End Rules.

(** A loop keeps its invariant. *)
Lemma triple_for_range {R A} (I : State -> Prop) (Qr : R -> State -> Prop)
    (Qh : HaltKind -> State -> Prop) (l : list A) (body : A -> Body R unit) :
  (forall x, x ∈ l -> inv I Qr Qh (body x)) -> inv I Qr Qh (for_range l body).
Proof.
  induction l as [|x l IH]; intros Hb; [apply triple_ret; auto|].
  cbn [for_range]. apply triple_seq.
  - apply Hb. left.
  - intros _. apply IH. intros y Hy. apply Hb. right. exact Hy.
Qed.

(** A deferred call runs after the body, whether it completes or returns;
    here for bodies that do not stop the process. *)
Lemma triple_defer (P Q1 Q : State -> Prop) (Qh : HaltKind -> State -> Prop)
    (d body : Body unit unit) :
  triple P body Q1 (fun _ => Q1) (fun _ _ => False) ->
  triple Q1 d Q (fun _ => Q) Qh ->
  triple P (defer d body) Q (fun _ => Q) Qh.
Proof.
  intros Hb Hd s Hs. unfold defer. specialize (Hb s Hs).
  destruct (body s) as [a s'|r s'|h s']; [| |destruct Hb].
  - apply Hd, Hb.
  - specialize (Hd s' Hb). destruct (d s') as [a s''|r' s''|h' s'']; exact Hd.
Qed.

(** One step through the structure of a body.  What remains are the
    conditions on the state updates. *)
Ltac triple_step :=
  lazymatch goal with
  | |- triple _ (bind (channelError_Add _) (fun _ => return_ _)) _ _ _ =>
    apply triple_fail
  | |- triple _ (bind (channelError_Add _) (fun _ => bind (return_ _) _)) _ _ _ =>
    apply triple_fail_bind
  | |- triple _ (bind (bind _ _) _) _ _ _ => apply triple_bind_assoc; cbv beta
  | |- triple _ (bind (ret _) _) _ _ _ => apply triple_bind_ret; cbv beta
  | |- triple _ (bind (return_ _) _) _ _ _ => apply triple_bind_return
  | |- triple _ (bind (os_Exit _) _) _ _ _ => apply triple_bind_os_Exit
  | |- triple _ (bind (panic _) _) _ _ _ => apply triple_bind_panic
  | |- triple _ (bind (when _ _) _) _ _ _ =>
    apply triple_bind_when; (let E := fresh "Hc" in intros E; try discriminate E)
  | |- triple _ (bind (or_else _ _) _) _ _ _ =>
    apply triple_bind_or_else;
    (let E := fresh "Hr" in intros ? E; first [discriminate E | injection E as <- | idtac])
  | |- triple _ (bind (match ?x with _ => _ end) _) _ _ _ => destruct x eqn:?
  | |- triple _ (bind _ _) _ _ _ => apply triple_seq; [|intros ?]
  | |- triple _ (ret _) _ _ _ => apply triple_ret
  | |- triple _ get _ _ _ => apply triple_get
  | |- triple _ (modify _) _ _ _ => apply triple_modify
  | |- triple _ (return_ _) _ _ _ => apply triple_return
  | |- triple _ (os_Exit _) _ _ _ => apply triple_os_Exit
  | |- triple _ (panic _) _ _ _ => apply triple_panic
  | |- triple _ (when _ _) _ _ _ =>
    apply triple_when; (let E := fresh "Hc" in intros E; try discriminate E)
  | |- triple _ (or_else _ _) _ _ _ =>
    apply triple_or_else; (let E := fresh "Hr" in intros ? E; try discriminate E)
  | |- triple _ (for_range _ _) _ _ _ => apply triple_for_range; intros ? ?
  | |- triple _ (call _) _ _ _ => apply triple_call
  | |- triple _ (call_proc _) _ _ _ => apply triple_call_proc
  | |- triple _ (issue _ _) _ _ _ => apply triple_issue
  | |- triple _ (match ?x with _ => _ end) _ _ _ => destruct x eqn:?
  end.

(** The operations of the program that are themselves bodies. *)
Ltac unfold_ops :=
  unfold common_FileExists, common_FileSize, os_MkdirAll, common_FileStore,
    client_Head, client_Get, ioutil_ReadAll, zip_OpenReader, zip_Open,
    cmd_Run, cmd_Start, wg_Done, wg_Add, channelError_Add, go.

(** ** What each function touches *)

Section Footprint.

Context `{UnicodeTables} (env : Env).

(** [cmd.Start()], which only [run] issues. *)
Definition is_launch (op : Op) : Prop :=
  match op with
  | OpStart _ _ => True
  | _ => False
  end.

(** An assertion that survives the issue of an external operation other
    than the launch, a change of the file system or a new entry of the
    error aggregator. *)
Definition stable_trace (I : State -> Prop) : Prop :=
  forall s op, I s -> ~ is_launch op -> I (set_trace (trace s ++ [op])%list s).
Definition stable_fs (I : State -> Prop) : Prop :=
  forall s m, I s -> I (set_fs m s).
Definition stable_errors (I : State -> Prop) : Prop :=
  forall s err, I s -> I (set_channelError (channelError s ++ [err])%list s).

Variable I : State -> Prop.
Hypothesis I_trace : stable_trace I.
Hypothesis I_fs : stable_fs I.

Ltac leaf :=
  first [ intros ? ?; apply I_trace; [assumption | exact id]
        | intros ? ?; solve [eauto]
        | intros ? ? ?; solve [eauto] ].
Ltac walk := unfold_ops; repeat (first [triple_step | leaf]).

(** [download], [runUnzip] and [runSelfextract] change nothing but the
    file system and the trace, and never stop the process. *)
Lemma download_footprint href filename :
  inv I (fun _ => I) (fun _ _ => False) (download env href filename).
Proof. unfold download. walk. Qed.

Lemma runUnzip_footprint filename path :
  inv I (fun _ => I) (fun _ _ => False) (runUnzip env filename path).
Proof. unfold runUnzip. walk. Qed.

Lemma runSelfextract_footprint filename :
  inv I (fun _ => I) (fun _ _ => False) (runSelfextract env filename).
Proof. unfold runSelfextract. walk. Qed.

(** [wg.Add(delta)] *)
Lemma triple_wg_Add {R} (Q : State -> Prop) (Qr : R -> State -> Prop)
    (Qh : HaltKind -> State -> Prop) delta :
  (forall s, I s -> wg s + delta < 0 -> Qh (Panic "sync: negative WaitGroup counter") s) ->
  (forall s, I s -> 0 <= wg s + delta -> Q (set_wg (wg s + delta) s)) ->
  triple I (@wg_Add R delta) Q Qr Qh.
Proof.
  intros Hneg Hpos s Hs. unfold wg_Add, bind, get, panic, modify.
  destruct (Z.ltb_spec (wg s + delta) 0); [apply Hneg | apply Hpos]; assumption.
Qed.

Hypothesis I_errors : stable_errors I.

(** [runResource] changes the file system, the trace and the error
    aggregator, and ends with [wg.Done()]. *)
Lemma runResource_footprint (Q : State -> Prop) (Qh : HaltKind -> State -> Prop)
    url path doUnzip doExtract :
  (forall s, I s -> wg s - 1 < 0 -> Qh (Panic "sync: negative WaitGroup counter") s) ->
  (forall s, I s -> 0 <= wg s - 1 -> Q (set_wg (wg s - 1) s)) ->
  triple I (runResource env url path doUnzip doExtract) Q (fun _ => Q) Qh.
Proof.
  intros Hneg Hpos. unfold runResource. apply triple_defer with (Q1 := I).
  - repeat (first [ apply triple_call; first [ apply download_footprint
                                             | apply runUnzip_footprint
                                             | apply runSelfextract_footprint ]
                  | unfold channelError_Add; triple_step
                  | leaf ]).
  - apply triple_wg_Add; assumption.
Qed.

End Footprint.

(** ** Invariants of the resolution engine *)

(** A goroutine that [runJnlp] starts: a resource task, or a nested call
    of [runJnlp] without the header flag. *)
Definition nested (t : Task) : Prop :=
  match t with
  | GoResource _ _ _ _ => True
  | GoJnlp _ doHeader => doHeader = false
  end.

(** An assertion that no update made by a goroutine invalidates: external
    operations, the file system, the error aggregator, the two path
    accumulators, the wait group counter and new goroutines. *)
Record frame (I : State -> Prop) : Prop := {
  frame_trace : stable_trace I;
  frame_fs : stable_fs I;
  frame_errors : stable_errors I;
  frame_jars : forall s v, I s -> I (set_jars v s);
  frame_nativelibs : forall s v, I s -> I (set_nativelibs v s);
  frame_wg_Add : forall s, I s -> 0 <= wg s + 1 -> I (set_wg (wg s + 1) s);
  frame_wg_Done : forall s, I s -> 0 <= wg s - 1 -> I (set_wg (wg s - 1) s);
  frame_go : forall s t, I s -> nested t -> I (set_goroutines (goroutines s ++ [t])%list s)
}.

(** An assertion that the header updates of the root call do not
    invalidate either. *)
Record frame_header (I : State -> Prop) : Prop := {
  frame_maxheapsize : forall s v, I s -> I (set_maxheapsize v s);
  frame_jrepath : forall s v, I s -> I (set_jrepath v s);
  frame_operatingsystem : forall s v, I s -> I (set_operatingsystem v s)
}.

(** How a goroutine can stop the process: [os.Exit(1)] and the two
    run-time panics of [runJnlp] and [wg.Done()]. *)
Definition task_halt (h : HaltKind) : Prop :=
  h = OsExit 1
  \/ h = Panic "slice bounds out of range"
  \/ h = Panic "sync: negative WaitGroup counter".

Lemma frame_and (I J : State -> Prop) :
  frame I -> frame J -> frame (fun s => I s /\ J s).
Proof.
  intros [] []. split; unfold stable_trace, stable_fs, stable_errors in *;
    intros; split; intuition auto.
Qed.

Lemma frame_header_and (I J : State -> Prop) :
  frame_header I -> frame_header J -> frame_header (fun s => I s /\ J s).
Proof. intros [] []. split; intros; split; intuition auto. Qed.

Lemma frame_True : frame (fun _ => True) /\ frame_header (fun _ => True).
Proof. split; split; unfold stable_trace, stable_fs, stable_errors; auto. Qed.

Section Keeps.

Context `{UnicodeTables} (env : Env).

Variable I : State -> Prop.
Variable doHeader : bool.
Hypothesis I_frame : frame I.
Hypothesis I_header : doHeader = true -> frame_header I.

Ltac leaf :=
  intros;
  first [ apply (frame_trace _ I_frame); [|exact id]
        | split; [|unfold task_halt; solve [auto]]
        | apply (frame_fs _ I_frame)
        | apply (frame_errors _ I_frame)
        | apply (frame_jars _ I_frame)
        | apply (frame_nativelibs _ I_frame)
        | apply (frame_go _ I_frame); [|exact Logic.I || reflexivity]
        | apply (frame_maxheapsize _ (I_header ltac:(assumption)))
        | apply (frame_jrepath _ (I_header ltac:(assumption)))
        | idtac ];
  solve [eauto].

(** Whatever [runJnlp] does, and however it ends, a framed assertion
    still holds; the root call needs it framed for the header too. *)
Lemma runJnlp_keeps address :
  inv I (fun _ => I) (fun h s => I s /\ task_halt h) (runJnlp env address doHeader).
Proof.
  unfold runJnlp.
  repeat (first
    [ apply triple_wg_Add; [leaf | apply (frame_wg_Add _ I_frame)]
    | apply triple_call_proc, runResource_footprint;
      [apply I_frame .. | leaf | apply (frame_wg_Done _ I_frame)]
    | unfold client_Get, ioutil_ReadAll, go, channelError_Add; triple_step
    | leaf ]).
Qed.

Lemma runResource_keeps url path doUnzip doExtract :
  inv I (fun _ => I) (fun h s => I s /\ task_halt h)
    (runResource env url path doUnzip doExtract).
Proof.
  apply runResource_footprint;
    [apply I_frame | apply I_frame | apply I_frame | | apply (frame_wg_Done _ I_frame)].
  intros s Hs _. split; [exact Hs | unfold task_halt; auto].
Qed.

End Keeps.

Section Tasks.

Context `{UnicodeTables} (env : Env).

Definition state_of (cfg : Config) : State :=
  match cfg with
  | Running _ s => s
  | Stopped _ s => s
  end.

(** The goroutines of the pool were all started by [runJnlp]. *)
Definition pool_nested (s : State) : Prop := Forall nested (goroutines s).

Lemma frame_pool_nested : frame pool_nested.
Proof.
  split; unfold stable_trace, stable_fs, stable_errors, pool_nested;
    cbn; intros; auto.
  apply Forall_app. split; [assumption | constructor; [assumption | constructor]].
Qed.

Lemma frame_header_pool_nested : frame_header pool_nested.
Proof. split; unfold pool_nested; cbn; auto. Qed.

Lemma pool_nested_lookup s i t :
  pool_nested s -> goroutines s !! i = Some t -> nested t.
Proof.
  unfold pool_nested. rewrite Forall_forall. intros Hp Hi.
  apply Hp. apply list_elem_of_lookup. eauto.
Qed.

(** The state in which the goroutine at position [i] starts. *)
Definition taken (i : nat) (s : State) : State :=
  set_goroutines (delete i (goroutines s)) s.

Lemma pool_nested_taken i s : pool_nested s -> pool_nested (taken i s).
Proof. unfold pool_nested. cbn. apply Forall_delete. Qed.

Variable I : State -> Prop.
Hypothesis I_frame : frame I.

Lemma run_task_keeps t :
  nested t -> inv I (fun _ => I) (fun h s => I s /\ task_halt h) (run_task env t).
Proof.
  intros Ht. destruct t as [url path doUnzip doExtract|address dh]; cbn [run_task].
  - apply triple_call_proc, runResource_keeps, I_frame.
  - cbn in Ht. subst dh. apply triple_seq; [|intros ?; apply triple_ret; auto].
    apply triple_call, runJnlp_keeps; [exact I_frame | discriminate].
Qed.

(** What [run] does after the barrier, for an assertion that the launch
    does not invalidate: it returns [err], for which [D] holds, or
    stops the process by [HL]. *)
Definition launch_ok (HL : HaltKind -> Prop) (D : option error -> State -> Prop) : Prop :=
  forall jnlp s, I s ->
    match run_launch env jnlp s with
    | Val _ _ => False
    | Return err s' => I s' /\ D err s'
    | Halt h s' => I s' /\ HL h
    end.

Lemma run_launch_keeps :
  (forall s name args, I s -> I (set_trace (trace s ++ [OpStart name args])%list s)) ->
  launch_ok (fun h => h = Panic nil_dereference) (fun _ _ => True).
Proof.
  intros Hstart jnlp s Hs. unfold run_launch, bind, get, when.
  destruct (channelError_Exists s); [split; [exact Hs | exact Logic.I]|].
  cbn. destruct jnlp as [jnlp|]; cbn; [split; [apply Hstart, Hs | exact Logic.I] | auto].
Qed.

Lemma run_resolve_keeps :
  frame_header I ->
  inv I (fun _ => I) (fun h s => I s /\ task_halt h) (run_resolve env).
Proof.
  intros Hh. unfold run_resolve.
  repeat (first
    [ apply triple_call, runJnlp_keeps; [exact I_frame | intros _; exact Hh]
    | unfold_ops; triple_step
    | intros ? ?;
      first [ assumption
            | apply (frame_trace _ I_frame); [assumption | exact id]
            | split; [assumption | unfold task_halt; solve [auto]]
            | apply (frame_fs _ I_frame); assumption
            | apply (frame_operatingsystem _ Hh); assumption
            | apply (frame_jrepath _ Hh); assumption ] ]).
Qed.

End Tasks.

(** ** Invariants of executions *)

Section Executions.

Context `{UnicodeTables} (env : Env).

(** [I] is kept by every goroutine of the pool, which can stop the
    process by [HT], and by the launch, which can stop it by [HL]. *)
Variable I : State -> Prop.
Variable HT HL : HaltKind -> Prop.
Variable D : option error -> State -> Prop.

Definition task_ok : Prop :=
  forall s i t, I s -> goroutines s !! i = Some t ->
    match run_task env t (taken i s) with
    | Val _ s' => I s'
    | Return _ s' => I s'
    | Halt h s' => I s' /\ HT h
    end.

Hypothesis I_task : task_ok.
Hypothesis I_launch : launch_ok env I HL D.

Definition cfg_ok (cfg : Config) : Prop :=
  I (state_of cfg)
  /\ match cfg with
     | Running (MainDone err) s => D err s
     | Running _ _ => True
     | Stopped h _ => HT h \/ HL h
     end.

(** Once the root call has returned, every scheduling decision keeps
    [I]; the main goroutine waits or is done. *)
Lemma step_keeps c jnlp s cfg' :
  I s ->
  step env c (Running (MainWait jnlp) s) = Some cfg' ->
  cfg_ok cfg'
  /\ (forall pc s', cfg' = Running pc s' -> pc = MainWait jnlp \/ exists err, pc = MainDone err).
Proof.
  intros HI Hstep.
  destruct c as [|i]; cbn [step] in Hstep.
  - destruct (wg s =? 0); [|discriminate].
    injection Hstep as <-.
    pose proof (I_launch jnlp s HI) as Hl. unfold cfg_ok.
    destruct (run_launch env jnlp s) as [[]|err s'|h s']; cbn in *.
    + split; [intuition auto|]. intros pc s'' [= <- <-]. right. eauto.
    + split; [intuition auto|]. intros pc s'' Heq. discriminate Heq.
  - destruct (goroutines s !! i) as [t|] eqn:Hi; [|discriminate].
    injection Hstep as <-.
    pose proof (I_task s i t HI Hi) as Hl. unfold cfg_ok, taken in *.
    destruct (run_task env t _) as [a s'|r s'|h s']; cbn in *.
    + split; [intuition auto|]. intros pc s'' [= <- <-]. left. reflexivity.
    + split; [intuition auto|]. intros pc s'' [= <- <-]. left. reflexivity.
    + split; [intuition auto|]. intros pc s'' Heq. discriminate Heq.
Qed.

Lemma exec_stuck sched cfg cfg' :
  (forall c, step env c cfg = None) -> exec env sched cfg = Some cfg' -> cfg' = cfg.
Proof.
  intros Hnone. destruct sched as [|c sched]; cbn.
  - intros [= <-]. reflexivity.
  - rewrite Hnone. discriminate.
Qed.

Lemma exec_keeps sched jnlp s cfg' :
  I s ->
  exec env sched (Running (MainWait jnlp) s) = Some cfg' ->
  cfg_ok cfg'
  /\ (forall pc s', cfg' = Running pc s' -> pc = MainWait jnlp \/ exists err, pc = MainDone err).
Proof.
  revert s. induction sched as [|c sched IH]; intros s HI Hexec.
  - injection Hexec as <-. split; [split; [assumption | exact Logic.I]|].
    intros pc s' [= <- <-]. left. reflexivity.
  - cbn [exec] in Hexec.
    destruct (step env c (Running (MainWait jnlp) s)) as [cfg1|] eqn:Hstep; [|discriminate].
    destruct (step_keeps _ _ _ _ HI Hstep) as [Hok Hpc].
    destruct cfg1 as [pc s1|h s1].
    + destruct (Hpc pc s1 eq_refl) as [->|[err ->]].
      * apply (IH s1); [apply Hok | exact Hexec].
      * apply exec_stuck in Hexec; [subst; split; [exact Hok | exact Hpc]|].
        intros []; reflexivity.
    + apply exec_stuck in Hexec; [subst; split; [exact Hok | exact Hpc]|].
      intros []; reflexivity.
Qed.

(** The same from the start of [main], when [run] up to the barrier
    establishes [I]. *)
Definition resolve_ok : Prop :=
  forall disk,
    match run_resolve env (state_of (init env disk)) with
    | Val _ s' => I s'
    | Return err s' => I s' /\ D err s'
    | Halt h s' => I s' /\ HT h
    end.

Hypothesis I_resolve : resolve_ok.

Lemma exec_init_keeps sched disk cfg' :
  exec env sched (init env disk) = Some cfg' ->
  cfg' = init env disk \/ cfg_ok cfg'.
Proof.
  intros Hexec.
  destruct sched as [|c sched]; [injection Hexec as <-; left; reflexivity|].
  right. pose proof (I_resolve disk) as Hr.
  unfold init in *. cbn [exec] in Hexec. destruct c as [|i]; [|discriminate].
  cbn [step state_of] in Hexec, Hr.
  match type of Hexec with context [run_resolve env ?s0] =>
    destruct (run_resolve env s0) as [jnlp s1|err s1|h s1]
  end.
  - apply (exec_keeps sched jnlp s1); assumption.
  - apply exec_stuck in Hexec; [subst; unfold cfg_ok; cbn; intuition auto|].
    intros []; reflexivity.
  - apply exec_stuck in Hexec; [subst; unfold cfg_ok; cbn; intuition auto|].
    intros []; reflexivity.
Qed.

End Executions.

(** A framed assertion that also survives the removal of a goroutine from
    the pool is kept by every task and by [run] up to the barrier. *)
Section Framed.

Context `{UnicodeTables} (env : Env).

Variable I : State -> Prop.
Hypothesis I_frame : frame I.
Hypothesis I_taken : forall s i, I s -> I (taken i s).

Lemma framed_task_ok : task_ok env (fun s => I s /\ pool_nested s) task_halt.
Proof.
  intros s i t [HI Hpool] Hi.
  pose proof (frame_and _ _ I_frame frame_pool_nested) as Hframe.
  pose proof (run_task_keeps env _ Hframe t (pool_nested_lookup _ _ _ Hpool Hi)
                (taken i s) (conj (I_taken _ _ HI) (pool_nested_taken _ _ Hpool))) as Hk.
  destruct (run_task env t (taken i s)); exact Hk.
Qed.

Lemma framed_resolve_ok :
  frame_header I -> (forall disk, I (state_of (init env disk))) ->
  resolve_ok env (fun s => I s /\ pool_nested s) task_halt (fun _ _ => True).
Proof.
  intros Hh Hinit disk.
  pose proof (frame_and _ _ I_frame frame_pool_nested) as Hframe.
  pose proof (frame_header_and _ _ Hh frame_header_pool_nested) as Hheader.
  assert (pool_nested (state_of (init env disk))) as Hpool by constructor.
  pose proof (run_resolve_keeps env _ Hframe Hheader _ (conj (Hinit disk) Hpool)) as Hk.
  destruct (run_resolve env (state_of (init env disk))); [exact Hk | | exact Hk].
  split; [exact Hk | exact Logic.I].
Qed.

End Framed.

(** Every goroutine of a reachable pool was started by [runJnlp]. *)
Lemma reachable_pool_nested `{UnicodeTables} (env : Env) sched disk cfg :
  exec env sched (init env disk) = Some cfg -> pool_nested (state_of cfg).
Proof.
  intros Hexec. destruct frame_True as [HT HTh].
  assert (launch_ok env (fun s => True /\ pool_nested s) (fun _ => True) (fun _ _ => True))
    as Hlaunch.
  { intros jnlp s [_ Hp]. unfold run_launch, bind, get, when, cmd_Start, issue.
    destruct (channelError_Exists s); [cbn; auto|].
    cbn. destruct jnlp; cbn; auto. }
  pose proof (framed_task_ok env _ HT (fun _ _ _ => Logic.I)) as Htask.
  pose proof (framed_resolve_ok env _ HT HTh (fun _ => Logic.I)) as Hres.
  destruct (exec_init_keeps env _ _ _ _ Htask Hlaunch Hres sched disk cfg Hexec)
    as [->|[[_ Hp] _]]; [constructor | exact Hp].
Qed.

(** After the root call the main goroutine waits with the descriptor it
    got, until it is done. *)
Lemma exec_pc `{UnicodeTables} (env : Env) sched jnlp s pc s' :
  exec env sched (Running (MainWait jnlp) s) = Some (Running pc s') ->
  pc = MainWait jnlp \/ exists err, pc = MainDone err.
Proof.
  intros Hexec.
  assert (task_ok env (fun _ => True) (fun _ => True)) as Htask.
  { intros s0 i t _ _. destruct (run_task env t (taken i s0)); auto. }
  assert (launch_ok env (fun _ => True) (fun _ => True) (fun _ _ => True)) as Hlaunch.
  { intros j s0 _. unfold run_launch, bind, get, when, cmd_Start, issue.
    destruct (channelError_Exists s0); [cbn; auto|].
    cbn. destruct j; cbn; auto. }
  destruct (exec_keeps env _ _ _ _ Htask Hlaunch sched jnlp s _ Logic.I Hexec) as [_ Hpc].
  apply (Hpc pc s'). reflexivity.
Qed.

(** ** Sanity checks of the library model *)

Example filepath_Join_ex1 : filepath.Join ["/c"; "h"; "app"; "x.jar"] = "/c/h/app/x.jar".
Proof. reflexivity. Qed.
Example filepath_Join_ex2 : filepath.Join ["/c/h"; ""; "j.exe"] = "/c/h/j.exe".
Proof. reflexivity. Qed.
Example filepath_Join_ex3 : filepath.Join [""; "a/../../b/./c/"] = "../b/c".
Proof. reflexivity. Qed.
Example filepath_Dir_ex1 : filepath.Dir "/c/h/app/x.jar" = "/c/h/app".
Proof. reflexivity. Qed.
Example filepath_Dir_ex2 : filepath.Dir "x.jar" = ".".
Proof. reflexivity. Qed.
Example filepath_Clean_ex : filepath.Clean "/../a//b/" = "/a/b" /\ filepath.Clean "" = "." /\ filepath.Clean "/" = "/".
Proof. repeat split; reflexivity. Qed.
Example ParseInt_ex : strconv.ParseInt "1234" = (1234, false) /\ strconv.ParseInt "" = (0, true) /\ strconv.ParseInt "-7" = (-7,false) /\ strconv.ParseInt "12a" = (0, true).
Proof. repeat split; reflexivity. Qed.

(** ** The nil descriptor *)

(** The error aggregator is not empty; nothing was launched. *)
Definition errors_exist (s : State) : Prop := channelError_Exists s = true.
Definition no_launch (s : State) : Prop := Forall (fun op => ~ is_launch op) (trace s).

Lemma errors_exist_Add s err :
  errors_exist (set_channelError (channelError s ++ [err])%list s).
Proof. unfold errors_exist, channelError_Exists. cbn. destruct (channelError s); reflexivity. Qed.

Lemma frame_errors_exist : frame errors_exist.
Proof.
  split; unfold stable_trace, stable_fs, stable_errors; cbn; auto.
  intros s err _. apply errors_exist_Add.
Qed.

Lemma frame_no_launch : frame no_launch /\ frame_header no_launch.
Proof.
  split; split; unfold stable_trace, stable_fs, stable_errors, no_launch; cbn; auto.
  intros s op Hs Hop. apply Forall_app. split; [exact Hs | constructor; [exact Hop | constructor]].
Qed.

(** [yields m Qv]: when [m] completes with the value [a], [Qv a] holds. *)
Definition yields {R A} (m : Body R A) (Qv : A -> State -> Prop) : Prop :=
  forall s, match m s with Val a s' => Qv a s' | _ => True end.

Lemma yields_bind {R A B} (m : Body R A) (k : A -> Body R B) (Qv : B -> State -> Prop) :
  (forall a, yields (k a) Qv) -> yields (bind m k) Qv.
Proof.
  intros Hk s. unfold bind. destruct (m s) as [a s'|r s'|h s']; [apply Hk | exact Logic.I ..].
Qed.

Lemma yields_call {R R'} (f : Body R Empty_set) (Qv : R -> State -> Prop) :
  (forall s, match f s with Return r s' => Qv r s' | _ => True end) ->
  yields (@call R R' f) Qv.
Proof.
  intros Hf s. unfold call. specialize (Hf s).
  destruct (f s) as [[]|r s'|h s']; [exact Hf | exact Logic.I].
Qed.

Section NilDescriptor.

Context `{UnicodeTables} (env : Env).

(** Every [return nil] of [runJnlp] comes after [channelError.Add]. *)
Lemma runJnlp_nil address doHeader :
  triple (fun _ => True) (runJnlp env address doHeader) (fun _ => True)
    (fun r s => r = None -> errors_exist s) (fun _ _ => True).
Proof.
  unfold runJnlp.
  repeat (first
    [ apply triple_wg_Add; intros; exact Logic.I
    | apply triple_call_proc, runResource_footprint;
      unfold stable_trace, stable_fs, stable_errors; intros; exact Logic.I
    | unfold client_Get, ioutil_ReadAll, go; triple_step
    | intros; first [exact Logic.I | apply errors_exist_Add | discriminate] ]).
Qed.

Lemma run_resolve_nil :
  yields (run_resolve env) (fun jnlp s => jnlp = None -> errors_exist s).
Proof.
  unfold run_resolve.
  repeat (first [ apply yields_bind; intros ?
                | match goal with |- yields (let '(_, _) := ?x in _) _ => destruct x end ]).
  apply yields_call. intros s.
  pose proof (runJnlp_nil
                (match os_Args env with [_; a] => a | _ => flag_url env end) true s Logic.I)
    as Hn.
  match goal with |- match ?m with _ => _ end => destruct m end; auto.
Qed.

(** With a recorded error, [run] returns it after the barrier. *)
Lemma run_launch_error jnlp s :
  errors_exist s -> run_launch env jnlp s = Return (channelError_Get s) s.
Proof.
  intros Hs. unfold run_launch, bind, get, when. rewrite Hs. reflexivity.
Qed.

End NilDescriptor.

(** What [run] reports: the first recorded error. *)
Definition reports_error (err : option error) (s : State) : Prop :=
  is_Some err /\ err = channelError_Get s.

(** Whenever [runJnlp] returns [nil], the error aggregator is not
    empty; and when the root call has returned [nil], then whatever the
    goroutines do, the aggregator stays non-empty, no process is launched,
    [run] does not dereference the [nil] descriptor, and when [run]
    returns it returns the recorded error. *)
Theorem nil_descriptor_not_launched `{UnicodeTables} (env : Env) :
  (forall address doHeader s s',
     runJnlp env address doHeader s = Return None s' -> errors_exist s')
  /\ (forall disk sched1 sched2 s cfg',
        exec env sched1 (init env disk) = Some (Running (MainWait None) s) ->
        exec env sched2 (Running (MainWait None) s) = Some cfg' ->
        errors_exist s
        /\ errors_exist (state_of cfg')
        /\ no_launch (state_of cfg')
        /\ (forall s', cfg' <> Stopped (Panic nil_dereference) s')
        /\ (forall err s', cfg' = Running (MainDone err) s' -> reports_error err s')).
Proof.
  split.
  - intros address doHeader s s' Hret.
    pose proof (runJnlp_nil env address doHeader s Logic.I) as Hn.
    rewrite Hret in Hn. apply Hn. reflexivity.
  - intros disk sched1 sched2 s cfg' Hroot Hrest.
    set (I := fun s => (errors_exist s /\ no_launch s) /\ pool_nested s).
    assert (task_ok env I task_halt) as Htask.
    { apply framed_task_ok; [|intros ? ? Hs; exact Hs].
      apply frame_and; [apply frame_errors_exist | apply frame_no_launch]. }
    assert (launch_ok env I (fun _ => False) reports_error) as Hlaunch.
    { intros jnlp s0 Hs0. rewrite run_launch_error by apply Hs0.
      split; [exact Hs0|]. destruct Hs0 as [[He _] _].
      unfold reports_error, errors_exist, channelError_Exists, channelError_Get in *.
      destruct (channelError s0); [discriminate | cbn; eauto]. }
    assert (I s) as Hs.
    { destruct sched1 as [|c sched1]; [discriminate Hroot|].
      cbn [exec] in Hroot. destruct c as [|i]; [|discriminate Hroot].
      unfold init in Hroot. cbn [step] in Hroot.
      match type of Hroot with context [run_resolve env ?s0] =>
        pose proof (run_resolve_nil env s0) as Hnil;
        pose proof (run_resolve_keeps env _
                      (frame_and _ _ (proj1 frame_no_launch) frame_pool_nested)
                      (frame_header_and _ _ (proj2 frame_no_launch) frame_header_pool_nested)
                      s0 (conj (Forall_nil_2 _) (Forall_nil_2 _))) as Hkeep;
        destruct (run_resolve env s0) as [jnlp s1|err s1|h s1]
      end.
      - destruct (exec_pc env _ _ _ _ _ Hroot) as [[= <-]|[err [=]]].
        assert (I s1) as Hs1
          by (split; [split; [apply Hnil; reflexivity | apply Hkeep] | apply Hkeep]).
        destruct (exec_keeps env I task_halt (fun _ => False) reports_error Htask Hlaunch
                    sched1 None s1 _ Hs1 Hroot) as [[HI _] _].
        exact HI.
      - apply exec_stuck in Hroot; [discriminate Hroot | intros []; reflexivity].
      - apply exec_stuck in Hroot; [discriminate Hroot | intros []; reflexivity]. }
    destruct (exec_keeps env I task_halt (fun _ => False) reports_error Htask Hlaunch
                sched2 None s cfg' Hs Hrest) as [[[[He Hl] _] Hcfg] _].
    split; [apply Hs|]. split; [exact He|]. split; [exact Hl|]. split.
    + intros s' ->. destruct Hcfg as [Ht|[]].
      unfold task_halt, nil_dereference in Ht. destruct Ht as [Ht|[Ht|Ht]]; discriminate Ht.
    + intros err s' ->. exact Hcfg.
Qed.

(** The root descriptor of [Fixture.unreachable_root] cannot be fetched:
    the root call returns [nil], and [run] returns the error. *)
Lemma nil_descriptor_not_launched_witness :
  exists s cfg',
    exec Fixture.unreachable_root [RunMain] (init Fixture.unreachable_root ∅)
    = Some (Running (MainWait None) s)
    /\ exec Fixture.unreachable_root [RunMain] (Running (MainWait None) s) = Some cfg'
    /\ cfg' = Running (MainDone (Some "failed")) s
    /\ errors_exist s
    /\ errors_exist (state_of cfg')
    /\ no_launch (state_of cfg')
    /\ (forall s', cfg' <> Stopped (Panic nil_dereference) s')
    /\ (forall err s', cfg' = Running (MainDone err) s' -> reports_error err s').
Proof.
  eexists _, _.
  split; [vm_compute; reflexivity|].
  split; [vm_compute; reflexivity|].
  split; [reflexivity|].
  eapply (proj2 (nil_descriptor_not_launched Fixture.unreachable_root)
            ∅ [RunMain] [RunMain]);
    vm_compute; reflexivity.
Defined.

(** ** The wait group accounts for the resource tasks *)

(** The number of resource tasks in a pool. *)
Fixpoint pending (l : list Task) : Z :=
  match l with
  | [] => 0
  | GoResource _ _ _ _ :: l' => 1 + pending l'
  | GoJnlp _ _ :: l' => pending l'
  end.

(** The counter of the wait group covers the resource tasks of the pool
    and [d] more calls of [wg.Done()]. *)
Definition balanced (d : Z) (s : State) : Prop := pending (goroutines s) + d <= wg s.

Lemma pending_nonneg l : 0 <= pending l.
Proof. induction l as [|[] l IH]; cbn; lia. Qed.

Lemma pending_app l1 l2 : pending (l1 ++ l2) = pending l1 + pending l2.
Proof. induction l1 as [|[] l1 IH]; cbn; lia. Qed.

Lemma pending_delete l i t :
  l !! i = Some t ->
  pending (delete i l) = pending l - match t with GoResource _ _ _ _ => 1 | GoJnlp _ _ => 0 end.
Proof.
  revert i. induction l as [|t' l IH]; intros [|i] Hi; try discriminate Hi.
  - injection Hi as ->. cbn. destruct t; lia.
  - cbn in Hi. change (delete (S i) (t' :: l)) with (t' :: delete i l).
    cbn [pending]. rewrite (IH i Hi). destruct t'; lia.
Qed.

Ltac bal :=
  intros; unfold balanced in *; cbn in *; rewrite ?pending_app in *; cbn in *;
  repeat match goal with
         | s : State |- _ =>
           lazymatch goal with
           | _ : 0 <= pending (goroutines s) |- _ => fail
           | _ => pose proof (pending_nonneg (goroutines s))
           end
         end;
  first [lia | exfalso; lia].

Section Balanced.

Context `{UnicodeTables} (env : Env).

Lemma balanced_stable d :
  stable_trace (balanced d) /\ stable_fs (balanced d) /\ stable_errors (balanced d).
Proof. unfold stable_trace, stable_fs, stable_errors, balanced. cbn. auto. Qed.

(** [runResource] settles one unit of the counter and cannot make it
    negative. *)
Lemma runResource_balanced url path doUnzip doExtract :
  triple (balanced 1) (runResource env url path doUnzip doExtract) (balanced 0)
    (fun _ => balanced 0) (fun _ _ => False).
Proof.
  apply runResource_footprint; try apply balanced_stable.
  - intros s Hs Hneg. unfold balanced in Hs. pose proof (pending_nonneg (goroutines s)). lia.
  - intros s Hs _. unfold balanced in *. cbn. lia.
Qed.

(** How [runJnlp] can stop the process: by [os.Exit(1)] on a status
    other than 200, or slicing [address] at a [/] that is not there. *)
Definition jnlp_halt (address : string) (h : HaltKind) : Prop :=
  (h = OsExit 1 /\ http_StatusCode env address <> 200)
  \/ (h = Panic "slice bounds out of range" /\ strings.LastIndexByte address "/"%char < 0).

Lemma runJnlp_balanced address doHeader :
  inv (balanced 0) (fun _ => balanced 0) (fun h s => balanced 0 s /\ jnlp_halt address h)
    (runJnlp env address doHeader).
Proof.
  unfold runJnlp.
  repeat (first
    [ lazymatch goal with
      | |- triple _ (bind (wg_Add 1) _) _ _ _ =>
        apply triple_bind with (Q1 := balanced 1);
        [apply triple_wg_Add; bal | intros ?]
      | |- triple (balanced 1) (go (GoResource _ _ _ _)) _ _ _ =>
        unfold go; apply triple_modify; bal
      | |- triple (balanced 1) (call_proc (runResource _ _ _ _ _)) _ _ _ =>
        apply triple_call_proc;
        eapply triple_conseq; [apply runResource_balanced | auto ..]; intros ? ? []
      end
    | unfold client_Get, ioutil_ReadAll, go; triple_step
    | progress cbv zeta
    | bal
    | intros; split; [bal|]; unfold jnlp_halt;
      first [ left; split; [reflexivity|];
              match goal with
              | Hc : negb (_ =? 200) = true |- _ =>
                apply negb_true_iff, Z.eqb_neq in Hc; exact Hc
              end
            | right; split; [reflexivity|];
              match goal with
              | Hc : (_ <? 0) = true |- _ => apply Z.ltb_lt in Hc; exact Hc
              end ] ]).
Qed.

(** How a goroutine can stop the process. *)
Definition task_stop (t : Task) (h : HaltKind) : Prop :=
  match t with
  | GoResource _ _ _ _ => False
  | GoJnlp address _ => jnlp_halt address h
  end.

Lemma run_task_balanced s i t :
  balanced 0 s -> goroutines s !! i = Some t ->
  match run_task env t (taken i s) with
  | Val _ s' => balanced 0 s'
  | Return _ s' => balanced 0 s'
  | Halt h s' => balanced 0 s' /\ task_stop t h
  end.
Proof.
  intros Hs Hi.
  assert (balanced match t with GoResource _ _ _ _ => 1 | GoJnlp _ _ => 0 end (taken i s))
    as Ht.
  { unfold balanced in *. cbn. rewrite (pending_delete _ _ _ Hi). destruct t; lia. }
  destruct t as [url path doUnzip doExtract|address dh]; cbn [run_task task_stop].
  - pose proof (runResource_balanced url path doUnzip doExtract _ Ht) as Hr.
    unfold call_proc. destruct (runResource env url path doUnzip doExtract (taken i s));
      [exact Hr | exact Hr | destruct Hr].
  - pose proof (runJnlp_balanced address dh _ Ht) as Hr.
    unfold bind, call, ret. destruct (runJnlp env address dh (taken i s)) as [[]|r s'|h s'];
      exact Hr.
Qed.

(** [run] up to the barrier stops the process by [os.Exit(1)] when it
    has no arguments, or as [runJnlp] does. *)
Definition known_halt (h : HaltKind) : Prop :=
  h = OsExit 1 \/ exists address, jnlp_halt address h.

Lemma run_resolve_balanced :
  inv (balanced 0) (fun _ => balanced 0) (fun h s => balanced 0 s /\ known_halt h)
    (run_resolve env).
Proof.
  unfold run_resolve.
  repeat (first
    [ apply triple_call; eapply triple_conseq; [apply runJnlp_balanced | auto ..];
      intros ? ? [? ?]; split; [assumption | right; eauto]
    | unfold_ops; triple_step
    | bal
    | intros; split; [bal | left; reflexivity] ]).
Qed.

(** In every reachable state the counter covers the resource tasks of
    the pool. *)
Lemma reachable_balanced sched disk cfg :
  exec env sched (init env disk) = Some cfg -> balanced 0 (state_of cfg).
Proof.
  intros Hexec.
  assert (task_ok env (balanced 0) known_halt) as Htask.
  { intros s i t Hs Hi. pose proof (run_task_balanced s i t Hs Hi) as Hr.
    destruct (run_task env t (taken i s)); [exact Hr | exact Hr|].
    split; [apply Hr|]. destruct t; [destruct Hr as [_ []]|]. right. eexists. apply Hr. }
  assert (launch_ok env (balanced 0) (fun _ => True) (fun _ _ => True)) as Hlaunch.
  { intros jnlp s Hs. unfold run_launch, bind, get, when, cmd_Start, issue.
    destruct (channelError_Exists s); [cbn; auto|].
    cbn. destruct jnlp; cbn; auto. }
  assert (resolve_ok env (balanced 0) known_halt (fun _ _ => True)) as Hres.
  { intros disk'. pose proof (run_resolve_balanced (state_of (init env disk'))) as Hr.
    cbn in Hr. specialize (Hr ltac:(unfold balanced; cbn; lia)).
    cbn. destruct (run_resolve env _); auto. }
  destruct (exec_init_keeps env _ _ _ _ Htask Hlaunch Hres sched disk cfg Hexec)
    as [->|[Hb _]]; [unfold balanced; cbn; lia | exact Hb].
Qed.

End Balanced.

(** ** Failure isolation *)

(** The error aggregator and the pool only grow. *)
Definition errors_from (errs : list error) (s : State) : Prop :=
  exists more, channelError s = (errs ++ more)%list.
Definition pool_from (pool : list Task) (s : State) : Prop :=
  exists more, goroutines s = (pool ++ more)%list.

Lemma frame_errors_from errs : frame (errors_from errs).
Proof.
  split; unfold stable_trace, stable_fs, stable_errors, errors_from; cbn; auto.
  intros s err [more ->]. exists (more ++ [err])%list. symmetry; apply app_assoc.
Qed.

Lemma frame_pool_from pool : frame (pool_from pool).
Proof.
  split; unfold stable_trace, stable_fs, stable_errors, pool_from; cbn; auto.
  intros s t [more ->] _. exists (more ++ [t])%list. symmetry; apply app_assoc.
Qed.

(** A stage of a resource task: [download], [runUnzip] or
    [runSelfextract], which return an error or [nil]. *)
Definition Stage : Type := Body (option error) Empty_set.

(** The stages run in order until one fails: the error of the first
    stage that fails and the state in which it failed, or no error and the
    state after the last stage. *)
Fixpoint first_failure (stages : list Stage) (s : State) : option error * State :=
  match stages with
  | [] => (None, s)
  | stage :: rest =>
    match stage s with
    | Return None s' => first_failure rest s'
    | Return (Some err) s' => (Some err, s')
    | Val a _ => match a with end
    | Halt _ s' => (None, s')
    end
  end.

(** The failure of a task is added to the error aggregator. *)
Definition recorded (failure : option error) (s : State) : State :=
  match failure with
  | Some err => set_channelError (channelError s ++ [err])%list s
  | None => s
  end.

(** The entry that a failure makes in the error aggregator. *)
Definition entry (failure : option error) : list error :=
  match failure with
  | Some err => [err]
  | None => []
  end.

(** The state after the request of the descriptor at [address], and after
    the read of its body. *)
Definition requested (address : string) (s : State) : State :=
  set_trace (trace s ++ [OpGet address])%list s.
Definition arrived (address : string) (s : State) : State :=
  set_trace (trace (requested address s) ++ [OpReadAll address])%list (requested address s).

Lemma bind_Val {R A B} (m : Body R A) (k : A -> Body R B) s a s' :
  m s = Val a s' -> bind m k s = k a s'.
Proof. intros Hm. unfold bind. rewrite Hm. reflexivity. Qed.

Section Isolation.

Context `{UnicodeTables} (env : Env).

(** The stages of the resource task for [url] and [path], as
    [runResource] goes through them. *)
Definition resource_stages (url path : string) (doUnzip doExtract : bool) : list Stage :=
  (download env url path
   :: (if doUnzip || strings.HasSuffix path ".zip"
       then [runUnzip env path (filepath.Dir path)] else [])
   ++ (if doExtract || strings.HasSuffix path ".exe"
       then [runSelfextract env path] else []))%list.

(** The request of the descriptor at [address] and the read of its body
    succeed in [s]. *)
Definition arrives (address : string) (s : State) : Prop :=
  fault env (trace s) (OpGet address) = None
  /\ fault env (trace s ++ [OpGet address])%list (OpReadAll address) = None.

(** A panic of [wg.Add] or [wg.Done]. *)
Definition wg_panics (h : HaltKind) : Prop :=
  exists delta s, @wg_Add unit delta s = Halt h s.

(** What stops the process in the task [t]. *)
Definition stop_cause (t : Task) (h : HaltKind) : Prop :=
  match t with
  | GoResource _ _ _ _ => wg_panics h
  | GoJnlp address _ =>
    (h = OsExit 1 /\ http_StatusCode env address <> 200)
    \/ (h = Panic "slice bounds out of range"
        /\ strings.LastIndexByte address "/"%char < 0)
    \/ wg_panics h
  end.

(** A stage changes the file system and the trace only, and does not
    stop the process. *)
Definition disk_only (stage : Stage) : Prop :=
  forall I : State -> Prop,
    stable_trace I -> stable_fs I -> inv I (fun _ => I) (fun _ _ => False) stage.

Lemma resource_stages_disk_only url path doUnzip doExtract :
  Forall disk_only (resource_stages url path doUnzip doExtract).
Proof.
  unfold resource_stages. constructor.
  - intros I Ht Hf. apply download_footprint; assumption.
  - apply Forall_app. split.
    + destruct (_ || _); constructor; [|constructor].
      intros I Ht Hf. apply runUnzip_footprint; assumption.
    + destruct (_ || _); constructor; [|constructor].
      intros I Ht Hf. apply runSelfextract_footprint; assumption.
Qed.

Lemma first_failure_keeps (I : State -> Prop) stages s :
  stable_trace I -> stable_fs I -> Forall disk_only stages ->
  I s -> I (first_failure stages s).2.
Proof.
  intros Ht Hf Hstages. revert s.
  induction Hstages as [|stage rest Hstage _ IH]; intros s Hs; [exact Hs|].
  cbn [first_failure]. specialize (Hstage I Ht Hf s Hs).
  destruct (stage s) as [[]|[err|] s'|h s']; [exact Hstage | apply IH, Hstage | destruct Hstage].
Qed.

Ltac settled :=
  match goal with
  | Hr : _ = _ |- _ =>
    rewrite Hr;
    unfold wg_Done, wg_Add, bind, get, panic, modify, channelError_Add, return_, ret, recorded;
    cbn; destruct (_ <? 0); first [left; reflexivity | right; reflexivity]
  end.

(** [runResource] goes through its stages up to the first failure,
    records it, and ends with the deferred [wg.Done()]. *)
Lemma runResource_first_failure url path doUnzip doExtract s :
  let failure := first_failure (resource_stages url path doUnzip doExtract) s in
  let done := @wg_Done unit (recorded failure.1 failure.2) in
  runResource env url path doUnzip doExtract s = done
  \/ runResource env url path doUnzip doExtract s
     = match done with
       | Val _ s' => Return tt s'
       | other => other
       end.
Proof.
  cbv zeta. remember (runResource env url path doUnzip doExtract s) as r eqn:Hr.
  unfold runResource, resource_stages, defer in *.
  pose proof (download_footprint env (fun _ => True)
                ltac:(intros ? ? ? ?; exact Logic.I) ltac:(intros ? ? ?; exact Logic.I)
                url path s Logic.I) as Hd.
  cbn [first_failure app]. unfold bind, call, when, ret in Hr.
  destruct (download env url path s) as [[]|[err|] s1|h s1]; [| |destruct Hd].
  { settled. }
  clear Hd. cbv beta iota in Hr.
  pose proof (runUnzip_footprint env (fun _ => True)
                ltac:(intros ? ? ? ?; exact Logic.I) ltac:(intros ? ? ?; exact Logic.I)
                path (filepath.Dir path) s1 Logic.I) as Hu.
  destruct (doUnzip || strings.HasSuffix path ".zip"); cbn [app first_failure];
    cbv beta iota in Hr.
  - destruct (runUnzip env path (filepath.Dir path) s1) as [[]|[err|] s2|h s2];
      [| |destruct Hu].
    { settled. }
    clear Hu. cbv beta iota in Hr.
    pose proof (runSelfextract_footprint env (fun _ => True)
                  ltac:(intros ? ? ? ?; exact Logic.I) path s2 Logic.I) as He.
    destruct (doExtract || strings.HasSuffix path ".exe"); cbn [app first_failure];
      cbv beta iota in Hr; [|settled].
    destruct (runSelfextract env path s2) as [[]|[err|] s3|h s3]; [| |destruct He];
      settled.
  - clear Hu. cbv beta iota in Hr.
    pose proof (runSelfextract_footprint env (fun _ => True)
                  ltac:(intros ? ? ? ?; exact Logic.I) path s1 Logic.I) as He.
    destruct (doExtract || strings.HasSuffix path ".exe"); cbn [app first_failure];
      cbv beta iota in Hr; [|settled].
    destruct (runSelfextract env path s1) as [[]|[err|] s3|h s3]; [| |destruct He];
      settled.
Qed.

(** The first steps of [runJnlp], for each way in which the descriptor
    at [address] is not obtained. *)
Lemma client_Get_fails {R} address s err :
  fault env (trace s) (OpGet address) = Some err ->
  @client_Get env R address s = Val (inl err) (requested address s).
Proof. intros Hget. unfold client_Get, bind, issue. rewrite Hget. reflexivity. Qed.

Lemma client_Get_works {R} address s :
  fault env (trace s) (OpGet address) = None ->
  @client_Get env R address s
  = Val (inr (http_StatusCode env address, http_Body env address)) (requested address s).
Proof. intros Hget. unfold client_Get, bind, issue. rewrite Hget. reflexivity. Qed.

Lemma ioutil_ReadAll_fails {R} address body s err :
  fault env (trace s ++ [OpGet address])%list (OpReadAll address) = Some err ->
  @ioutil_ReadAll env R address body (requested address s)
  = Val (inl err) (arrived address s).
Proof.
  intros Hread. unfold ioutil_ReadAll, bind, issue. cbn [trace requested set_trace].
  rewrite Hread. reflexivity.
Qed.

Lemma ioutil_ReadAll_works {R} address body s :
  fault env (trace s ++ [OpGet address])%list (OpReadAll address) = None ->
  @ioutil_ReadAll env R address body (requested address s)
  = Val (inr body) (arrived address s).
Proof.
  intros Hread. unfold ioutil_ReadAll, bind, issue. cbn [trace requested set_trace].
  rewrite Hread. reflexivity.
Qed.

Lemma runJnlp_request_fails address doHeader s err :
  fault env (trace s) (OpGet address) = Some err ->
  runJnlp env address doHeader s = Return None (recorded (Some err) (requested address s)).
Proof.
  intros Hget. unfold runJnlp.
  rewrite (bind_Val _ _ _ _ _ (client_Get_fails address s err Hget)). reflexivity.
Qed.

Lemma runJnlp_read_fails address doHeader s err :
  fault env (trace s) (OpGet address) = None ->
  fault env (trace s ++ [OpGet address])%list (OpReadAll address) = Some err ->
  runJnlp env address doHeader s = Return None (recorded (Some err) (arrived address s)).
Proof.
  intros Hget Hread. unfold runJnlp.
  rewrite (bind_Val _ _ _ _ _ (client_Get_works address s Hget)).
  cbn [or_else]. rewrite (bind_Val _ _ _ _ _ (eq_refl : ret _ _ = Val _ _)).
  cbn [fst snd].
  rewrite (bind_Val _ _ _ _ _ (ioutil_ReadAll_fails address _ s err Hread)). reflexivity.
Qed.

(** With the descriptor at hand, [runJnlp] goes on with the check of
    the status. *)
Lemma runJnlp_status address doHeader s :
  arrives address s ->
  http_StatusCode env address <> 200 ->
  runJnlp env address doHeader s = Halt (OsExit 1) (arrived address s).
Proof.
  intros [Hget Hread] Hstatus. unfold runJnlp.
  rewrite (bind_Val _ _ _ _ _ (client_Get_works address s Hget)).
  cbn [or_else]. rewrite (bind_Val _ _ _ _ _ (eq_refl : ret _ _ = Val _ _)).
  cbn [fst snd].
  rewrite (bind_Val _ _ _ _ _ (ioutil_ReadAll_works address _ s Hread)).
  cbn [or_else]. rewrite (bind_Val _ _ _ _ _ (eq_refl : ret _ _ = Val _ _)).
  apply Z.eqb_neq in Hstatus. rewrite Hstatus. reflexivity.
Qed.

Lemma runJnlp_parse_fails address doHeader s err :
  arrives address s ->
  http_StatusCode env address = 200 ->
  url_Parse env address = inl err ->
  runJnlp env address doHeader s = Return None (recorded (Some err) (arrived address s)).
Proof.
  intros [Hget Hread] Hstatus Hparse. unfold runJnlp.
  rewrite (bind_Val _ _ _ _ _ (client_Get_works address s Hget)).
  cbn [or_else]. rewrite (bind_Val _ _ _ _ _ (eq_refl : ret _ _ = Val _ _)).
  cbn [fst snd].
  rewrite (bind_Val _ _ _ _ _ (ioutil_ReadAll_works address _ s Hread)).
  cbn [or_else]. rewrite (bind_Val _ _ _ _ _ (eq_refl : ret _ _ = Val _ _)).
  rewrite Hstatus, Hparse. reflexivity.
Qed.

Lemma runJnlp_decode_fails address doHeader s u err :
  arrives address s ->
  http_StatusCode env address = 200 ->
  url_Parse env address = inr u ->
  xml_Decode env (common_ToUTF8 env (http_Body env address)) = inl err ->
  runJnlp env address doHeader s = Return None (recorded (Some err) (arrived address s)).
Proof.
  intros [Hget Hread] Hstatus Hparse Hdecode. unfold runJnlp.
  rewrite (bind_Val _ _ _ _ _ (client_Get_works address s Hget)).
  cbn [or_else]. rewrite (bind_Val _ _ _ _ _ (eq_refl : ret _ _ = Val _ _)).
  cbn [fst snd].
  rewrite (bind_Val _ _ _ _ _ (ioutil_ReadAll_works address _ s Hread)).
  cbn [or_else]. rewrite (bind_Val _ _ _ _ _ (eq_refl : ret _ _ = Val _ _)).
  rewrite Hstatus, Hparse. cbn [negb Z.eqb Pos.eqb when or_else].
  rewrite (bind_Val _ _ _ _ _ (eq_refl : ret _ _ = Val _ _)).
  rewrite (bind_Val _ _ _ _ _ (eq_refl : ret _ _ = Val _ _)).
  rewrite Hdecode. reflexivity.
Qed.

Variable s0 : State.

(** Since [s0] the error aggregator and the pool have only grown. *)
Definition only_added (s : State) : Prop :=
  errors_from (channelError s0) s /\ pool_from (goroutines s0) s.

(** Since [s0] errors were added, the last of them just now. *)
Definition just_recorded (s : State) : Prop :=
  exists before err, channelError s = (channelError s0 ++ before ++ [err])%list.

Lemma only_added_refl : only_added s0.
Proof. split; exists []; symmetry; apply app_nil_r. Qed.

Lemma frame_only_added : frame only_added.
Proof. apply frame_and; [apply frame_errors_from | apply frame_pool_from]. Qed.

Lemma just_recorded_Add s err :
  only_added s -> just_recorded (set_channelError (channelError s ++ [err])%list s).
Proof.
  intros [[more Hs] _]. exists more, err. cbn. rewrite Hs. symmetry. apply app_assoc.
Qed.

Lemma wg_Add_panics {R} delta s :
  wg s + delta < 0 ->
  @wg_Add R delta s = Halt (Panic "sync: negative WaitGroup counter") s.
Proof.
  intros Hneg. unfold wg_Add, bind, get, panic.
  destruct (Z.ltb_spec (wg s + delta) 0); [reflexivity | lia].
Qed.

Lemma runResource_isolated url path doUnzip doExtract :
  inv only_added (fun _ => only_added) (fun h s => only_added s /\ wg_panics h)
    (runResource env url path doUnzip doExtract).
Proof.
  apply runResource_footprint; try apply frame_only_added.
  intros s Hs Hneg. split; [exact Hs|].
  exists (-1), s. apply wg_Add_panics. lia.
Qed.

Ltac leaf :=
  first [ intros ? Hs; split; [|intros _; apply just_recorded_Add; exact Hs];
          apply (frame_errors _ frame_only_added); exact Hs
        | intros ? Hs; split; [exact Hs | intros Hnil; discriminate Hnil]
        | intros ? Hs; split; [exact Hs|]; cbn [stop_cause];
          first [ left; split; [reflexivity|];
                  match goal with
                  | Hc : negb (_ =? 200) = true |- _ =>
                    apply negb_true_iff, Z.eqb_neq in Hc; exact Hc
                  end
                | right; left; split; [reflexivity|];
                  match goal with
                  | Hc : (_ <? 0) = true |- _ => apply Z.ltb_lt in Hc; exact Hc
                  end ]
        | intros ? Hs ?; split; [exact Hs|]; cbn [stop_cause]; right; right;
          eexists 1, _; apply wg_Add_panics; eassumption
        | intros ? Hs; apply (frame_trace _ frame_only_added); [exact Hs | exact id]
        | intros ? Hs; apply (frame_jars _ frame_only_added); exact Hs
        | intros ? Hs; apply (frame_nativelibs _ frame_only_added); exact Hs
        | intros ? Hs; apply (frame_go _ frame_only_added); [exact Hs | exact Logic.I || reflexivity]
        | intros ? Hs ?; apply (frame_wg_Add _ frame_only_added); assumption
        | intros ? Hs; exact Hs ].

(** However a call of [runJnlp] ends, the aggregator and the pool have
    only grown; it returns [nil] right after [channelError.Add]; and it
    stops the process on a status other than 200, on an address without
    [/], or in [wg.Add] and [wg.Done]. *)
Lemma runJnlp_isolated address doHeader :
  inv only_added
    (fun r s => only_added s /\ (r = None -> just_recorded s))
    (fun h s => only_added s /\ stop_cause (GoJnlp address doHeader) h)
    (runJnlp env address doHeader).
Proof.
  unfold runJnlp.
  repeat (first
    [ apply triple_wg_Add
    | apply triple_call_proc; eapply triple_conseq;
      [ apply runResource_isolated | auto .. ];
      intros ? ? [? ?]; split; [assumption | cbn [stop_cause]; auto]
    | unfold client_Get, ioutil_ReadAll, go; triple_step
    | leaf ]).
Qed.

End Isolation.

(** [C5], amended.  However a task ends, the error aggregator has only
    grown and the goroutines started before are still in the pool; the
    task stops the process only by [os.Exit(1)] on a descriptor with a
    status other than 200, by slicing an address without [/], or by a
    panic of [wg.Add] or [wg.Done].  A resource task goes through its
    stages up to the first that returns an error, adds exactly this error
    to the aggregator and ends with [wg.Done()], nothing else done.  A nested call of
    [runJnlp] whose request, read, URL or decoding fails adds exactly this
    error and returns; whenever it returns [nil] it has just added an
    error; and when its descriptor arrives with a status other than 200 it
    stops the process with [os.Exit(1)], the aggregator as it was. *)
Theorem task_failure_isolated `{UnicodeTables} (env : Env) :
  (forall t s,
     let r := run_task env t s in
     errors_from (channelError s) (outcome_state r)
     /\ pool_from (goroutines s) (outcome_state r)
     /\ (forall h, halted r = Some h -> stop_cause env t h))
  /\ (forall url path doUnzip doExtract s,
        let failure := first_failure (resource_stages env url path doUnzip doExtract) s in
        let r := run_task env (GoResource url path doUnzip doExtract) s in
        outcome_state r = outcome_state (@wg_Done unit (recorded failure.1 failure.2))
        /\ channelError (outcome_state r) = (channelError s ++ entry failure.1)%list
        /\ goroutines (outcome_state r) = goroutines s
        /\ fs (outcome_state r) = fs failure.2
        /\ trace (outcome_state r) = trace failure.2
        /\ halted r = halted (@wg_Done unit (recorded failure.1 failure.2)))
  /\ (forall address s,
        let t := GoJnlp address false in
        (forall err,
           fault env (trace s) (OpGet address) = Some err ->
           run_task env t s = Val tt (recorded (Some err) (requested address s)))
        /\ (forall err,
              fault env (trace s) (OpGet address) = None ->
              fault env (trace s ++ [OpGet address])%list (OpReadAll address) = Some err ->
              run_task env t s = Val tt (recorded (Some err) (arrived address s)))
        /\ (arrives env address s ->
            http_StatusCode env address <> 200 ->
            run_task env t s = Halt (OsExit 1) (arrived address s))
        /\ (forall err,
              arrives env address s ->
              http_StatusCode env address = 200 ->
              url_Parse env address = inl err ->
              run_task env t s = Val tt (recorded (Some err) (arrived address s)))
        /\ (forall u err,
              arrives env address s ->
              http_StatusCode env address = 200 ->
              url_Parse env address = inr u ->
              xml_Decode env (common_ToUTF8 env (http_Body env address)) = inl err ->
              run_task env t s = Val tt (recorded (Some err) (arrived address s)))
        /\ (forall s',
              runJnlp env address false s = Return None s' ->
              exists before err,
                channelError s' = (channelError s ++ before ++ [err])%list)).
Proof.
  split; [|split].
  - intros t s. cbv zeta.
    assert (match run_task env t s with
            | Halt h s' => only_added s s' /\ stop_cause env t h
            | Val _ s' | Return _ s' => only_added s s'
            end) as Hrun.
    { destruct t as [url path doUnzip doExtract|address doHeader]; cbn [run_task].
      - pose proof (runResource_isolated env s url path doUnzip doExtract s
                      (only_added_refl s)) as Hr.
        unfold call_proc. destruct (runResource env url path doUnzip doExtract s); exact Hr.
      - pose proof (runJnlp_isolated env s address doHeader s (only_added_refl s)) as Hr.
        unfold bind, call, ret.
        destruct (runJnlp env address doHeader s) as [[]|r s'|h s']; [apply Hr | exact Hr]. }
    destruct (run_task env t s) as [a s'|r s'|h s']; cbn [outcome_state halted].
    + split; [apply Hrun|]. split; [apply Hrun | discriminate].
    + split; [apply Hrun|]. split; [apply Hrun | discriminate].
    + destruct Hrun as [[Herr Hpool] Hstop].
      split; [exact Herr|]. split; [exact Hpool|]. intros h' [= <-]. exact Hstop.
  - intros url path doUnzip doExtract s. cbv zeta. cbn [run_task].
    pose proof (first_failure_keeps
                  (fun s' => channelError s' = channelError s /\ goroutines s' = goroutines s)
                  (resource_stages env url path doUnzip doExtract) s
                  ltac:(intros ? ? Hs ?; exact Hs) ltac:(intros ? ? Hs; exact Hs)
                  (resource_stages_disk_only env url path doUnzip doExtract)
                  (conj eq_refl eq_refl)) as [Herr Hpool].
    pose proof (runResource_first_failure env url path doUnzip doExtract s) as Hrun.
    cbv zeta in Hrun.
    destruct (first_failure (resource_stages env url path doUnzip doExtract) s)
      as [failure s1].
    cbn [fst snd] in *. unfold call_proc.
    assert (channelError (recorded failure s1) = (channelError s ++ entry failure)%list)
      as Hentry.
    { destruct failure; cbn; rewrite Herr; [reflexivity | symmetry; apply app_nil_r]. }
    assert (goroutines (recorded failure s1) = goroutines s
            /\ fs (recorded failure s1) = fs s1 /\ trace (recorded failure s1) = trace s1)
      as (Hg & Hf & Ht).
    { destruct failure; cbn; auto. }
    revert Hrun. unfold wg_Done, wg_Add, bind, get, panic, modify.
    destruct (wg (recorded failure s1) + -1 <? 0); intros [-> | ->];
      cbn [outcome_state halted goroutines fs trace channelError set_wg];
      repeat split; first [reflexivity | assumption].
  - intros address s. cbv zeta. cbn [run_task].
    assert (forall s', runJnlp env address false s = Return None s' ->
                       (_ <- call (runJnlp env address false) ;; ret tt) s
                       = @Val unit unit tt s') as Hret.
    { intros s' Hr. unfold bind, call, ret. rewrite Hr. reflexivity. }
    repeat split.
    + intros err Hget. apply Hret, runJnlp_request_fails, Hget.
    + intros err Hget Hread. apply Hret, runJnlp_read_fails; assumption.
    + intros Harrives Hstatus. unfold bind, call.
      rewrite (runJnlp_status env address false s Harrives Hstatus). reflexivity.
    + intros err Harrives Hstatus Hparse. apply Hret, runJnlp_parse_fails; assumption.
    + intros u err Harrives Hstatus Hparse Hdecode.
      apply Hret. eapply runJnlp_decode_fails; eassumption.
    + intros s' Hr.
      pose proof (runJnlp_isolated env s address false s (only_added_refl s)) as Hn.
      rewrite Hr in Hn. apply Hn. reflexivity.
Qed.

(** The two tasks of [Fixture.failing_tasks], run after the root call:
    the request of the jar fails, and the task adds the error and settles
    its unit of the wait group, the extension still in the pool; the
    descriptor of the extension does not decode, and its task adds the
    error of the decoder and returns. *)
Lemma task_failure_isolated_witness :
  let env := Fixture.failing_tasks in
  exists jnlp s,
    exec env [RunMain] (init env ∅) = Some (Running (MainWait jnlp) s)
    /\ goroutines s
       = [GoResource "http://h/app/x.jar" "/c/h/app/x.jar" false false;
          GoJnlp "http://h/app/ext.jnlp" false]
    /\ channelError s = []
    /\ (let r := run_task env (GoResource "http://h/app/x.jar" "/c/h/app/x.jar" false false)
                   (taken 0 s) in
        channelError (outcome_state r) = ["failed"]
        /\ goroutines (outcome_state r) = [GoJnlp "http://h/app/ext.jnlp" false]
        /\ halted r = None)
    /\ run_task env (GoJnlp "http://h/app/ext.jnlp" false) (taken 1 s)
       = Val tt (recorded (Some "EOF") (arrived "http://h/app/ext.jnlp" (taken 1 s))).
Proof.
  cbv zeta.
  destruct (task_failure_isolated Fixture.failing_tasks) as (_ & Hresource & Hextension).
  eexists _, _.
  split; [vm_compute; reflexivity|].
  split; [vm_compute; reflexivity|].
  split; [vm_compute; reflexivity|].
  split.
  - match goal with
    | |- channelError (outcome_state (run_task _ (GoResource ?url ?path _ _) ?s)) = _ /\ _ =>
      destruct (Hresource url path false false s) as (_ & Herr & Hpool & _ & _ & Hhalt)
    end.
    rewrite Herr, Hpool, Hhalt.
    split; [vm_compute; reflexivity|]. split; vm_compute; reflexivity.
  - match goal with
    | |- run_task _ (GoJnlp ?address _) ?s = _ =>
      destruct (Hextension address s) as (_ & _ & _ & _ & Hdecode & _);
      apply (Hdecode {| URL_Host := "h"; URL_String := address |} "EOF")
    end.
    + split; vm_compute; reflexivity.
    + reflexivity.
    + reflexivity.
    + reflexivity.
Defined.

(** [C5] fails for an extension whose descriptor is answered with a
    status other than 200: the goroutine of the extension stops the whole
    process with [os.Exit(1)]; no error is recorded and the jar task
    started before it never runs. *)
Lemma nested_status_stops_process :
  ~ (forall (env : Env) disk sched jnlp s i t,
       exec env sched (init env disk) = Some (Running (MainWait jnlp) s) ->
       goroutines s !! i = Some t ->
       exists s',
         step env (RunGo i) (Running (MainWait jnlp) s) = Some (Running (MainWait jnlp) s')
         /\ errors_from (channelError s) s'
         /\ pool_from (delete i (goroutines s)) s').
Proof.
  intros Hall.
  assert (exists jnlp s s',
            exec Fixture.missing_extension [RunMain] (init Fixture.missing_extension ∅)
            = Some (Running (MainWait jnlp) s)
            /\ goroutines s !! 1%nat = Some (GoJnlp "http://h/app/ext.jnlp" false)
            /\ step Fixture.missing_extension (RunGo 1) (Running (MainWait jnlp) s)
               = Some (Stopped (OsExit 1) s')
            /\ channelError s' = []
            /\ goroutines s'
               = [GoResource "http://h/app/x.jar" "/c/h/app/x.jar" false false])
    as (jnlp & s & s' & Hroot & Hi & Hstop & _).
  { eexists _, _, _. evaluate. }
  destruct (Hall _ _ _ _ _ _ _ Hroot Hi) as (s'' & Hstep & _).
  rewrite Hstop in Hstep. discriminate Hstep.
Qed.

(** ** Launch *)

(** [C7].  For a descriptor whose application block and applet block both
    have a main class, the command is the part built from the
    package-level variables, then the main class of the application and
    the texts of its arguments in order; the applet block contributes
    nothing, and [run] starts exactly this command. *)
Theorem launch_precedence (env : Env) (jnlp : Jnlp) :
  ApplicationDesc_MainClass (Jnlp_ApplicationDesc jnlp) <> "" ->
  AppletDesc_MainClass (Jnlp_AppletDesc jnlp) <> "" ->
  cmds_main jnlp
  = ApplicationDesc_MainClass (Jnlp_ApplicationDesc jnlp)
    :: (Argument_Text <$> ApplicationDesc_Arguments (Jnlp_ApplicationDesc jnlp))
  /\ forall s,
       channelError_Exists s = false ->
       let cmds :=
         (cmds_prefix s
          ++ ApplicationDesc_MainClass (Jnlp_ApplicationDesc jnlp)
             :: (Argument_Text <$> ApplicationDesc_Arguments (Jnlp_ApplicationDesc jnlp)))%list in
       run_launch env (Some jnlp) s
       = Return (fault env (trace s) (OpStart (jrepath s) cmds))
           (set_trace (trace s ++ [OpStart (jrepath s) cmds])%list s).
Proof.
  intros Happ _.
  assert (cmds_main jnlp
          = ApplicationDesc_MainClass (Jnlp_ApplicationDesc jnlp)
            :: (Argument_Text <$> ApplicationDesc_Arguments (Jnlp_ApplicationDesc jnlp)))
    as Hmain.
  { unfold cmds_main.
    destruct (String.eqb_spec (ApplicationDesc_MainClass (Jnlp_ApplicationDesc jnlp)) "")
      as [Heq|_]; [contradiction | reflexivity]. }
  split; [exact Hmain|].
  intros s Herr. cbv zeta.
  unfold run_launch, bind, get, when, cmd_Start, issue, return_, ret.
  rewrite Herr, Hmain. reflexivity.
Qed.

Lemma launch_precedence_witness :
  cmds_main Fixture.both_blocks = ["Main"; "-v"; "in"]
  /\ forall s,
       channelError_Exists s = false ->
       let cmds := (cmds_prefix s ++ ["Main"; "-v"; "in"])%list in
       run_launch Fixture.single_jar (Some Fixture.both_blocks) s
       = Return (fault Fixture.single_jar (trace s) (OpStart (jrepath s) cmds))
           (set_trace (trace s ++ [OpStart (jrepath s) cmds])%list s).
Proof.
  apply (launch_precedence Fixture.single_jar Fixture.both_blocks); discriminate.
Defined.

(** [strings.Join] puts the separator in front of the first path that is
    added to an empty accumulator. *)
Lemma Join_empty_accumulator (path sep : string) :
  strings.Join [""; path] sep = sep +:+ path.
Proof. reflexivity. Qed.

(** [C2], evaluated.  In the scenario of the specification the jar is
    fetched to [/c/h/app/x.jar], but the classpath accumulator is
    [:/c/h/app/x.jar], with an empty entry in front, and this is what
    [-cp] gets. *)
Lemma single_jar_classpath :
  exists s,
    exec Fixture.single_jar [RunMain; RunGo 0; RunMain] (init Fixture.single_jar ∅)
    = Some (Running (MainDone None) s)
    /\ fs s !! "/c/h/app/x.jar" = Some (File "JAR")
    /\ jars s = ":/c/h/app/x.jar"
    /\ jars s <> "/c/h/app/x.jar"
    /\ last (trace s) = Some (OpStart "java" ["-cp"; ":/c/h/app/x.jar"; "Main"]).
Proof.
  eexists. split; [vm_compute; reflexivity|].
  split; [vm_compute; reflexivity|].
  split; [vm_compute; reflexivity|].
  split; [discriminate|].
  vm_compute; reflexivity.
Qed.

(** ** Join *)

(** [C1], evaluated.  The root descriptor of [Fixture.with_extension] has
    one extension and no jar of its own: the counter of the wait group is
    zero when the root call returns, [run] passes the barrier and starts
    the process while the goroutine of the extension has not run.  The jar
    [lib.jar] of the extension descriptor is neither fetched nor reported
    as an error, and is missing from the classpath. *)
Lemma join_returns_before_extension :
  exists s,
    exec Fixture.with_extension [RunMain; RunMain] (init Fixture.with_extension ∅)
    = Some (Running (MainDone None) s)
    /\ goroutines s = [GoJnlp "http://h/app/ext.jnlp" false]
    /\ channelError s = []
    /\ fs s !! "/c/h/app/lib.jar" = None
    /\ jars s = ""
    /\ trace s
       = [OpFileExists "/c"; OpMkdirAll "/c"; OpGet "http://h/app/a.jnlp";
          OpReadAll "http://h/app/a.jnlp"; OpStart "java" ["-Xmx256m"; "-cp"; ""; "Main"]].
Proof.
  eexists. split; [vm_compute; reflexivity|].
  evaluate.
Qed.

(** Had the goroutine of the extension run first, the jar would have been
    scheduled and fetched. *)
Lemma extension_jar_is_reachable :
  exists jnlp s,
    exec Fixture.with_extension [RunMain; RunGo 0; RunGo 0] (init Fixture.with_extension ∅)
    = Some (Running (MainWait jnlp) s)
    /\ wg s = 0
    /\ fs s !! "/c/h/app/lib.jar" = Some (File "LIB")
    /\ jars s = ":/c/h/app/lib.jar".
Proof.
  eexists _, _. split; [vm_compute; reflexivity|].
  evaluate.
Qed.

(** ** Cache reconciliation *)

Section Download.

Context (env : Env).

(** When the existence check fails, [download] returns [nil] at once. *)
Lemma download_stat_failure href filename s err :
  fault env (trace s) (OpFileExists filename) = Some err ->
  download env href filename s
  = Return None (set_trace (trace s ++ [OpFileExists filename])%list s).
Proof.
  intros Hf. unfold download. unfold bind at 1.
  unfold common_FileExists, bind, issue, get. cbv beta. rewrite Hf. reflexivity.
Qed.

End Download.

(** [C4], evaluated.  [os.Stat] fails on the cached jar: [download]
    returns [nil] without a request to the server, [runResource] records
    no error, and [run] starts the process although the jar is not in the
    cache. *)
Lemma stat_failure_reported_as_success :
  download Fixture.stat_fails "http://h/app/x.jar" "/c/h/app/x.jar"
    (Fixture.start Fixture.stat_fails)
  = Return None
      (set_trace [OpFileExists "/c/h/app/x.jar"] (Fixture.start Fixture.stat_fails))
  /\ exists s,
       exec Fixture.stat_fails [RunMain; RunGo 0; RunMain] (init Fixture.stat_fails ∅)
       = Some (Running (MainDone None) s)
       /\ channelError s = []
       /\ fs s !! "/c/h/app/x.jar" = None
       /\ trace s
          = [OpFileExists "/c"; OpMkdirAll "/c"; OpGet "http://h/app/a.jnlp";
             OpReadAll "http://h/app/a.jnlp"; OpFileExists "/c/h/app/x.jar";
             OpStart "java" ["-cp"; ":/c/h/app/x.jar"; "Main"]].
Proof.
  split; [vm_compute; reflexivity|].
  eexists. split; [vm_compute; reflexivity|].
  evaluate.
Qed.

(** ** Cache reconciliation: what [download] guarantees *)

(** The length the server declares for [href]: the [Content-Length]
    header as [download] reads it, 0 when the header is absent. *)
Definition declared_length (env : Env) (href : string) : Z :=
  (strconv.ParseInt (http_ContentLength env href)).1.

(** What [common.FileSize] finds at [filename]. *)
Definition local_size (env : Env) (m : gmap string Node) (filename : string) : option Z :=
  match m !! filename with
  | Some (File content) => Some (len content)
  | Some Dir => Some (dir_Size env filename)
  | None => None
  end.

(** The local file is absent, or its size differs from the declared
    length. *)
Definition stale (env : Env) (s : State) (href filename : string) : Prop :=
  local_size env (fs s) filename <> Some (declared_length env href).

(** The operations of the length probe, issued when the file exists. *)
Definition probe (m : gmap string Node) (href filename : string) : list Op :=
  match m !! filename with
  | Some _ => [OpHead href; OpFileSize filename]
  | None => []
  end.

(** The operations of a fetch, in the order [download] issues them. *)
Definition fetch (href filename : string) : list Op :=
  [OpGet href; OpMkdirAll (filepath.Dir filename); OpFileStore filename].

(** Neither operation of the length probe fails. *)
Definition probe_works (env : Env) (s : State) (href filename : string) : Prop :=
  match fs s !! filename with
  | Some _ =>
    fault env (trace s ++ [OpFileExists filename]) (OpHead href) = None
    /\ fault env (trace s ++ [OpFileExists filename; OpHead href]) (OpFileSize filename)
       = None
  | None => True
  end.

(** The file system after [os.MkdirAll(dir)] has succeeded. *)
Definition after_mkdir (m : gmap string Node) (dir : string) : gmap string Node :=
  foldr mkdir m (parents (String.length dir) dir).

(** No step of the fetch fails: the request, the creation of the parent
    directory, for which no parent may be a regular file, and the store,
    for which [filename] may not be a directory. *)
Definition fetch_works (env : Env) (s : State) (href filename : string) : Prop :=
  let dir := filepath.Dir filename in
  let tr := (trace s ++ OpFileExists filename :: probe (fs s) href filename)%list in
  fault env tr (OpGet href) = None
  /\ fault env (tr ++ [OpGet href]) (OpMkdirAll dir) = None
  /\ existsb (fun p => match fs s !! p with Some (File _) => true | _ => false end)
       (parents (String.length dir) dir) = false
  /\ fault env (tr ++ [OpGet href; OpMkdirAll dir]) (OpFileStore filename) = None
  /\ after_mkdir (fs s) dir !! filename <> Some Dir.

Ltac run_download :=
  cbv beta iota delta
    [download bind common_FileExists issue get ret when return_ or_else client_Head
     common_FileSize client_Get os_MkdirAll common_FileStore modify].

Ltac run_state := cbv beta iota zeta; cbn [fs trace set_trace set_fs fst snd].

Ltac split_trace :=
  cbn [fs trace set_trace set_fs]; rewrite <- ?app_assoc; reflexivity.

Ltac flat_traces := rewrite <- ?app_assoc in *; cbn [app] in *.

Ltac decided b := change (bool_decide (is_Some b)) with (match b with Some _ => true | None => false end).

(** What contradicts the hypotheses of a path of [download]. *)
Ltac absurd_path :=
  intros; flat_traces;
  repeat match goal with H : _ /\ _ |- _ => destruct H end;
  first [ discriminate | congruence | contradiction
        | match goal with H : In _ _ |- _ => cbn in H; intuition discriminate end ].

(** The conjuncts of the reconciliation theorem on one path. *)
Ltac settle_path :=
  eexists _, _, _; split; [reflexivity|]; split; [split_trace|];
  repeat match goal with |- _ /\ _ => split end;
  first [ solve [absurd_path]
        | solve [intros; assumption]
        | solve [intros; eexists; reflexivity]
        | solve [intros; reflexivity]
        | solve [intros; left; repeat split; first [reflexivity | congruence]]
        | solve [intros; right; repeat split; first [reflexivity | assumption]]
        | idtac ].

(** The paths of [download] through the fetch. *)
Ltac fetch_paths :=
  destruct (fault _ _ (OpGet _)) eqn:Hg; run_state; [settle_path|];
  destruct (fault _ _ (OpMkdirAll _)) eqn:Hm; run_state;
  [change (bool_decide (is_Some (Some ?e))) with true; run_state; settle_path|];
  destruct (existsb _ _) eqn:Hb; run_state;
  [change (bool_decide (is_Some (Some ?e))) with true; run_state; settle_path|];
  change (bool_decide (is_Some (@None error))) with false; run_state;
  destruct (fault _ _ (OpFileStore _)) eqn:Hst; run_state;
  [change (bool_decide (is_Some (Some ?e))) with true; run_state; settle_path|];
  destruct (foldr mkdir _ _ !! _) as [[|]|] eqn:Ha; run_state;
  try (change (bool_decide (is_Some (Some ?e))) with true; run_state);
  try (change (bool_decide (is_Some (@None error))) with false; run_state);
  settle_path.

Section Reconcile.

Context (env : Env).

(** [C3], amended.  When the existence check itself does not fail,
    [download] returns, having issued the existence check and then
    [ops].  A GET is among [ops] only if the local file is stale, that
    is absent or of a size other than the declared length; and if it
    is stale and the length probe works, the probe (made when the file
    exists) is followed by the GET.  When the probe works and the file
    is not stale, [download] returns [nil]; so it does when the file
    is stale and no step of the fetch fails.  When [download] returns
    [nil], either the file was not stale, only the length probe was
    issued and the file system is as before, or it was stale, the
    probe was followed by GET, [os.MkdirAll] of the parent directory
    and the store, in this order, and the file system is the one with
    the parent directories made and the file holding the body
    received. *)
Theorem download_reconciles href filename s :
  fault env (trace s) (OpFileExists filename) = None ->
  exists r s' ops,
    download env href filename s = Return r s'
    /\ trace s' = (trace s ++ OpFileExists filename :: ops)%list
    /\ (In (OpGet href) ops -> stale env s href filename)
    /\ (probe_works env s href filename -> stale env s href filename ->
        exists rest, ops = (probe (fs s) href filename ++ OpGet href :: rest)%list)
    /\ (probe_works env s href filename -> ~ stale env s href filename -> r = None)
    /\ (probe_works env s href filename -> stale env s href filename ->
        fetch_works env s href filename -> r = None)
    /\ (r = None ->
        (~ stale env s href filename
         /\ ops = [OpHead href; OpFileSize filename]
         /\ fs s' = fs s)
        \/
        (stale env s href filename
         /\ ops = (probe (fs s) href filename ++ fetch href filename)%list
         /\ fs s'
            = <[filename := File (http_Body env href)]>
                (after_mkdir (fs s) (filepath.Dir filename)))).
Proof.
  intros Hf.
  unfold stale, probe_works, fetch_works, after_mkdir, local_size, declared_length,
    probe, fetch.
  run_download. rewrite Hf. run_state.
  change (bool_decide (is_Some (@None error))) with false. run_state.
  destruct (fs s !! filename) as [n|] eqn:Hn.
  - change (bool_decide (is_Some (Some n))) with true. run_state.
    destruct (fault env _ (OpHead href)) eqn:Hh; run_state; [settle_path|].
    destruct (fault env _ (OpFileSize filename)) eqn:Hz; run_state; [settle_path|].
    rewrite Hn.
    destruct n as [content|]; run_state.
    all: match goal with
         | |- context [negb (?a =? ?b)] => destruct (Z.eqb_spec a b) as [Heq|Hne]
         end; cbn [negb]; run_state.
    + settle_path.
    + assert (Some (len content)
              <> Some (strconv.ParseInt (http_ContentLength env href)).1)
        as Hsize by congruence.
      fetch_paths.
    + settle_path.
    + assert (Some (dir_Size env filename)
              <> Some (strconv.ParseInt (http_ContentLength env href)).1)
        as Hsize by congruence.
      fetch_paths.
  - change (bool_decide (is_Some (@None Node))) with false. run_state.
    assert (@None Z <> Some (strconv.ParseInt (http_ContentLength env href)).1)
      as Hsize by discriminate.
    fetch_paths.
Qed.

End Reconcile.

(** The jar of [Fixture.no_length] is absent: it is requested, the
    directory [/c/h/app] is made and the body is stored. *)
Lemma download_reconciles_witness :
  let env := Fixture.no_length in
  let href := "http://h/app/x.jar" in
  let filename := "/c/h/app/x.jar" in
  let s := Fixture.start env in
  stale env s href filename
  /\ exists s',
       download env href filename s = Return None s'
       /\ trace s'
          = [OpFileExists filename; OpGet href; OpMkdirAll "/c/h/app"; OpFileStore filename]
       /\ fs s' !! filename = Some (File "JAR")
       /\ fs s' !! "/c/h/app" = Some Dir.
Proof.
  cbv zeta.
  assert (stale Fixture.no_length (Fixture.start Fixture.no_length)
            "http://h/app/x.jar" "/c/h/app/x.jar") as Hstale by discriminate.
  split; [exact Hstale|].
  destruct (download_reconciles Fixture.no_length "http://h/app/x.jar" "/c/h/app/x.jar"
              (Fixture.start Fixture.no_length) eq_refl)
    as (r & s' & ops & Hrun & Htrace & _ & _ & _ & Hfetch & Hnil).
  assert (r = None) as ->.
  { apply Hfetch; [exact Logic.I | exact Hstale|].
    repeat split; try reflexivity. vm_compute. discriminate. }
  destruct (Hnil eq_refl) as [[Hfresh _]|(_ & -> & Hfs)]; [contradiction|].
  exists s'. split; [exact Hrun|]. split; [exact Htrace|].
  rewrite Hfs. split; vm_compute; reflexivity.
Defined.

(** [C3] fails in its last part: the server of [Fixture.no_length] sends
    the jar without a [Content-Length] header, [download] takes the
    declared length to be 0, fetches the three bytes of the body and
    returns [nil]; the file exists, and its length is not the declared
    one. *)
Lemma fetched_length_not_declared :
  ~ (forall (env : Env) href filename s r s',
       download env href filename s = Return r s' ->
       r = None ->
       local_size env (fs s') filename = Some (declared_length env href)).
Proof.
  intros Hall.
  assert (exists s',
            download Fixture.no_length "http://h/app/x.jar" "/c/h/app/x.jar"
              (Fixture.start Fixture.no_length) = Return None s'
            /\ local_size Fixture.no_length (fs s') "/c/h/app/x.jar" = Some 3
            /\ declared_length Fixture.no_length "http://h/app/x.jar" = 0)
    as (s' & Hrun & Hsize & Hdecl).
  { eexists. evaluate. }
  specialize (Hall _ _ _ _ _ _ Hrun eq_refl).
  rewrite Hsize, Hdecl in Hall. discriminate Hall.
Qed.

(** ** Paths *)

Section Paths.

Lemma split_from_sep cur a r :
  filepath.split_from cur (a +:+ String "/" r)
  = (filepath.split_from cur a ++ filepath.split r)%list.
Proof.
  revert cur. induction a as [|c a IH]; intros cur; [reflexivity|].
  change (String c a +:+ String "/" r) with (String c (a +:+ String "/" r)).
  cbn [filepath.split_from].
  destruct (Ascii.eqb c "/"); rewrite IH; reflexivity.
Qed.

Lemma clean_elems_empty rooted l1 l2 out :
  filepath.clean_elems rooted (l1 ++ "" :: l2) out
  = filepath.clean_elems rooted (l1 ++ l2) out.
Proof.
  revert out. induction l1 as [|e l1 IH]; intros out; [reflexivity|].
  cbn [app filepath.clean_elems].
  destruct (String.eqb e "" || String.eqb e "."); [apply IH|].
  destruct (String.eqb e ".."); [|apply IH].
  destruct out as [|top out]; [destruct rooted; apply IH|].
  destruct (String.eqb top ".."); apply IH.
Qed.

Lemma isRooted_append a r : a <> "" -> filepath.isRooted (a +:+ r) = filepath.isRooted a.
Proof. destruct a; [congruence | reflexivity]. Qed.

(** [filepath.Join] leaves no trace of an empty element between two
    others. *)
Lemma Join_empty_element a b : filepath.Join [a; ""; b] = filepath.Join [a; b].
Proof.
  destruct (String.eqb_spec a "") as [->|Ha]; [reflexivity|].
  unfold filepath.Join. destruct (String.eqb_spec a ""); [contradiction|].
  cbn [strings.Join]. unfold filepath.Clean.
  rewrite !isRooted_append by assumption.
  unfold filepath.split, filepath.Separator.
  change (a +:+ "/" +:+ "" +:+ "/" +:+ b) with (a +:+ String "/" ("" +:+ String "/" b)).
  change (a +:+ "/" +:+ b) with (a +:+ String "/" b).
  rewrite !split_from_sep.
  change (filepath.split ("" +:+ String "/" b)) with ("" :: filepath.split b).
  rewrite clean_elems_empty. reflexivity.
Qed.

End Paths.

(** ** Cache layout *)

(** The directory of a descriptor fetched from [u], the path of a jar or
    native library and the path of a private runtime, as [runJnlp]
    computes them. *)
Definition jnlp_path (env : Env) (u : URL) : string :=
  filepath.Join [flag_cache env; common_Trim4Path env (URL_Host u)].

Definition app_path (env : Env) (u : URL) (href : string) : string :=
  filepath.Join [filepath.Join [jnlp_path env u; "app"]; href].

Definition jre_path (env : Env) (u : URL) (jre : PrivateJre) : string :=
  filepath.Join [jnlp_path env u; PrivateJre_Arch jre; jre_filename (PrivateJre_Href jre)].

(** [os.Stat] through [common.FileExists], the first operation of
    [download]. *)
Definition is_stat (op : Op) : Prop :=
  match op with
  | OpFileExists _ => True
  | _ => False
  end.

Section Grown.

Context `{UnicodeTables} (env : Env).

Variable T : Task -> Prop.
Variable O : Op -> Prop.
Variable s0 : State.

(** Since [s0] the pool has grown by goroutines satisfying [T] and the
    trace by operations satisfying [O]; the operating system is as it
    was. *)
Definition grown (s : State) : Prop :=
  operatingsystem s = operatingsystem s0
  /\ (exists new, goroutines s = (goroutines s0 ++ new)%list /\ Forall T new)
  /\ (exists ops, trace s = (trace s0 ++ ops)%list /\ Forall O ops).

Lemma grown_refl : grown s0.
Proof.
  split; [reflexivity|].
  split; exists []; rewrite app_nil_r; split; (reflexivity || constructor).
Qed.

Lemma grown_same s s' :
  grown s -> operatingsystem s' = operatingsystem s ->
  goroutines s' = goroutines s -> trace s' = trace s -> grown s'.
Proof. unfold grown. intros Hs -> -> ->. exact Hs. Qed.

Lemma grown_issue s op : grown s -> O op -> grown (set_trace (trace s ++ [op])%list s).
Proof.
  intros (Hos & Hpool & ops & Htrace & Hops) Hop.
  split; [exact Hos|]. split; [exact Hpool|].
  exists (ops ++ [op])%list. cbn. rewrite Htrace, app_assoc. split; [reflexivity|].
  apply Forall_app. split; [exact Hops | constructor; [exact Hop | constructor]].
Qed.

Lemma grown_go s t : grown s -> T t -> grown (set_goroutines (goroutines s ++ [t])%list s).
Proof.
  intros (Hos & (new & Hpool & Hnew) & Htrace) Ht.
  split; [exact Hos|]. split; [|exact Htrace].
  exists (new ++ [t])%list. cbn. rewrite Hpool, app_assoc. split; [reflexivity|].
  apply Forall_app. split; [exact Hnew | constructor; [exact Ht | constructor]].
Qed.

Hypothesis O_other : forall op, ~ is_stat op -> O op.

Ltac leaf :=
  first [ intros ? ?; apply grown_issue; [assumption | first [assumption | apply O_other; exact id]]
        | intros ? ?; eapply grown_same; [eassumption | reflexivity ..]
        | intros ? ?; solve [eauto]
        | intros ? ? ?; solve [eauto] ].
Ltac walk := unfold_ops; repeat (first [triple_step | leaf]).

Lemma download_grown href filename :
  O (OpFileExists filename) ->
  inv grown (fun _ => grown) (fun _ _ => False) (download env href filename).
Proof. intros Hstat. unfold download. walk. Qed.

Lemma runUnzip_grown filename path :
  inv grown (fun _ => grown) (fun _ _ => False) (runUnzip env filename path).
Proof. unfold runUnzip. walk. Qed.

Lemma runSelfextract_grown filename :
  inv grown (fun _ => grown) (fun _ _ => False) (runSelfextract env filename).
Proof. unfold runSelfextract. walk. Qed.

Lemma runResource_grown url path doUnzip doExtract :
  O (OpFileExists path) ->
  inv grown (fun _ => grown) (fun _ => grown) (runResource env url path doUnzip doExtract).
Proof.
  intros Hstat. unfold runResource. apply triple_defer with (Q1 := grown).
  - repeat (first [ apply triple_call; first [ apply download_grown; exact Hstat
                                             | apply runUnzip_grown
                                             | apply runSelfextract_grown ]
                  | unfold channelError_Add; triple_step
                  | leaf ]).
  - walk.
Qed.

End Grown.

(** An artifact of a resource group that [runJnlp] hands to a goroutine. *)
Inductive Artifact :=
| ArtifactJar (jar : Jar)
| ArtifactExtension (extension : Extension)
| ArtifactNativelib (nativelib : Jar).

Definition artifact_href (a : Artifact) : string :=
  match a with
  | ArtifactJar jar => Jar_Href jar
  | ArtifactExtension extension => Extension_Href extension
  | ArtifactNativelib nativelib => Jar_Href nativelib
  end.

(** The artifacts of a resource group, in the order in which [runJnlp]
    goes through them; none when the group is not active. *)
Definition group_artifacts `{UnicodeTables} (arch os : string) (resource : Resource)
    : list Artifact :=
  if group_active resource arch os then
    ((ArtifactJar <$> Resource_Jars resource)
     ++ (ArtifactExtension <$> Resource_Extensions resource)
     ++ (ArtifactNativelib <$> Resource_Nativelibs resource))%list
  else [].

Definition artifacts `{UnicodeTables} (arch os : string) (resources : list Resource)
    : list Artifact :=
  flat_map (group_artifacts arch os) resources.

(** The private runtimes whose filter matches. *)
Definition matching_runtimes `{UnicodeTables} (arch os : string) (jres : list PrivateJre)
    : list PrivateJre :=
  List.filter
    (fun jre => relevant (PrivateJre_Arch jre) (PrivateJre_Os jre) arch os) jres.

(** The [codebase] of [runJnlp]: that of the descriptor, or the address
    up to its last [/]. *)
Definition codebase_of (address : string) (jnlp : Jnlp) : string :=
  if String.eqb (Jnlp_Codebase jnlp) ""
  then substring 0 (Z.to_nat (strings.LastIndexByte address "/"%char)) address
  else Jnlp_Codebase jnlp.

(** The goroutine [t] is the one that [runJnlp] starts for the artifact
    [a]: on the URL to which the [href] of [a] resolves and, for a jar or
    native library, on the path of this [href] under [app]. *)
Definition started_for (env : Env) (u : URL) (codebase : string) (a : Artifact) (t : Task)
    : Prop :=
  exists URL,
    resolve env u codebase (artifact_href a) = inr URL
    /\ t = match a with
           | ArtifactJar jar =>
             GoResource (URL_String URL) (app_path env u (Jar_Href jar)) false false
           | ArtifactExtension _ => GoJnlp (URL_String URL) false
           | ArtifactNativelib nativelib =>
             GoResource (URL_String URL) (app_path env u (Jar_Href nativelib)) true false
           end.

(** The paths of the existence checks among [ops]. *)
Fixpoint stat_paths (ops : list Op) : list string :=
  match ops with
  | [] => []
  | OpFileExists path :: ops' => path :: stat_paths ops'
  | _ :: ops' => stat_paths ops'
  end.

(** With what the state had before [get]. *)
Lemma triple_bind_get {R B} (P Q : State -> Prop) (Qr : R -> State -> Prop)
    (Qh : HaltKind -> State -> Prop) (k : State -> Body R B) :
  (forall s0, P s0 -> triple P (k s0) Q Qr Qh) -> triple P (bind get k) Q Qr Qh.
Proof. intros Hk s Hs. apply (Hk s Hs s Hs). Qed.

Section Layout.

Context `{UnicodeTables} (env : Env).

Variables (address : string) (u : URL) (jnlp : Jnlp) (s0 : State).

(** A goroutine is the one of an artifact of an active group of the
    descriptor. *)
Definition task_layout (t : Task) : Prop :=
  exists a,
    a ∈ artifacts (flag_arch env) (operatingsystem s0) (Jnlp_Resources jnlp)
    /\ started_for env u (codebase_of address jnlp) a t.

(** An existence check is that of a private runtime of the descriptor
    whose filter matches, at its path. *)
Definition stat_layout (op : Op) : Prop :=
  match op with
  | OpFileExists path =>
    exists jre,
      jre ∈ matching_runtimes (flag_arch env) (operatingsystem s0) (Jnlp_PrivateJres jnlp)
      /\ path = jre_path env u jre
  | _ => True
  end.

Hypothesis Hu : url_Parse env address = inr u.
Hypothesis Hjnlp :
  xml_Decode env (common_ToUTF8 env (http_Body env address)) = inr jnlp.

Lemma stat_layout_other op : ~ is_stat op -> stat_layout op.
Proof. destruct op; cbn; tauto. Qed.

Lemma artifact_of_group resource a :
  resource ∈ Jnlp_Resources jnlp ->
  group_active resource (flag_arch env) (operatingsystem s0) = true ->
  a ∈ ((ArtifactJar <$> Resource_Jars resource)
       ++ (ArtifactExtension <$> Resource_Extensions resource)
       ++ (ArtifactNativelib <$> Resource_Nativelibs resource))%list ->
  a ∈ artifacts (flag_arch env) (operatingsystem s0) (Jnlp_Resources jnlp).
Proof.
  intros Hres Hactive Ha. unfold artifacts.
  apply list_elem_of_In, in_flat_map. exists resource.
  split; [apply list_elem_of_In, Hres|].
  unfold group_artifacts. rewrite Hactive. apply list_elem_of_In, Ha.
Qed.

Lemma runtime_matching jre :
  jre ∈ Jnlp_PrivateJres jnlp ->
  relevant (PrivateJre_Arch jre) (PrivateJre_Os jre) (flag_arch env) (operatingsystem s0)
  = true ->
  jre ∈ matching_runtimes (flag_arch env) (operatingsystem s0) (Jnlp_PrivateJres jnlp).
Proof.
  intros Hjre Hrel. apply list_elem_of_In, filter_In.
  split; [apply list_elem_of_In, Hjre | exact Hrel].
Qed.

(** The URL and the descriptor that [runJnlp] obtains are [u] and
    [jnlp]. *)
Ltac same_descriptor :=
  repeat match goal with
         | Hx : url_Parse env address = inr ?a |- _ =>
           tryif constr_eq a u then fail else (rewrite Hu in Hx; injection Hx as <-)
         | Hx : xml_Decode env (common_ToUTF8 env ?c) = inr ?a |- _ =>
           tryif constr_eq a jnlp then fail
           else (change c with (http_Body env address) in Hx;
                 rewrite Hjnlp in Hx; injection Hx as <-)
         end.

Ltac on_start :=
  match goal with
  | Hs : grown _ _ _ ?s, Hc : _ (operatingsystem ?s) = true |- _ =>
    rewrite <- (proj1 Hs); exact Hc
  end.

Ltac its_codebase :=
  unfold codebase_of;
  match goal with
  | Hb : String.eqb (Jnlp_Codebase jnlp) "" = _ |- _ => rewrite Hb
  end;
  eassumption.

Ltac scheduled :=
  intros ? ?; same_descriptor; apply grown_go; [assumption|];
  match goal with
  | Hj : ?jar ∈ Resource_Jars ?resource |- task_layout (GoResource _ _ false _) =>
    exists (ArtifactJar jar); split;
    [ eapply artifact_of_group; [eassumption | on_start |];
      apply elem_of_app; left; apply list_elem_of_fmap_2, Hj
    | eexists; split; [its_codebase | reflexivity] ]
  | Hj : ?extension ∈ Resource_Extensions ?resource |- task_layout (GoJnlp _ _) =>
    exists (ArtifactExtension extension); split;
    [ eapply artifact_of_group; [eassumption | on_start |];
      apply elem_of_app; right; apply elem_of_app; left; apply list_elem_of_fmap_2, Hj
    | eexists; split; [its_codebase | reflexivity] ]
  | Hj : ?nativelib ∈ Resource_Nativelibs ?resource |- task_layout (GoResource _ _ true _) =>
    exists (ArtifactNativelib nativelib); split;
    [ eapply artifact_of_group; [eassumption | on_start |];
      apply elem_of_app; right; apply elem_of_app; right; apply list_elem_of_fmap_2, Hj
    | eexists; split; [its_codebase | reflexivity] ]
  end.

Ltac fetched_inline :=
  same_descriptor; apply triple_call_proc, runResource_grown;
  [ apply stat_layout_other
  | eexists; split; [|reflexivity]; apply runtime_matching; [eassumption | on_start] ].

Ltac leaf :=
  first [ intros ? ?; apply grown_issue; [assumption | apply stat_layout_other; exact id]
        | intros ? ?; eapply grown_same; [eassumption | reflexivity ..]
        | intros ? ?; assumption
        | scheduled ].

Abbreviation laid_out := (grown task_layout stat_layout s0).

Lemma runJnlp_layout doHeader :
  inv laid_out (fun _ => laid_out) (fun _ => laid_out) (runJnlp env address doHeader).
Proof.
  unfold runJnlp.
  repeat (first
    [ lazymatch goal with
      | |- triple _ (bind get _) _ _ _ => apply triple_bind_get; intros ? ?
      | |- triple _ (call_proc _) _ _ _ => fetched_inline
      end
    | unfold client_Get, ioutil_ReadAll, go, wg_Add; triple_step
    | leaf ]).
Qed.

End Layout.

(** A loop that makes progress through its list. *)
Lemma triple_for_range_progress {R A} (J : list A -> State -> Prop) (P Q : State -> Prop)
    (Qr : R -> State -> Prop) (Qh : HaltKind -> State -> Prop)
    (l : list A) (body : A -> Body R unit) :
  (forall s, P s -> J [] s) ->
  (forall s, J l s -> Q s) ->
  (forall done x rest,
     l = (done ++ x :: rest)%list -> triple (J done) (body x) (J (done ++ [x])%list) Qr Qh) ->
  triple P (for_range l body) Q Qr Qh.
Proof.
  intros Hpre Hpost Hbody.
  assert (forall rest done, l = (done ++ rest)%list ->
            triple (J done) (for_range rest body) (J l) Qr Qh) as Hloop.
  { induction rest as [|x rest IH]; intros done Hl.
    - rewrite app_nil_r in Hl. subst done. apply triple_ret. auto.
    - cbn [for_range]. eapply triple_bind; [apply (Hbody done x rest Hl)|].
      intros _. apply IH. rewrite Hl, <- app_assoc. reflexivity. }
  eapply triple_conseq; [apply (Hloop l [] eq_refl) | auto ..].
Qed.

Lemma stat_paths_app ops1 ops2 :
  stat_paths (ops1 ++ ops2) = (stat_paths ops1 ++ stat_paths ops2)%list.
Proof.
  induction ops1 as [|op ops1 IH]; [reflexivity|].
  destruct op; cbn; rewrite IH; reflexivity.
Qed.

Section Complete.

Context `{UnicodeTables} (env : Env).

Variables (address : string) (u : URL) (jnlp : Jnlp) (s0 : State).

(** The [href] resolves against the codebase. *)
Definition resolves (href : string) : Prop :=
  exists URL, resolve env u (codebase_of address jnlp) href = inr URL.

Definition resolved (href : string) : string :=
  match resolve env u (codebase_of address jnlp) href with
  | inr URL => URL_String URL
  | inl _ => ""
  end.

Definition task_of (a : Artifact) : Task :=
  match a with
  | ArtifactJar jar =>
    GoResource (resolved (Jar_Href jar)) (app_path env u (Jar_Href jar)) false false
  | ArtifactExtension extension => GoJnlp (resolved (Extension_Href extension)) false
  | ArtifactNativelib nativelib =>
    GoResource (resolved (Jar_Href nativelib)) (app_path env u (Jar_Href nativelib))
      true false
  end.

(** Since [s0] goroutines were started for the artifacts [done] and
    existence checks made for the private runtimes [jres], and the
    counter of the wait group is at least [d]. *)
Definition progress (d : Z) (done : list Artifact) (jres : list PrivateJre) (s : State)
    : Prop :=
  operatingsystem s = operatingsystem s0
  /\ d <= wg s
  /\ goroutines s = (goroutines s0 ++ (task_of <$> done))%list
  /\ exists ops,
       trace s = (trace s0 ++ ops)%list /\ stat_paths ops = jre_path env u <$> jres.

Lemma progress_eq d done done' jres jres' s :
  done = done' -> jres = jres' -> progress d done jres s -> progress d done' jres' s.
Proof. intros -> ->. auto. Qed.

Lemma progress_go d done jres a t s :
  t = task_of a ->
  progress d done jres s ->
  progress d (done ++ [a]) jres (set_goroutines (goroutines s ++ [t])%list s).
Proof.
  intros -> (Hos & Hwg & Hpool & Hops).
  split; [exact Hos|]. split; [exact Hwg|]. split; [|exact Hops].
  cbn. rewrite Hpool, fmap_app, app_assoc. reflexivity.
Qed.

Lemma progress_issue d done jres op s :
  stat_paths [op] = [] ->
  progress d done jres s ->
  progress d done jres (set_trace (trace s ++ [op])%list s).
Proof.
  intros Hop (Hos & Hwg & Hpool & ops & Htrace & Hstat).
  split; [exact Hos|]. split; [exact Hwg|]. split; [exact Hpool|].
  exists (ops ++ [op])%list. cbn. rewrite Htrace, app_assoc, stat_paths_app, Hop, app_nil_r.
  split; [reflexivity | exact Hstat].
Qed.

Lemma progress_stat d done jres jre s :
  progress d done jres s ->
  progress d done (jres ++ [jre])
    (set_trace (trace s ++ [OpFileExists (jre_path env u jre)])%list s).
Proof.
  intros (Hos & Hwg & Hpool & ops & Htrace & Hstat).
  split; [exact Hos|]. split; [exact Hwg|]. split; [exact Hpool|].
  exists (ops ++ [OpFileExists (jre_path env u jre)])%list. cbn.
  rewrite Htrace, app_assoc, stat_paths_app, Hstat, fmap_app.
  split; reflexivity.
Qed.

Lemma progress_wg d d' done jres s :
  d' <= d -> progress d done jres s -> progress d' done jres s.
Proof.
  intros Hd (Hos & Hwg & Hrest). split; [exact Hos|]. split; [lia | exact Hrest].
Qed.

(** A state update that leaves the operating system, the counter, the
    pool and the trace as they are. *)
Ltac kept :=
  intros ? Hs; exact Hs.

Ltac walk_kept :=
  repeat (first
    [ unfold_ops; triple_step
    | intros ? Hs; apply progress_issue; [reflexivity | exact Hs]
    | kept
    | intros ? ? Hs; exact Hs ]).

(** [wg.Add(1)] does not panic. *)
Lemma wg_Add_progress {R} d done jres (Qr : R -> State -> Prop)
    (Qh : HaltKind -> State -> Prop) :
  0 <= d ->
  triple (progress d done jres) (@wg_Add R 1) (progress (d + 1) done jres) Qr Qh.
Proof.
  intros Hd s (Hos & Hwg & Hrest). unfold wg_Add, bind, get, panic, modify.
  destruct (Z.ltb_spec (wg s + 1) 0); [lia|].
  split; [exact Hos|]. split; [cbn; lia | exact Hrest].
Qed.

(** The resource task of a private runtime checks its path once and
    settles its unit of the counter. *)
Lemma runResource_progress d done jres jre url doUnzip doExtract :
  0 <= d ->
  triple (progress (d + 1) done jres)
    (runResource env url (jre_path env u jre) doUnzip doExtract)
    (progress d done (jres ++ [jre])) (fun _ => progress d done (jres ++ [jre]))
    (fun _ _ => False).
Proof.
  intros Hd. unfold runResource.
  apply triple_defer with (Q1 := progress (d + 1) done (jres ++ [jre])).
  - eapply triple_bind with (Q1 := progress (d + 1) done (jres ++ [jre])).
    + apply triple_call. unfold download.
      eapply triple_bind with (Q1 := progress (d + 1) done (jres ++ [jre])).
      * unfold common_FileExists.
        eapply triple_bind with (Q1 := progress (d + 1) done (jres ++ [jre])).
        { apply triple_issue. intros s Hs. apply progress_stat, Hs. }
        intros f. walk_kept.
      * intros [b err]. walk_kept.
    + intros err.
      repeat (first
        [ apply triple_call; first [unfold runUnzip | unfold runSelfextract]; walk_kept
        | unfold channelError_Add; triple_step
        | kept ]).
  - intros s (Hos & Hwg & Hrest). unfold wg_Done, wg_Add, bind, get, panic, modify.
    destruct (Z.ltb_spec (wg s + -1) 0); [lia|].
    split; [exact Hos|]. split; [cbn; lia | exact Hrest].
Qed.

Abbreviation arch := (flag_arch env).
Abbreviation os := (operatingsystem s0).
Abbreviation all_artifacts := (artifacts arch os (Jnlp_Resources jnlp)).
Abbreviation all_runtimes := (matching_runtimes arch os (Jnlp_PrivateJres jnlp)).

Hypothesis artifacts_resolve : forall a, a ∈ all_artifacts -> resolves (artifact_href a).
Hypothesis runtimes_resolve :
  forall jre, jre ∈ all_runtimes -> resolves (PrivateJre_Href jre).

Lemma artifacts_snoc done resource :
  artifacts arch os (done ++ [resource])
  = (artifacts arch os done ++ group_artifacts arch os resource)%list.
Proof. unfold artifacts. rewrite flat_map_app. cbn. rewrite app_nil_r. reflexivity. Qed.

Lemma matching_snoc done jre :
  matching_runtimes arch os (done ++ [jre])
  = (matching_runtimes arch os done
     ++ if relevant (PrivateJre_Arch jre) (PrivateJre_Os jre) arch os then [jre] else [])%list.
Proof. unfold matching_runtimes. rewrite List.filter_app. reflexivity. Qed.

Lemma artifact_resolves done resource rest a :
  Jnlp_Resources jnlp = (done ++ resource :: rest)%list ->
  group_active resource arch os = true ->
  a ∈ ((ArtifactJar <$> Resource_Jars resource)
       ++ (ArtifactExtension <$> Resource_Extensions resource)
       ++ (ArtifactNativelib <$> Resource_Nativelibs resource))%list ->
  resolves (artifact_href a).
Proof.
  intros Hl Hactive Ha. apply artifacts_resolve.
  apply (artifact_of_group env jnlp s0 resource a); [|exact Hactive | exact Ha].
  rewrite Hl. apply elem_of_app. right. left.
Qed.

Lemma runtime_resolves done jre rest :
  Jnlp_PrivateJres jnlp = (done ++ jre :: rest)%list ->
  relevant (PrivateJre_Arch jre) (PrivateJre_Os jre) arch os = true ->
  resolves (PrivateJre_Href jre).
Proof.
  intros Hl Hrel. apply runtimes_resolve.
  apply (runtime_matching env jnlp s0 jre); [|exact Hrel].
  rewrite Hl. apply elem_of_app. right. left.
Qed.

Lemma resolved_as href URL :
  resolve env u (codebase_of address jnlp) href = inr URL -> URL_String URL = resolved href.
Proof. intros Hr. unfold resolved. rewrite Hr. reflexivity. Qed.

(** The loops of [runJnlp] and its last statement. *)
Definition loops_complete (m : Body (option Jnlp) Empty_set) : Prop :=
  triple (progress 0 [] []) m (fun _ => False)
    (fun r s => r = Some jnlp /\ progress 0 all_artifacts all_runtimes s)
    (fun _ _ => False).

Ltac same_lists := rewrite ?fmap_app, ?app_nil_r, ?app_assoc; reflexivity.

Ltac reordered :=
  intros ? Hs; eapply progress_eq; [|reflexivity | exact Hs]; same_lists.

Ltac in_group :=
  match goal with
  | Hj : _ = (_ ++ ?x :: _)%list |- _ ∈ _ =>
    rewrite ?elem_of_app, !list_elem_of_fmap; rewrite Hj;
    first [ left; eexists; split; [reflexivity|]; apply elem_of_app; right; left
          | right; left; eexists; split; [reflexivity|]; apply elem_of_app; right; left
          | right; right; eexists; split; [reflexivity|]; apply elem_of_app; right; left ]
  end.

Ltac started art HURL :=
  unfold go; apply triple_modify; intros ? Hs;
  eapply progress_eq;
  [ | reflexivity
    | eapply progress_go with (a := art);
      [ | eapply progress_wg; [|exact Hs]; lia ];
      cbn [task_of]; rewrite (resolved_as _ _ HURL); reflexivity ];
  same_lists.

(** With the descriptor at hand and every [href] resolving, [runJnlp]
    goes through all its loops. *)
Lemma runJnlp_complete doHeader s :
  arrives env address s ->
  http_StatusCode env address = 200 ->
  url_Parse env address = inr u ->
  xml_Decode env (common_ToUTF8 env (http_Body env address)) = inr jnlp ->
  (Jnlp_Codebase jnlp = "" -> 0 <= strings.LastIndexByte address "/"%char) ->
  0 <= wg s ->
  s0 = arrived address s ->
  exists s',
    runJnlp env address doHeader s = Return (Some jnlp) s'
    /\ progress 0 all_artifacts all_runtimes s'.
Proof.
  intros [Hget Hread] Hstatus Hparse Hdecode Hcodebase Hwg Hs0. unfold runJnlp.
  rewrite (bind_Val _ _ _ _ _ (client_Get_works env address s Hget)).
  cbn [or_else]. rewrite (bind_Val _ _ _ _ _ (eq_refl : ret _ _ = Val _ _)).
  cbn [fst snd].
  rewrite (bind_Val _ _ _ _ _ (ioutil_ReadAll_works env address _ s Hread)).
  cbn [or_else]. rewrite (bind_Val _ _ _ _ _ (eq_refl : ret _ _ = Val _ _)).
  rewrite Hstatus, Hparse. cbn [negb Z.eqb Pos.eqb when or_else].
  rewrite (bind_Val _ _ _ _ _ (eq_refl : ret _ _ = Val _ _)).
  rewrite (bind_Val _ _ _ _ _ (eq_refl : ret _ _ = Val _ _)).
  rewrite Hdecode. cbn [or_else].
  rewrite (bind_Val _ _ _ _ _ (eq_refl : ret _ _ = Val _ _)).
  erewrite (bind_Val _ _ _ (codebase_of address jnlp)); cycle 1.
  { unfold codebase_of. destruct (String.eqb_spec (Jnlp_Codebase jnlp) ""); [|reflexivity].
    destruct (Z.ltb_spec (strings.LastIndexByte address "/"%char) 0);
      [specialize (Hcodebase ltac:(assumption)); lia | reflexivity]. }
  rewrite <- Hs0.
  match goal with
  | |- exists s', ?m s0 = _ /\ _ => assert (loops_complete m) as Hloops
  end.
  { unfold loops_complete.
    eapply triple_bind with (Q1 := progress 0 all_artifacts []).
    - apply triple_for_range_progress
        with (J := fun done => progress 0 (artifacts arch os done) []);
        [kept | kept |].
      intros done resource rest Hl. apply triple_bind_get. intros s1 Hs1.
      rewrite (proj1 Hs1). apply triple_when; intros Hactive.
      + pose proof (artifact_resolves done resource rest) as Hres.
        specialize (fun a => Hres a Hl Hactive).
        rewrite artifacts_snoc. unfold group_artifacts. rewrite Hactive.
        eapply triple_bind
          with (Q1 := progress 0
                        (artifacts arch os done ++ (ArtifactJar <$> Resource_Jars resource))
                        []).
        { apply triple_for_range_progress
            with (J := fun jars =>
                         progress 0 (artifacts arch os done ++ (ArtifactJar <$> jars)) []);
            [reordered | kept |].
          intros jars jar rest' Hj.
          destruct (Hres (ArtifactJar jar)) as [URL HURL]; [in_group|].
          cbn [artifact_href] in HURL. rewrite HURL. cbn [or_else].
          eapply triple_bind; [apply wg_Add_progress; lia|]. intros _.
          apply triple_bind_ret. cbv beta.
          apply triple_seq; [apply triple_modify; kept | intros _].
          started (ArtifactJar jar) HURL. }
        intros _.
        eapply triple_bind
          with (Q1 := progress 0
                        (artifacts arch os done
                         ++ (ArtifactJar <$> Resource_Jars resource)
                         ++ (ArtifactExtension <$> Resource_Extensions resource))
                        []).
        { apply triple_for_range_progress
            with (J := fun extensions =>
                         progress 0
                           (artifacts arch os done
                            ++ (ArtifactJar <$> Resource_Jars resource)
                            ++ (ArtifactExtension <$> extensions)) []);
            [reordered | kept |].
          intros extensions extension rest' Hj.
          destruct (Hres (ArtifactExtension extension)) as [URL HURL]; [in_group|].
          cbn [artifact_href] in HURL. rewrite HURL. cbn [or_else].
          apply triple_bind_ret. cbv beta.
          started (ArtifactExtension extension) HURL. }
        intros _.
        eapply triple_bind
          with (Q1 := progress 0
                        (artifacts arch os done
                         ++ (ArtifactJar <$> Resource_Jars resource)
                         ++ (ArtifactExtension <$> Resource_Extensions resource)
                         ++ (ArtifactNativelib <$> Resource_Nativelibs resource))
                        []).
        { apply triple_for_range_progress
            with (J := fun nativelibs =>
                         progress 0
                           (artifacts arch os done
                            ++ (ArtifactJar <$> Resource_Jars resource)
                            ++ (ArtifactExtension <$> Resource_Extensions resource)
                            ++ (ArtifactNativelib <$> nativelibs)) []);
            [reordered | kept |].
          intros nativelibs nativelib rest' Hj.
          destruct (Hres (ArtifactNativelib nativelib)) as [URL HURL]; [in_group|].
          cbn [artifact_href] in HURL. rewrite HURL. cbn [or_else].
          eapply triple_bind; [apply wg_Add_progress; lia|]. intros _.
          apply triple_bind_ret. cbv beta.
          apply triple_seq; [apply triple_modify; kept | intros _].
          started (ArtifactNativelib nativelib) HURL. }
        intros _.
        repeat (first
          [ lazymatch goal with
            | |- triple _ (bind get _) _ _ _ => apply triple_bind_get; intros ? ?
            end
          | triple_step
          | kept ]).
      + intros s2 Hs2. rewrite artifacts_snoc. unfold group_artifacts. rewrite Hactive.
        rewrite app_nil_r. exact Hs2.
    - intros _. eapply triple_bind with (Q1 := progress 0 all_artifacts all_runtimes).
      + apply triple_for_range_progress
          with (J := fun jres => progress 0 all_artifacts (matching_runtimes arch os jres));
          [kept | kept |].
        intros jres jre rest Hj. apply triple_bind_get. intros s1 Hs1.
        rewrite (proj1 Hs1). rewrite matching_snoc.
        apply triple_when; intros Hrel; rewrite Hrel.
        * destruct (runtime_resolves jres jre rest Hj Hrel) as [URL HURL].
          rewrite HURL. cbn [or_else].
          eapply triple_bind; [apply wg_Add_progress; lia|]. intros _.
          apply triple_bind_ret. cbv beta.
          eapply triple_bind
            with (Q1 := progress 1 all_artifacts (matching_runtimes arch os jres)).
          { apply triple_when; [intros _; apply triple_modify; kept | intros _; kept]. }
          intros _. apply triple_call_proc.
          apply (runResource_progress 0 all_artifacts (matching_runtimes arch os jres) jre).
          lia.
        * intros s2 Hs2. rewrite app_nil_r. exact Hs2.
      + intros _. apply triple_return. intros s2 Hs2. split; [reflexivity | exact Hs2]. }
  assert (progress 0 [] [] s0) as Hstart.
  { split; [reflexivity|]. split; [rewrite Hs0; exact Hwg|].
    split; [symmetry; apply app_nil_r|]. exists []. split; [symmetry; apply app_nil_r|].
    reflexivity. }
  specialize (Hloops s0 Hstart).
  match goal with
  | |- exists s', ?m s0 = _ /\ _ => destruct (m s0) as [a s'|r s'|h s']
  end; [destruct Hloops | | destruct Hloops].
  destruct Hloops as [-> Hend]. exists s'. split; [reflexivity | exact Hend].
Qed.

End Complete.

Lemma started_for_all `{UnicodeTables} (env : Env) address u jnlp (l : list Artifact) :
  (forall a, a ∈ l -> resolves env address u jnlp (artifact_href a)) ->
  Forall2 (started_for env u (codebase_of address jnlp)) l (task_of env address u jnlp <$> l).
Proof.
  induction l as [|a l IH]; intros Hl; [constructor|].
  cbn [fmap list_fmap]. constructor.
  - destruct (Hl a) as [URL HURL]; [left|].
    exists URL. split; [exact HURL|].
    destruct a; cbn [artifact_href] in HURL; cbn [task_of];
      rewrite <- (resolved_as env address u jnlp _ _ HURL); reflexivity.
  - apply IH. intros a' Ha'. apply Hl. right. exact Ha'.
Qed.

(** [C8], amended.  Let [address] parse to [u] and its body decode to
    [jnlp].  However [runJnlp] ends, every goroutine it has started is the
    one of an artifact of an active resource group of the descriptor, on
    the URL of its [href] and, for a jar or native library, on
    [filepath.Join(cache, host, "app", href)] for the same [href]; and
    every existence check it has issued is that of a private runtime of
    the descriptor whose filter matches, at
    [filepath.Join(cache, host, arch, filename)] with [arch] the attribute
    of the runtime and [filename] what follows the last [/] of its [href].
    When the descriptor arrives with status 200 and every [href]
    resolves, [runJnlp] returns the descriptor, having started exactly
    the goroutines of the artifacts of the active groups, in their order,
    and checked exactly the paths of the matching private runtimes, in
    their order.  When the [arch] attribute of a runtime is empty its path
    is [filepath.Join(cache, host, filename)]. *)
Theorem cache_layout `{UnicodeTables} (env : Env) address doHeader u jnlp s :
  url_Parse env address = inr u ->
  xml_Decode env (common_ToUTF8 env (http_Body env address)) = inr jnlp ->
  let codebase := codebase_of address jnlp in
  let scheduled := artifacts (flag_arch env) (operatingsystem s) (Jnlp_Resources jnlp) in
  let runtimes :=
    matching_runtimes (flag_arch env) (operatingsystem s) (Jnlp_PrivateJres jnlp) in
  (exists new ops,
     let s' := outcome_state (runJnlp env address doHeader s) in
     goroutines s' = (goroutines s ++ new)%list
     /\ trace s' = (trace s ++ ops)%list
     /\ (forall t, t ∈ new -> exists a, a ∈ scheduled /\ started_for env u codebase a t)
     /\ (forall path,
           OpFileExists path ∈ ops ->
           exists jre, jre ∈ runtimes /\ path = jre_path env u jre))
  /\ (arrives env address s ->
      http_StatusCode env address = 200 ->
      (Jnlp_Codebase jnlp = "" -> 0 <= strings.LastIndexByte address "/"%char) ->
      0 <= wg s ->
      (forall a, a ∈ scheduled ->
                 exists URL, resolve env u codebase (artifact_href a) = inr URL) ->
      (forall jre, jre ∈ runtimes ->
                   exists URL, resolve env u codebase (PrivateJre_Href jre) = inr URL) ->
      exists s' new ops,
        runJnlp env address doHeader s = Return (Some jnlp) s'
        /\ goroutines s' = (goroutines s ++ new)%list
        /\ Forall2 (started_for env u codebase) scheduled new
        /\ trace s' = (trace s ++ OpGet address :: OpReadAll address :: ops)%list
        /\ stat_paths ops = jre_path env u <$> runtimes)
  /\ (forall jre,
        PrivateJre_Arch jre = "" ->
        jre_path env u jre
        = filepath.Join [jnlp_path env u; jre_filename (PrivateJre_Href jre)]).
Proof.
  intros Hu Hjnlp. cbv zeta. split; [|split].
  - pose proof (runJnlp_layout env address u jnlp s Hu Hjnlp doHeader s
                  (grown_refl _ _ _)) as Hrun.
    assert (grown (task_layout env address u jnlp s) (stat_layout env u jnlp s) s
              (outcome_state (runJnlp env address doHeader s)))
      as (_ & (new & Hpool & Hnew) & (ops & Htrace & Hops)).
    { destruct (runJnlp env address doHeader s); exact Hrun. }
    exists new, ops. split; [exact Hpool|]. split; [exact Htrace|]. split.
    + intros t Hin. rewrite Forall_forall in Hnew. exact (Hnew _ Hin).
    + intros path Hin. rewrite Forall_forall in Hops. exact (Hops _ Hin).
  - intros Harrives Hstatus Hcodebase Hwg Hartifacts Hruntimes.
    destruct (runJnlp_complete env address u jnlp (arrived address s)
                Hartifacts Hruntimes doHeader s Harrives Hstatus Hu Hjnlp Hcodebase Hwg
                eq_refl)
      as (s' & Hrun & _ & _ & Hpool & ops & Htrace & Hstat).
    exists s', (task_of env address u jnlp
                <$> artifacts (flag_arch env) (operatingsystem s) (Jnlp_Resources jnlp)), ops.
    split; [exact Hrun|]. split; [exact Hpool|].
    split; [apply started_for_all, Hartifacts|].
    split; [|exact Hstat].
    rewrite Htrace. cbn [arrived requested trace set_trace].
    rewrite <- !app_assoc. reflexivity.
  - intros jre Harch. unfold jre_path. rewrite Harch. apply Join_empty_element.
Qed.

(** The descriptor of the extension of [Fixture.with_extension]: a jar
    and a private runtime without filter attributes. *)
Definition ext_descriptor : Jnlp :=
  Fixture.descriptor "http://h/ext"
    [Fixture.group "" "" [Fixture.jar "lib.jar"] [] [] [Fixture.j2se "1g"]]
    [Fixture.private_jre "" "" "jre/j.bin"] "" [].

(** The call of [runJnlp] for this extension: it returns the descriptor,
    having started the goroutine of [lib.jar] on [/c/h/app/lib.jar] and
    checked the private runtime at [/c/h/j.bin]. *)
Lemma cache_layout_witness :
  let env := Fixture.with_extension in
  let address := "http://h/app/ext.jnlp" in
  let s := Fixture.start env in
  exists s' ops,
    runJnlp env address false s = Return (Some ext_descriptor) s'
    /\ goroutines s' = [GoResource "http://h/ext/lib.jar" "/c/h/app/lib.jar" false false]
    /\ trace s' = (OpGet address :: OpReadAll address :: ops)%list
    /\ stat_paths ops = ["/c/h/j.bin"].
Proof.
  cbv zeta.
  destruct (cache_layout Fixture.with_extension "http://h/app/ext.jnlp" false
              {| URL_Host := "h"; URL_String := "http://h/app/ext.jnlp" |} ext_descriptor
              (Fixture.start Fixture.with_extension) eq_refl eq_refl)
    as (_ & Hcomplete & _).
  destruct Hcomplete as (s' & new & ops & Hrun & Hpool & Hnew & Htrace & Hstat).
  - split; reflexivity.
  - reflexivity.
  - intros Hcodebase. discriminate Hcodebase.
  - reflexivity || (cbn; lia).
  - intros a Ha.
    change (a ∈ [ArtifactJar (Fixture.jar "lib.jar")]) in Ha.
    apply list_elem_of_singleton in Ha as ->. eexists. vm_compute. reflexivity.
  - intros jre Hjre.
    change (jre ∈ [Fixture.private_jre "" "" "jre/j.bin"]) in Hjre.
    apply list_elem_of_singleton in Hjre as ->. eexists. vm_compute. reflexivity.
  - change (Forall2
              (started_for Fixture.with_extension
                 {| URL_Host := "h"; URL_String := "http://h/app/ext.jnlp" |} "http://h/ext")
              [ArtifactJar (Fixture.jar "lib.jar")] new) in Hnew.
    apply Forall2_cons_inv_l in Hnew as (t & new' & (URL & HURL & Ht) & Hnew' & ->).
    apply Forall2_nil_inv_l in Hnew' as ->.
    vm_compute in HURL. injection HURL as <-. subst t.
    exists s', ops. split; [exact Hrun|]. split; [exact Hpool|].
    split; [exact Htrace | exact Hstat].
Defined.

Lemma length_append s1 s2 :
  String.length (s1 +:+ s2) = (String.length s1 + String.length s2)%nat.
Proof.
  induction s1 as [|a s1 IH]; [reflexivity|].
  change (String a s1 +:+ s2) with (String a (s1 +:+ s2)).
  cbn [String.length]. rewrite IH. reflexivity.
Qed.

(** [C8] fails for a private runtime without [arch] attribute: its
    filter matches on every platform, and [runJnlp] checks, fetches and
    extracts it at [/c/h/j.bin], a path with no segment between the
    directory of the host and the file name. *)
Lemma private_runtime_without_arch_segment :
  ~ (forall (env : Env) address doHeader s u jnlp path,
       url_Parse env address = inr u ->
       xml_Decode env (common_ToUTF8 env (http_Body env address)) = inr jnlp ->
       trace s = [] ->
       OpFileExists path ∈ trace (outcome_state (runJnlp env address doHeader s)) ->
       exists jre arch,
         jre ∈ Jnlp_PrivateJres jnlp
         /\ path = jnlp_path env u +:+ "/" +:+ arch +:+ "/"
                   +:+ jre_filename (PrivateJre_Href jre)).
Proof.
  intros Hall.
  assert (trace (outcome_state (runJnlp Fixture.with_extension "http://h/app/ext.jnlp" false
                                  (Fixture.start Fixture.with_extension)))
          = [OpGet "http://h/app/ext.jnlp"; OpReadAll "http://h/app/ext.jnlp";
             OpFileExists "/c/h/j.bin"; OpGet "http://h/ext/jre/j.bin";
             OpMkdirAll "/c/h"; OpFileStore "/c/h/j.bin";
             OpRun "/c/h/j.bin" ["-y"; "-o/c/h"]]) as Htrace
    by (vm_compute; reflexivity).
  destruct (Hall Fixture.with_extension "http://h/app/ext.jnlp" false
              (Fixture.start Fixture.with_extension)
              {| URL_Host := "h"; URL_String := "http://h/app/ext.jnlp" |} ext_descriptor
              "/c/h/j.bin" eq_refl eq_refl eq_refl)
    as (jre & arch & Hjre & Hpath).
  { rewrite Htrace. do 2 right. left. }
  apply list_elem_of_singleton in Hjre. subst jre.
  apply (f_equal String.length) in Hpath.
  change (jnlp_path Fixture.with_extension _) with "/c/h" in Hpath.
  change (jre_filename _) with "j.bin" in Hpath.
  rewrite !length_append in Hpath. cbn in Hpath. lia.
Qed.

(** ** Header metadata *)

(** The heap hint and the path of the private runtime have given values. *)
Definition header_is (heap jre : string) (s : State) : Prop :=
  maxheapsize s = heap /\ jrepath s = jre.

Lemma frame_header_is heap jre : frame (header_is heap jre).
Proof.
  split; unfold stable_trace, stable_fs, stable_errors, header_is; cbn; auto.
Qed.

(** The heap hint [heap] is that of a [j2se] or [java] element of a
    resource group of [jnlp] that is active on [os]. *)
Definition heap_of_active_group (env : Env) `{UnicodeTables} (jnlp : Jnlp) (os heap : string)
    : Prop :=
  exists resource j,
    resource ∈ Jnlp_Resources jnlp
    /\ group_active resource (flag_arch env) os = true
    /\ j ∈ (Resource_J2se resource ++ Resource_Java resource)%list
    /\ heap = J2se_MaxHeapSize j.

(** The executable [jre] is [bin/javaw] next to a private runtime of
    [jnlp] whose filter matches on [os]. *)
Definition executable_of_matching_runtime (env : Env) `{UnicodeTables} (u : URL) (jnlp : Jnlp)
    (os jre : string) : Prop :=
  exists runtime,
    runtime ∈ Jnlp_PrivateJres jnlp
    /\ relevant (PrivateJre_Arch runtime) (PrivateJre_Os runtime) (flag_arch env) os = true
    /\ jre = filepath.Join [filepath.Dir (jre_path env u runtime); "bin"; "javaw"].

(** Since [s0] a call of [runJnlp] on [address] has written the header
    only from the descriptor at [address]. *)
Definition header_from (env : Env) `{UnicodeTables} (address : string) (s0 s : State) : Prop :=
  operatingsystem s = operatingsystem s0
  /\ (maxheapsize s = maxheapsize s0
      \/ exists jnlp,
           xml_Decode env (common_ToUTF8 env (http_Body env address)) = inr jnlp
           /\ heap_of_active_group env jnlp (operatingsystem s0) (maxheapsize s))
  /\ (jrepath s = jrepath s0
      \/ exists u jnlp,
           url_Parse env address = inr u
           /\ xml_Decode env (common_ToUTF8 env (http_Body env address)) = inr jnlp
           /\ executable_of_matching_runtime env u jnlp (operatingsystem s0) (jrepath s)).

Section Header.

Context `{UnicodeTables} (env : Env).

Variables (address : string) (s0 : State).

Abbreviation from_descriptor := (header_from env address s0).

Ltac active_on_start :=
  match goal with
  | Hs : from_descriptor ?s, Hc : _ _ _ _ (operatingsystem ?s) = true |- _ =>
    rewrite <- (proj1 Hs); exact Hc
  | Hs : from_descriptor ?s, Hc : _ _ _ (operatingsystem ?s) = true |- _ =>
    rewrite <- (proj1 Hs); exact Hc
  end.

Ltac heap_written :=
  intros ? (Hos & _ & Hjre); split; [exact Hos|]; split; [|exact Hjre];
  right; eexists; split; [eassumption|];
  eexists _, _; split; [eassumption|]; split; [active_on_start|];
  split; [apply elem_of_app; first [left; eassumption | right; eassumption] | reflexivity].

Ltac executable_written :=
  intros ? (Hos & Hheap & _); split; [exact Hos|]; split; [exact Hheap|];
  right; eexists _, _; split; [eassumption|]; split; [eassumption|];
  eexists; split; [eassumption|]; split; [active_on_start | reflexivity].

Ltac leaf :=
  first [ intros ? Hs; exact Hs
        | heap_written
        | executable_written ].

Lemma runResource_header url path doUnzip doExtract :
  inv from_descriptor (fun _ => from_descriptor) (fun _ => from_descriptor)
    (runResource env url path doUnzip doExtract).
Proof.
  apply runResource_footprint;
    first [ intros ? ? Hs; exact Hs | intros ? ? Hs ?; exact Hs | intros ? Hs ?; exact Hs ].
Qed.

Lemma runJnlp_header doHeader :
  inv from_descriptor (fun _ => from_descriptor) (fun _ => from_descriptor)
    (runJnlp env address doHeader).
Proof.
  unfold runJnlp.
  repeat (first
    [ lazymatch goal with
      | |- triple _ (bind get _) _ _ _ => apply triple_bind_get; intros ? ?
      | |- triple _ (call_proc _) _ _ _ => apply triple_call_proc, runResource_header
      end
    | unfold client_Get, ioutil_ReadAll, go, wg_Add, channelError_Add; triple_step
    | leaf ]).
Qed.

End Header.


(** The root descriptor of [Fixture.with_extension]: one group without
    filter attributes with the heap hint [256m] and an extension. *)
Definition root_descriptor : Jnlp :=
  Fixture.descriptor "http://h/app"
    [Fixture.group "" "" [] [] [Fixture.extension "ext.jnlp"] [Fixture.j2se "256m"]]
    [] "Main" [].


(** * Further properties of the program *)

(** ** The helper functions of a resource task *)

(** [s'] differs from [s] in the file system and in the trace at most,
    and the trace has only grown. *)
Definition only_files (s s' : State) : Prop :=
  s' = set_fs (fs s') (set_trace (trace s') s)
  /\ exists ops, trace s' = (trace s ++ ops)%list.

Lemma only_files_refl s : only_files s s.
Proof. split; [destruct s; reflexivity | exists []; symmetry; apply app_nil_r]. Qed.

Lemma only_files_stable s : stable_trace (only_files s) /\ stable_fs (only_files s).
Proof.
  split.
  - intros s1 op [Heq [ops Hops]] _. split.
    + clear Hops. destruct s1, s. unfold set_fs, set_trace in *. cbn in *.
      injection Heq as -> -> -> -> -> -> -> ->. reflexivity.
    + exists (ops ++ [op])%list. cbn. rewrite Hops. symmetry; apply app_assoc.
  - intros s1 m [Heq [ops Hops]]. split.
    + clear Hops. destruct s1, s. unfold set_fs, set_trace in *. cbn in *.
      injection Heq as -> -> -> -> -> -> -> ->. reflexivity.
    + exists ops. exact Hops.
Qed.

(** [download], [runUnzip] and [runSelfextract] always return to their
    caller; whatever they return, they leave the package-level variables,
    the wait group, the error aggregator and the pool of goroutines as
    they were, and only add to the trace. *)
Theorem helpers_touch_only_files (env : Env) (s : State) :
  (forall href filename,
     exists r s', download env href filename s = Return r s' /\ only_files s s')
  /\ (forall filename path,
        exists r s', runUnzip env filename path s = Return r s' /\ only_files s s')
  /\ (forall filename,
        exists r s', runSelfextract env filename s = Return r s' /\ only_files s s').
Proof.
  destruct (only_files_stable s) as [Ht Hf].
  pose proof (only_files_refl s) as Hs.
  split; [|split]; intros.
  - pose proof (download_footprint env _ Ht Hf href filename s Hs) as Hk.
    destruct (download env href filename s) as [[]|r s'|h s']; [eauto | destruct Hk].
  - pose proof (runUnzip_footprint env _ Ht Hf filename path s Hs) as Hk.
    destruct (runUnzip env filename path s) as [[]|r s'|h s']; [eauto | destruct Hk].
  - pose proof (runSelfextract_footprint env _ Ht filename s Hs) as Hk.
    destruct (runSelfextract env filename s) as [[]|r s'|h s']; [eauto | destruct Hk].
Qed.

(** ** Resource tasks *)

(** [s'] is [s] after some external operations, changes of the file
    system and the entries [errs] added to the error aggregator. *)
Definition task_effect (errs : list error) (s s' : State) : Prop :=
  s' = set_fs (fs s') (set_trace (trace s') (set_channelError (channelError s ++ errs) s))
  /\ exists ops, trace s' = (trace s ++ ops)%list.

Lemma task_effect_stable errs s :
  stable_trace (task_effect errs s) /\ stable_fs (task_effect errs s).
Proof.
  split.
  - intros s1 op [Heq [ops Hops]] _. split.
    + clear Hops. destruct s1, s. unfold set_fs, set_trace, set_channelError in *. cbn in *.
      injection Heq as -> -> -> -> -> -> -> ->. reflexivity.
    + exists (ops ++ [op])%list. cbn. rewrite Hops. symmetry; apply app_assoc.
  - intros s1 m [Heq [ops Hops]]. split.
    + clear Hops. destruct s1, s. unfold set_fs, set_trace, set_channelError in *. cbn in *.
      injection Heq as -> -> -> -> -> -> -> ->. reflexivity.
    + exists ops. exact Hops.
Qed.

Lemma task_effect_error err s s1 :
  task_effect [] s s1 ->
  task_effect [err] s (set_channelError (channelError s1 ++ [err])%list s1).
Proof.
  intros [Heq [ops Hops]]. split; [|exists ops; exact Hops].
  clear Hops. destruct s1, s. unfold set_fs, set_trace, set_channelError in *. cbn in *.
  rewrite app_nil_r in Heq. injection Heq as -> -> -> -> -> -> -> ->. reflexivity.
Qed.

(** Whatever [runResource] does before the deferred [wg.Done()] amounts
    to external operations, changes of the file system and at most one
    error added to the aggregator.  Then the counter of the wait group
    is decremented; if that makes it negative, the task panics instead. *)
Theorem runResource_settles (env : Env) url path doUnzip doExtract s :
  exists s' errs,
    (errs = [] \/ exists err, errs = [err])
    /\ task_effect errs s s'
    /\ match runResource env url path doUnzip doExtract s with
       | Val _ s'' | Return _ s'' => 0 <= wg s - 1 /\ s'' = set_wg (wg s - 1) s'
       | Halt h s'' =>
         wg s - 1 < 0 /\ h = Panic "sync: negative WaitGroup counter" /\ s'' = s'
       end.
Proof.
  set (Q1 := fun s' => exists errs,
                 (errs = [] \/ exists err, errs = [err]) /\ task_effect errs s s').
  destruct (task_effect_stable [] s) as [Ht Hf].
  assert (task_effect [] s s) as Hs.
  { split; [|exists []; symmetry; apply app_nil_r].
    destruct s. unfold set_fs, set_trace, set_channelError. cbn. rewrite app_nil_r.
    reflexivity. }
  assert (forall s1, task_effect [] s s1 -> Q1 s1) as Hnone
    by (intros s1 H1; exists []; auto).
  assert (forall err s1, task_effect [] s s1 ->
            Q1 (set_channelError (channelError s1 ++ [err])%list s1)) as Hone.
  { intros err s1 H1. exists [err]. split; [eauto | apply task_effect_error, H1]. }
  unfold runResource.
  match goal with
  | |- context [defer _ ?b] =>
    assert (triple (task_effect [] s) b Q1 (fun _ => Q1) (fun _ _ => False)) as Hbody
  end.
  { repeat (first [ apply triple_call; first [ apply (download_footprint env _ Ht Hf)
                                             | apply (runUnzip_footprint env _ Ht Hf)
                                             | apply (runSelfextract_footprint env _ Ht) ]
                  | triple_step
                  | intros ? ?; solve [eauto] ]). }
  specialize (Hbody s Hs). unfold defer.
  match goal with
  | |- context [match ?b s with _ => _ end] => destruct (b s) as [a s'|r s'|h s']
  end; [| |destruct Hbody].
  all: destruct Hbody as (errs & Herrs & Heff); exists s', errs;
    split; [exact Herrs|]; split; [exact Heff|];
    assert (wg s' = wg s) as Hwg
      by (destruct Heff as [-> _]; destruct s; reflexivity);
    unfold wg_Done, wg_Add, bind, get, panic, modify; rewrite Hwg;
    change (wg s + -1) with (wg s - 1);
    destruct (Z.ltb_spec (wg s - 1) 0); auto.
Qed.

(** ** The operations of a resource task *)

(** Since [s0] the trace has grown by operations satisfying [O]. *)
Definition issued (O : Op -> Prop) (s0 s : State) : Prop :=
  exists ops, trace s = (trace s0 ++ ops)%list /\ Forall O ops.

Lemma issued_refl O s0 : issued O s0 s0.
Proof. exists []. split; [symmetry; apply app_nil_r | constructor]. Qed.

Lemma issued_issue O s0 s op :
  issued O s0 s -> O op -> issued O s0 (set_trace (trace s ++ [op])%list s).
Proof.
  intros (ops & Htrace & Hops) Hop. exists (ops ++ [op])%list. cbn.
  rewrite Htrace, app_assoc. split; [reflexivity|].
  apply Forall_app. split; [exact Hops | constructor; [exact Hop | constructor]].
Qed.

Lemma issued_same O s0 s s' : issued O s0 s -> trace s' = trace s -> issued O s0 s'.
Proof. unfold issued. intros Hs ->. exact Hs. Qed.

Ltac issued_leaf :=
  intros ? ?;
  first [ assumption
        | apply issued_issue;
          [assumption
          | cbn; first [ left; reflexivity
                       | right; assumption
                       | repeat split; first [reflexivity | assumption | exact Logic.I] ]]
        | eapply issued_same; [eassumption | reflexivity] ].

(** What a resource task for [url] and [path] may ask of the outside
    world.  It stats and sizes [path] only, talks to the server about
    [url] only, opens [path] as an archive only when told to unzip or
    when [path] ends in [.zip], and runs [path] as a self-extractor, with
    the directory of [path] as the output directory, only when told to
    extract or when [path] ends in [.exe].  It reads no descriptor and
    does not start the application. *)
Definition resource_op (url path : string) (doUnzip doExtract : bool) (op : Op) : Prop :=
  match op with
  | OpFileExists p | OpFileSize p => p = path
  | OpHead h | OpGet h => h = url
  | OpMkdirAll p =>
    p = filepath.Dir path \/ (doUnzip || strings.HasSuffix path ".zip") = true
  | OpFileStore p =>
    p = path \/ (doUnzip || strings.HasSuffix path ".zip") = true
  | OpZipOpen f | OpZipEntry f _ =>
    f = path /\ (doUnzip || strings.HasSuffix path ".zip") = true
  | OpRun name args =>
    name = path /\ args = ["-y"; "-o" +:+ filepath.Dir path]
    /\ (doExtract || strings.HasSuffix path ".exe") = true
  | OpReadAll _ | OpStart _ _ => False
  end.

(** However a resource task ends, every operation it has issued is one
    that [resource_op] allows. *)
Theorem resource_task_operations (env : Env) url path doUnzip doExtract s :
  issued (resource_op url path doUnzip doExtract) s
    (outcome_state (runResource env url path doUnzip doExtract s)).
Proof.
  pose proof (issued_refl (resource_op url path doUnzip doExtract) s) as Hs.
  set (I := issued (resource_op url path doUnzip doExtract) s) in *.
  assert (triple I (runResource env url path doUnzip doExtract) I (fun _ => I) (fun _ => I))
    as Hrun.
  { unfold runResource, download, runUnzip, runSelfextract. unfold_ops.
    apply triple_defer with (Q1 := I);
      repeat (first [triple_step | subst I; issued_leaf]).
  }
  specialize (Hrun s Hs).
  destruct (runResource env url path doUnzip doExtract s); exact Hrun.
Qed.

(** ** Unpacking an archive *)

(** The entries of the archive at [filename], if it is a regular file. *)
Definition archive (env : Env) (s : State) (filename : string) : list ZipEntry :=
  match fs s !! filename with
  | Some (File content) => zip_File env content
  | _ => []
  end.

(** What [runUnzip] may ask of the outside world once it has opened the
    archive: for an entry it makes the parent directory of the
    destination, opens the entry and, unless the entry is a directory,
    stores it.  It does not open the archive again. *)
Definition unzip_op (files : list ZipEntry) (filename path : string) (op : Op) : Prop :=
  match op with
  | OpMkdirAll p =>
    exists f, f ∈ files /\ p = filepath.Dir (filepath.Join [path; ZipEntry_Name f])
  | OpZipEntry a name => a = filename /\ exists f, f ∈ files /\ name = ZipEntry_Name f
  | OpFileStore p =>
    exists f,
      f ∈ files /\ ZipEntry_IsDir f = false /\ p = filepath.Join [path; ZipEntry_Name f]
  | _ => False
  end.

(** However [runUnzip] ends, it has opened the archive, as its first
    operation and once, and every operation after that is one that
    [unzip_op] allows for the entries of the archive as it was when
    [runUnzip] started: directory entries are not stored, and nothing
    more is done for an archive that is missing or is a directory. *)
Theorem unzip_operations (env : Env) filename path s :
  exists rest,
    trace (outcome_state (runUnzip env filename path s))
    = (trace s ++ OpZipOpen filename :: rest)%list
    /\ Forall (unzip_op (archive env s filename) filename path) rest.
Proof.
  set (O := unzip_op (archive env s filename) filename path).
  set (s1 := set_trace (trace s ++ [OpZipOpen filename])%list s).
  assert (triple (fun s0 => s0 = s) (runUnzip env filename path)
            (issued O s1) (fun _ => issued O s1) (fun _ => issued O s1)) as Hrun.
  { unfold runUnzip, zip_OpenReader.
    apply triple_bind_assoc; cbv beta.
    apply triple_bind with (Q1 := fun s2 => issued O s1 s2 /\ fs s2 = fs s).
    { apply triple_issue. intros ? ->. split; [apply issued_refl | reflexivity]. }
    intros f. apply triple_bind_assoc; cbv beta.
    apply triple_bind_get. intros s2 [_ Hfs].
    assert (forall files,
              (forall x, x ∈ files -> x ∈ archive env s filename) ->
              @triple (option error) Empty_set (issued O s1)
                (for_range files (fun f0 =>
                   let path0 := filepath.Join [path; ZipEntry_Name f0] in
                   err <- os_MkdirAll env (filepath.Dir path0) ;;
                   when (bool_decide (is_Some err)) (return_ err) ;;
                   r <- zip_Open env filename f0 ;;
                   zipfile <- or_else r (fun err => return_ (Some err)) ;;
                   when (negb (ZipEntry_IsDir f0)) (
                     err <- common_FileStore env path0 zipfile ;;
                     when (bool_decide (is_Some err)) (return_ err))) ;;
                 return_ None)
                (issued O s1) (fun _ => issued O s1) (fun _ => issued O s1)) as Hloop.
    { intros files Hfiles. unfold_ops.
      repeat (first [ triple_step | progress cbv zeta | subst O; issued_leaf ]).
      all: intros s3 H3; apply issued_issue; [exact H3|]; cbn;
        try (split; [reflexivity|]); exists x;
        repeat split; auto; apply negb_true_iff; assumption. }
    destruct f as [err|].
    - repeat (first [ triple_step | intros ? [? _]; assumption ]).
    - rewrite Hfs. unfold archive in Hloop.
      destruct (fs s !! filename) as [[content|]|].
      + apply triple_bind_ret. cbv beta. apply triple_bind_or_else; [discriminate|].
        intros a [= <-]. eapply triple_conseq; [apply (Hloop (zip_File env content)) | ..];
          auto. intros ? [? _]; assumption.
      + repeat (first [ triple_step | intros ? [? _]; assumption ]).
      + repeat (first [ triple_step | intros ? [? _]; assumption ]). }
  specialize (Hrun s eq_refl).
  assert (issued O s1 (outcome_state (runUnzip env filename path s)))
    as (rest & Htrace & Hrest)
    by (destruct (runUnzip env filename path s); exact Hrun).
  exists rest. split; [|exact Hrest].
  rewrite Htrace. subst s1. cbn. rewrite <- app_assoc. reflexivity.
Qed.

(** ** Executions, by the position of the main goroutine *)

Section Runs.

Context `{UnicodeTables} (env : Env).

(** [W] holds while the main goroutine waits at the barrier with the
    descriptor [jnlp]; [F] holds of the configuration in which the run
    is over. *)
Variable jnlp : option Jnlp.
Variable W : State -> Prop.
Variable F : Config -> Prop.

Hypothesis W_task :
  forall s i t, W s -> goroutines s !! i = Some t ->
    match run_task env t (taken i s) with
    | Val _ s' => W s'
    | Return _ s' => W s'
    | Halt h s' => F (Stopped h s')
    end.

Hypothesis W_launch :
  forall s, W s -> wg s = 0 ->
    match run_launch env jnlp s with
    | Val _ _ => False
    | Return err s' => F (Running (MainDone err) s')
    | Halt h s' => F (Stopped h s')
    end.

Definition waits_or_over (cfg : Config) : Prop :=
  match cfg with
  | Running MainInit _ => False
  | Running (MainWait j) s => j = jnlp /\ W s
  | over => F over
  end.

Lemma step_from_wait c s cfg' :
  W s -> step env c (Running (MainWait jnlp) s) = Some cfg' -> waits_or_over cfg'.
Proof.
  intros Hs Hstep. destruct c as [|i]; cbn [step] in Hstep.
  - destruct (Z.eqb_spec (wg s) 0) as [Hwg|]; [|discriminate].
    injection Hstep as <-. pose proof (W_launch s Hs Hwg) as Hl.
    destruct (run_launch env jnlp s) as [[]|err s'|h s']; exact Hl.
  - destruct (goroutines s !! i) as [t|] eqn:Hi; [|discriminate].
    injection Hstep as <-. pose proof (W_task s i t Hs Hi) as Ht. unfold taken in Ht.
    destruct (run_task env t _) as [a s'|r s'|h s']; cbn; auto.
Qed.

Lemma exec_from_wait sched s cfg' :
  W s -> exec env sched (Running (MainWait jnlp) s) = Some cfg' -> waits_or_over cfg'.
Proof.
  revert s. induction sched as [|c sched IH]; intros s Hs Hexec.
  - injection Hexec as <-. cbn. auto.
  - cbn [exec] in Hexec.
    destruct (step env c (Running (MainWait jnlp) s)) as [cfg1|] eqn:Hstep; [|discriminate].
    pose proof (step_from_wait _ _ _ Hs Hstep) as H1.
    destruct cfg1 as [[|j|err] s1|h s1]; cbn in H1.
    + destruct H1.
    + destruct H1 as [-> H1]. apply (IH s1 H1 Hexec).
    + apply exec_stuck in Hexec; [subst; exact H1 | intros []; reflexivity].
    + apply exec_stuck in Hexec; [subst; exact H1 | intros []; reflexivity].
Qed.

End Runs.

(** ** A counter that stays above the pool *)

Section Surplus.

Context `{UnicodeTables} (env : Env).

Variable d : Z.
Hypothesis d_nonneg : 0 <= d.

Lemma runResource_surplus url path doUnzip doExtract :
  triple (balanced (d + 1)) (runResource env url path doUnzip doExtract) (balanced d)
    (fun _ => balanced d) (fun _ _ => False).
Proof.
  apply runResource_footprint; try apply balanced_stable.
  - intros s Hs Hneg. unfold balanced in Hs. pose proof (pending_nonneg (goroutines s)). lia.
  - intros s Hs _. unfold balanced in *. cbn. lia.
Qed.

Lemma runJnlp_surplus address doHeader :
  inv (balanced d) (fun _ => balanced d) (fun _ => balanced d)
    (runJnlp env address doHeader).
Proof.
  unfold runJnlp.
  repeat (first
    [ lazymatch goal with
      | |- triple _ (bind (wg_Add 1) _) _ _ _ =>
        apply triple_bind with (Q1 := balanced (d + 1));
        [apply triple_wg_Add; bal | intros ?]
      | |- triple (balanced (d + 1)) (go (GoResource _ _ _ _)) _ _ _ =>
        unfold go; apply triple_modify; bal
      | |- triple (balanced (d + 1)) (call_proc (runResource _ _ _ _ _)) _ _ _ =>
        apply triple_call_proc;
        eapply triple_conseq; [apply runResource_surplus | auto ..]; intros ? ? []
      end
    | unfold client_Get, ioutil_ReadAll, go; triple_step
    | progress cbv zeta
    | bal ]).
Qed.

Lemma run_task_surplus s i t :
  balanced d s -> goroutines s !! i = Some t ->
  balanced d (outcome_state (run_task env t (taken i s))).
Proof.
  intros Hs Hi.
  assert (balanced (d + match t with GoResource _ _ _ _ => 1 | GoJnlp _ _ => 0 end)
            (taken i s)) as Ht.
  { unfold balanced in *. cbn. rewrite (pending_delete _ _ _ Hi). destruct t; lia. }
  destruct t as [url path doUnzip doExtract|address dh]; cbn [run_task].
  - pose proof (runResource_surplus url path doUnzip doExtract _ Ht) as Hr.
    unfold call_proc. destruct (runResource env url path doUnzip doExtract (taken i s));
      [exact Hr | exact Hr | destruct Hr].
  - rewrite Z.add_0_r in Ht.
    pose proof (runJnlp_surplus address dh _ Ht) as Hr.
    unfold bind, call, ret. destruct (runJnlp env address dh (taken i s)) as [[]|r s'|h s'];
      exact Hr.
Qed.

End Surplus.

(** When the counter of the wait group exceeds the number of resource
    tasks in the pool, it does so for ever: whatever the schedule, [run]
    does not pass [wg.Wait()], so it neither returns nor starts the
    application. *)
Theorem surplus_blocks_run `{UnicodeTables} (env : Env) jnlp s sched cfg :
  pending (goroutines s) < wg s ->
  exec env sched (Running (MainWait jnlp) s) = Some cfg ->
  pending (goroutines (state_of cfg)) < wg (state_of cfg)
  /\ forall err s', cfg <> Running (MainDone err) s'.
Proof.
  intros Hs Hexec.
  set (W := balanced 1).
  set (F := fun cfg => match cfg with
                       | Running (MainDone _) _ => False
                       | other => W (state_of other)
                       end).
  apply (exec_from_wait env jnlp W F) in Hexec.
  - destruct cfg as [[|j|err] s'|h s']; cbn in Hexec.
    + destruct Hexec.
    + destruct Hexec as [_ Hw]. unfold W, balanced in Hw. cbn. split; [lia | discriminate].
    + destruct Hexec.
    + unfold W, balanced in Hexec. cbn. split; [lia | discriminate].
  - intros s1 i t Hw Hi.
    pose proof (run_task_surplus env 1 ltac:(lia) s1 i t Hw Hi) as Hk.
    destruct (run_task env t (taken i s1)); exact Hk.
  - intros s1 Hw Hwg. unfold W, balanced in Hw.
    pose proof (pending_nonneg (goroutines s1)). lia.
  - unfold W, balanced. lia.
Qed.

(** A server and a descriptor with two jars; the [href] of the second
    has an invalid escape, which [URL.Parse] rejects. *)
Definition parse_escaped (ref : string) : error + URL :=
  match index 0 "%zz" ref with
  | Some _ => inl ("parse " +:+ ref +:+ ": invalid URL escape")
  | None => Fixture.parse ref
  end.

Definition bad_href : Env :=
  let env :=
    Fixture.world "linux" "amd64" "/c" ["espresso"; "http://h/app/a.jnlp"]
      [("http://h/app/a.jnlp", Fixture.ok "6" "<root>");
       ("http://h/app/x.jar", Fixture.ok "3" "JAR")]
      [("<root>",
        Fixture.descriptor "http://h/app"
          [Fixture.group "" "" [Fixture.jar "x.jar"; Fixture.jar "%zz.jar"] [] [] []]
          [] "Main" [])]
      [] in
  {| os_Args := os_Args env; flag_url := flag_url env; flag_jre := flag_jre env;
     flag_arch := flag_arch env; flag_cache := flag_cache env;
     runtime_GOOS := runtime_GOOS env; fault := fault env;
     http_ContentLength := http_ContentLength env; http_StatusCode := http_StatusCode env;
     http_Body := http_Body env; url_Parse := url_Parse env;
     URL_Parse := fun _ ref => parse_escaped ref;
     common_Trim4Path := common_Trim4Path env; common_ToUTF8 := common_ToUTF8 env;
     xml_Decode := xml_Decode env; zip_File := zip_File env; dir_Size := dir_Size env |}.

(** [wg.Add(1)] precedes the resolution of the [href]: the root call
    returns [nil] with one error recorded, the counter at 2 and one task
    in the pool; after that task the counter is 1 and stays there. *)
Lemma surplus_blocks_run_witness :
  exists s cfg,
    exec bad_href [RunMain] (init bad_href ∅) = Some (Running (MainWait None) s)
    /\ wg s = 2
    /\ goroutines s = [GoResource "http://h/app/x.jar" "/c/h/app/x.jar" false false]
    /\ channelError s = ["parse http://h/app/%zz.jar: invalid URL escape"]
    /\ exec bad_href [RunGo 0] (Running (MainWait None) s) = Some cfg
    /\ pending (goroutines (state_of cfg)) < wg (state_of cfg)
    /\ forall err s', cfg <> Running (MainDone err) s'.
Proof.
  eexists _, _.
  split; [vm_compute; reflexivity|].
  split; [vm_compute; reflexivity|].
  split; [vm_compute; reflexivity|].
  split; [vm_compute; reflexivity|].
  match goal with
  | |- exec bad_href [RunGo 0] ?c = _ /\ _ =>
    assert (exec bad_href [RunGo 0] c = Some _) as Hexec by (vm_compute; reflexivity)
  end.
  split; [exact Hexec|].
  refine (surplus_blocks_run bad_href _ _ _ _ _ Hexec).
  vm_compute. reflexivity.
Defined.

(** ** The nil descriptor at the barrier *)

(** [C10], evaluated.  The [href] of the second jar of [bad_href] does not
    resolve.  The root call has already called [wg.Add(1)] for it: it
    records the error and returns [nil] with the counter at 2 and one
    task in the pool.  Whatever is scheduled after that, [run] does not
    return: the recorded error is never reported. *)
Lemma unresolved_href_never_reported :
  exists s,
    exec bad_href [RunMain] (init bad_href ∅) = Some (Running (MainWait None) s)
    /\ channelError s = ["parse http://h/app/%zz.jar: invalid URL escape"]
    /\ wg s = 2
    /\ goroutines s = [GoResource "http://h/app/x.jar" "/c/h/app/x.jar" false false]
    /\ forall sched cfg,
         exec bad_href sched (Running (MainWait None) s) = Some cfg ->
         forall err s', cfg <> Running (MainDone err) s'.
Proof.
  eexists.
  split; [vm_compute; reflexivity|].
  split; [vm_compute; reflexivity|].
  split; [vm_compute; reflexivity|].
  split; [vm_compute; reflexivity|].
  intros sched cfg Hexec.
  set (F := fun cfg => match cfg with
                       | Running (MainDone _) _ => False
                       | other => balanced 1 (state_of other)
                       end).
  apply (exec_from_wait bad_href None (balanced 1) F) in Hexec.
  - destruct cfg as [[|j|e] s1|h s1]; cbn in Hexec;
      [destruct Hexec | discriminate | destruct Hexec | discriminate].
  - intros s1 i t Hw Hi.
    pose proof (run_task_surplus bad_href 1 ltac:(lia) s1 i t Hw Hi) as Hk.
    destruct (run_task bad_href t (taken i s1)); exact Hk.
  - intros s1 Hw Hwg. unfold balanced in Hw.
    pose proof (pending_nonneg (goroutines s1)). lia.
  - unfold balanced. cbn. lia.
Qed.

(** ** The first part of [run] *)

(** The name [run] gives to the platform [goos]; [before] on a platform
    it does not know. *)
Definition platform_name (goos before : string) : string :=
  if String.eqb goos "linux" then "LINUX"
  else if String.eqb goos "windows" then "WINDOWS"
  else if String.eqb goos "darwin" then "MAC OS X"
  else before.

Section Platform.

Context `{UnicodeTables} (env : Env).

Lemma runJnlp_operatingsystem v address doHeader :
  inv (fun s => operatingsystem s = v) (fun _ s => operatingsystem s = v)
    (fun _ _ => True) (runJnlp env address doHeader).
Proof.
  unfold runJnlp.
  repeat (first
    [ apply triple_call_proc, runResource_footprint;
      unfold stable_trace, stable_fs, stable_errors; intros; first [assumption | exact Logic.I]
    | unfold client_Get, ioutil_ReadAll, go, wg_Add; triple_step
    | intros; first [assumption | exact Logic.I] ]).
Qed.

(** When the root call of [runJnlp] returns, the OS name is the upper
    case name of the platform, whatever the Unicode tables are, or
    what it was before on a platform other than Linux, Windows and
    macOS: the resolution does not change it. *)
Theorem run_platform_name s jnlp s' :
  run_resolve env s = Val jnlp s' ->
  operatingsystem s' = platform_name (runtime_GOOS env) (operatingsystem s).
Proof.
  intros Hrun.
  assert (triple (fun s1 => operatingsystem s1 = operatingsystem s) (run_resolve env)
            (fun s1 => operatingsystem s1
                       = platform_name (runtime_GOOS env) (operatingsystem s))
            (fun _ _ => True) (fun _ _ => True)) as Hk.
  { unfold run_resolve.
    repeat (first
      [ lazymatch goal with
        | |- triple _ (bind (if String.eqb (runtime_GOOS env) "linux" then _ else _) _)
               _ _ _ =>
          apply triple_bind
            with (Q1 := fun s1 => operatingsystem s1
                                  = platform_name (runtime_GOOS env) (operatingsystem s));
          [ unfold platform_name;
            repeat (destruct (String.eqb (runtime_GOOS env) _));
            first [ apply triple_modify; intros;
                    rewrite ToTitle_ascii by reflexivity; reflexivity
                  | apply triple_ret; auto ]
          | intros ? ]
        | |- triple _ (call (runJnlp _ _ _)) _ _ _ =>
          apply triple_call, runJnlp_operatingsystem
        end
      | unfold_ops; triple_step
      | intros; first [assumption | exact Logic.I] ]). }
  specialize (Hk s eq_refl). rewrite Hrun in Hk. exact Hk.
Qed.

End Platform.

Lemma run_platform_name_witness :
  exists jnlp s',
    run_resolve Fixture.single_jar (Fixture.start Fixture.single_jar) = Val jnlp s'
    /\ operatingsystem s' = "LINUX".
Proof.
  eexists _, _.
  assert (run_resolve Fixture.single_jar (Fixture.start Fixture.single_jar) = Val _ _)
    as Hrun by (vm_compute; reflexivity).
  split; [exact Hrun | exact (run_platform_name _ _ _ _ Hrun)].
Defined.

(** A weaker precondition. *)
Lemma triple_weaken {R A} (P P' Q : State -> Prop) (Qr : R -> State -> Prop)
    (Qh : HaltKind -> State -> Prop) (m : Body R A) :
  triple P' m Q Qr Qh -> (forall s, P s -> P' s) -> triple P m Q Qr Qh.
Proof. intros Hm HP s Hs. apply Hm, HP, Hs. Qed.

(** Whatever [m] does. *)
Lemma triple_any {R A} (P : State -> Prop) (m : Body R A) :
  triple P m (fun _ => True) (fun _ _ => True) (fun _ _ => True).
Proof. intros s _. destruct (m s); exact Logic.I. Qed.

(** The operations of [run] on the cache directory. *)
Definition cache_op (env : Env) (op : Op) : Prop :=
  op = OpFileExists (flag_cache env) \/ op = OpMkdirAll (flag_cache env).

(** [run] returns before the barrier only with an error of the cache
    directory: it has then checked the directory and at most tried to
    create it; no request was sent, no goroutine started, and
    [operatingsystem], [jars], [nativelibs], [maxheapsize], [*jrepath],
    the counter of the wait group and the error aggregator are as they
    were. *)
Theorem run_returns_early `{UnicodeTables} (env : Env) s err s' :
  run_resolve env s = Return err s' ->
  is_Some err /\ only_files s s' /\ issued (cache_op env) s s'.
Proof.
  intros Hrun.
  set (I := fun s1 => only_files s s1 /\ issued (cache_op env) s s1).
  assert (triple I (run_resolve env) (fun _ => True)
            (fun err s1 => is_Some err /\ I s1) (fun _ _ => True)) as Hk.
  { destruct (only_files_stable s) as [Ht Hf].
    unfold run_resolve.
    repeat (first
      [ lazymatch goal with
        | |- triple _ (bind (if String.eqb (runtime_GOOS env) "linux" then _ else _) _)
               _ _ _ =>
          apply triple_weaken with (P' := fun _ => True); [|auto];
          repeat (first [ apply triple_call, triple_any
                        | unfold_ops; triple_step
                        | intros; exact Logic.I ])
        end
      | unfold_ops; triple_step
      | intros ? ?; first [ exact Logic.I | assumption ]
      | intros ? [? ?]; split;
        [ first [ apply Ht; [assumption | exact id] | apply Hf; assumption ]
        | first [ apply issued_issue; [assumption | unfold cache_op; auto]
                | eapply issued_same; [eassumption | reflexivity] ] ]
      | intros ? ?; split; [eauto | assumption] ]).
  }
  assert (I s) as Hs by (split; [apply only_files_refl | apply issued_refl]).
  specialize (Hk s Hs). rewrite Hrun in Hk. destruct Hk as [He [Ho Hi]]. auto.
Qed.

(** The cache directory cannot be examined. *)
Definition cache_unreadable : Env :=
  Fixture.world "linux" "amd64" "/c" ["espresso"; "http://h/app/a.jnlp"] [] []
    [OpFileExists "/c"].

Lemma run_returns_early_witness :
  exists err s',
    run_resolve cache_unreadable (Fixture.start cache_unreadable) = Return err s'
    /\ is_Some err
    /\ only_files (Fixture.start cache_unreadable) s'
    /\ issued (cache_op cache_unreadable) (Fixture.start cache_unreadable) s'.
Proof.
  eexists _, _.
  assert (run_resolve cache_unreadable (Fixture.start cache_unreadable) = Return _ _)
    as Hrun by (vm_compute; reflexivity).
  split; [exact Hrun | exact (run_returns_early _ _ _ _ Hrun)].
Defined.

(** ** The file name of a private runtime *)

Section LastIndex.

Variable sep : ascii.

(** [sep] does not occur in [s]. *)
Fixpoint free (s : string) : Prop :=
  match s with
  | EmptyString => True
  | String a s' => a <> sep /\ free s'
  end.

Lemma last_index_free s i acc : free s -> strings.last_index_from i sep s acc = acc.
Proof.
  revert i acc. induction s as [|a s IH]; intros i acc Hs; [reflexivity|].
  destruct Hs as [Ha Hs]. cbn [strings.last_index_from].
  destruct (Ascii.eqb_spec a sep); [contradiction | apply IH, Hs].
Qed.

(** The scan returns its default when [sep] does not occur, and the
    position of the last occurrence otherwise. *)
Lemma last_index_spec s i acc :
  (strings.last_index_from i sep s acc = acc /\ free s)
  \/ exists pre post,
       s = pre +:+ String sep post /\ free post
       /\ strings.last_index_from i sep s acc = i + Z.of_nat (String.length pre).
Proof.
  revert i acc. induction s as [|a s IH]; intros i acc; [left; split; [reflexivity | exact Logic.I]|].
  cbn [strings.last_index_from].
  destruct (IH (i + 1) (if Ascii.eqb a sep then i else acc)) as [[Hr Hs]|(pre & post & -> & Hp & Hr)].
  - rewrite Hr. destruct (Ascii.eqb_spec a sep) as [->|Ha].
    + right. exists "", s. split; [reflexivity|]. split; [exact Hs | cbn; lia].
    + left. split; [reflexivity | split; assumption].
  - right. exists (String a pre), post. split; [reflexivity|]. split; [exact Hp|].
    rewrite Hr. cbn [String.length]. lia.
Qed.

End LastIndex.

Lemma substring_all s : substring 0 (String.length s) s = s.
Proof. induction s as [|a s IH]; [reflexivity | cbn; rewrite IH; reflexivity]. Qed.

Lemma substring_skip pre a post :
  substring (S (String.length pre)) (String.length post) (pre +:+ String a post) = post.
Proof.
  induction pre as [|b pre IH]; [apply substring_all|].
  change (String b pre +:+ String a post) with (String b (pre +:+ String a post)).
  exact IH.
Qed.

(** The file name of a private runtime is what follows the last [/] of
    its [href]: the [href] is a directory part, empty or ending in [/],
    followed by the file name, and the file name contains no [/]. *)
Theorem jre_filename_last_segment (Href : string) :
  exists dir,
    Href = dir +:+ jre_filename Href
    /\ (dir = "" \/ exists d, dir = d +:+ "/")
    /\ strings.LastIndexByte (jre_filename Href) "/" = -1.
Proof.
  unfold jre_filename, strings.LastIndexByte.
  destruct (last_index_spec "/" Href 0 (-1)) as [[Hr Hs]|(pre & post & -> & Hp & Hr)].
  - rewrite Hr. cbn. exists "". split; [reflexivity|]. split; [left; reflexivity|].
    apply last_index_free, Hs.
  - rewrite Hr.
    destruct (Z.eqb_spec (0 + Z.of_nat (String.length pre)) (-1)) as [Hneg|_]; [lia|].
    cbn [negb].
    replace (Z.to_nat (0 + Z.of_nat (String.length pre) + 1)) with (S (String.length pre))
      by lia.
    rewrite length_append. cbn [String.length].
    replace (String.length pre + S (String.length post) - S (String.length pre))%nat
      with (String.length post) by lia.
    rewrite substring_skip.
    exists (pre +:+ "/"). split; [|split; [right; eauto | apply last_index_free, Hp]].
    clear. induction pre as [|b pre IH]; [reflexivity|].
    change (String b pre +:+ String "/" post) with (String b (pre +:+ String "/" post)).
    rewrite IH. reflexivity.
Qed.

(** ** The path accumulators *)

Lemma append_assoc (a b c : string) : (a +:+ b) +:+ c = a +:+ b +:+ c.
Proof.
  induction a as [|x a IH]; [reflexivity|].
  change (String x a +:+ b) with (String x (a +:+ b)).
  change (String x (a +:+ b) +:+ c) with (String x ((a +:+ b) +:+ c)).
  rewrite IH. reflexivity.
Qed.

Lemma append_empty_r (a : string) : a +:+ "" = a.
Proof.
  induction a as [|x a IH]; [reflexivity|].
  change (String x a +:+ "") with (String x (a +:+ "")). rewrite IH. reflexivity.
Qed.

Lemma append_empty_l (a : string) : "" +:+ a = a.
Proof. reflexivity. Qed.

Ltac tidy := rewrite ?append_assoc, ?append_empty_r, ?append_empty_l in *.

(** The paths of the jar tasks of a pool, and the directories of its
    native-library tasks, in order. *)
Fixpoint jar_paths (l : list Task) : list string :=
  match l with
  | [] => []
  | GoResource _ path false false :: l' => path :: jar_paths l'
  | _ :: l' => jar_paths l'
  end.

Fixpoint nativelib_dirs (l : list Task) : list string :=
  match l with
  | [] => []
  | GoResource _ path true false :: l' => filepath.Dir path :: nativelib_dirs l'
  | _ :: l' => nativelib_dirs l'
  end.

(** Every path preceded by the separator. *)
Fixpoint listed (sep : string) (paths : list string) : string :=
  match paths with
  | [] => ""
  | p :: paths' => sep +:+ p +:+ listed sep paths'
  end.

Lemma jar_paths_app l1 l2 : jar_paths (l1 ++ l2) = (jar_paths l1 ++ jar_paths l2)%list.
Proof.
  induction l1 as [|[u p [] []|] l1 IH]; cbn; rewrite ?IH; reflexivity.
Qed.

Lemma nativelib_dirs_app l1 l2 :
  nativelib_dirs (l1 ++ l2) = (nativelib_dirs l1 ++ nativelib_dirs l2)%list.
Proof.
  induction l1 as [|[u p [] []|] l1 IH]; cbn; rewrite ?IH; reflexivity.
Qed.

Lemma listed_snoc sep paths p :
  listed sep (paths ++ [p]) = listed sep paths +:+ sep +:+ p.
Proof.
  induction paths as [|q paths IH]; cbn [app listed].
  - rewrite append_empty_r. reflexivity.
  - rewrite IH, !append_assoc. reflexivity.
Qed.

Section Accumulators.

Context `{UnicodeTables} (env : Env).

Variable s0 : State.

(** Since [s0], [jars] has grown by the paths of the jar tasks added to
    the pool and by [more], and [nativelibs] by the directories of the
    native-library tasks added and by [more']. *)
Definition accumulated (more more' : string) (s : State) : Prop :=
  exists new,
    goroutines s = (goroutines s0 ++ new)%list
    /\ jars s
       = jars s0 +:+ listed (filepath_ListSeparator env) (jar_paths new) +:+ more
    /\ nativelibs s
       = nativelibs s0 +:+ listed (filepath_ListSeparator env) (nativelib_dirs new)
         +:+ more'.

Lemma accumulated_same more more' s s' :
  accumulated more more' s -> goroutines s' = goroutines s -> jars s' = jars s ->
  nativelibs s' = nativelibs s -> accumulated more more' s'.
Proof. unfold accumulated. intros Hs -> -> ->. exact Hs. Qed.

Lemma accumulated_stable :
  stable_trace (accumulated "" "") /\ stable_fs (accumulated "" "")
  /\ stable_errors (accumulated "" "").
Proof.
  unfold stable_trace, stable_fs, stable_errors.
  repeat split; intros; eapply accumulated_same; eauto.
Qed.

Lemma accumulated_jar url path s :
  accumulated (filepath_ListSeparator env +:+ path) "" s ->
  accumulated "" ""
    (set_goroutines (goroutines s ++ [GoResource url path false false])%list s).
Proof.
  intros (new & Hpool & Hjars & Hlibs).
  exists (new ++ [GoResource url path false false])%list. cbn.
  rewrite Hpool, jar_paths_app, nativelib_dirs_app, Hjars, Hlibs. cbn.
  rewrite app_nil_r, listed_snoc, <- app_assoc. tidy. auto.
Qed.

Lemma accumulated_nativelib url path s :
  accumulated "" (filepath_ListSeparator env +:+ filepath.Dir path) s ->
  accumulated "" ""
    (set_goroutines (goroutines s ++ [GoResource url path true false])%list s).
Proof.
  intros (new & Hpool & Hjars & Hlibs).
  exists (new ++ [GoResource url path true false])%list. cbn.
  rewrite Hpool, jar_paths_app, nativelib_dirs_app, Hjars, Hlibs. cbn.
  rewrite app_nil_r, listed_snoc, <- app_assoc. tidy. auto.
Qed.

Lemma accumulated_extension address s :
  accumulated "" "" s ->
  accumulated "" "" (set_goroutines (goroutines s ++ [GoJnlp address false])%list s).
Proof.
  intros (new & Hpool & Hjars & Hlibs).
  exists (new ++ [GoJnlp address false])%list. cbn.
  rewrite Hpool, jar_paths_app, nativelib_dirs_app, Hjars, Hlibs. cbn.
  rewrite !app_nil_r, <- app_assoc. auto.
Qed.

Lemma accumulated_set_jars path s :
  accumulated "" "" s ->
  accumulated (filepath_ListSeparator env +:+ path) ""
    (set_jars (strings.Join [jars s; path] (filepath_ListSeparator env)) s).
Proof.
  intros (new & Hpool & Hjars & Hlibs). exists new. cbn.
  tidy. rewrite Hjars. tidy. auto.
Qed.

Lemma accumulated_set_nativelibs dir s :
  accumulated "" "" s ->
  accumulated "" (filepath_ListSeparator env +:+ dir)
    (set_nativelibs (strings.Join [nativelibs s; dir] (filepath_ListSeparator env)) s).
Proof.
  intros (new & Hpool & Hjars & Hlibs). exists new. cbn.
  tidy. rewrite Hlibs. tidy. auto.
Qed.

Lemma runJnlp_accumulates address doHeader :
  inv (accumulated "" "") (fun _ => accumulated "" "") (fun _ => accumulated "" "")
    (runJnlp env address doHeader).
Proof.
  destruct accumulated_stable as (Ht & Hf & He).
  unfold runJnlp.
  repeat (first
    [ lazymatch goal with
      | |- triple _ (bind (modify (fun s => set_jars (strings.Join [jars s; ?path] _) s)) _)
             _ _ _ =>
        apply triple_bind
          with (Q1 := accumulated (filepath_ListSeparator env +:+ path) "");
        [apply triple_modify | intros ?]
      | |- triple _ (bind (modify (fun s => set_nativelibs (strings.Join [nativelibs s; ?dir] _) s)) _)
             _ _ _ =>
        apply triple_bind
          with (Q1 := accumulated "" (filepath_ListSeparator env +:+ dir));
        [apply triple_modify | intros ?]
      | |- triple _ (call_proc (runResource _ _ _ _ _)) _ _ _ =>
        apply triple_call_proc, (runResource_footprint env _ Ht Hf He)
      end
    | unfold client_Get, ioutil_ReadAll, go, wg_Add; triple_step
    | progress cbv zeta
    | intros ? ?;
      first [ assumption
            | apply accumulated_set_jars; assumption
            | apply accumulated_set_nativelibs; assumption
            | apply accumulated_jar; assumption
            | apply accumulated_nativelib; assumption
            | apply accumulated_extension; assumption
            | eapply accumulated_same; [eassumption | reflexivity ..] ]
    | intros ? ? ?;
      first [ assumption | eapply accumulated_same; [eassumption | reflexivity ..] ] ]).
Qed.

End Accumulators.

(** However [runJnlp] ends, the classpath accumulator has grown by the
    paths of the jar tasks it has started, in the order of the pool and
    each preceded by the list separator, and the library path accumulator
    by the directories of the native-library tasks it has started. *)
Theorem accumulators_list_tasks `{UnicodeTables} (env : Env) address doHeader s :
  let s' := outcome_state (runJnlp env address doHeader s) in
  exists new,
    goroutines s' = (goroutines s ++ new)%list
    /\ jars s' = jars s +:+ listed (filepath_ListSeparator env) (jar_paths new)
    /\ nativelibs s'
       = nativelibs s +:+ listed (filepath_ListSeparator env) (nativelib_dirs new).
Proof.
  assert (accumulated env s "" "" s) as Hs.
  { exists []. cbn. rewrite app_nil_r. tidy. auto. }
  pose proof (runJnlp_accumulates env s address doHeader s Hs) as Hk.
  assert (accumulated env s "" "" (outcome_state (runJnlp env address doHeader s)))
    as (new & Hpool & Hjars & Hlibs)
    by (destruct (runJnlp env address doHeader s); exact Hk).
  exists new. tidy. auto.
Qed.

(** ** When the barrier opens *)

(** The counter of the wait group exceeds the number of resource tasks
    in the pool by [d]. *)
Definition exactly (d : Z) (s : State) : Prop := wg s = pending (goroutines s) + d.

Ltac exa :=
  intros; unfold exactly in *; cbn in *; rewrite ?pending_app in *; cbn in *;
  repeat match goal with
         | s : State |- _ =>
           lazymatch goal with
           | _ : 0 <= pending (goroutines s) |- _ => fail
           | _ => pose proof (pending_nonneg (goroutines s))
           end
         end;
  first [lia | exfalso; lia].

(** [yields_from P m Qv]: started in a state satisfying [P], when [m]
    completes with the value [a], [Qv a] holds. *)
Definition yields_from {R A} (P : State -> Prop) (m : Body R A)
    (Qv : A -> State -> Prop) : Prop :=
  forall s, P s -> match m s with Val a s' => Qv a s' | _ => True end.

Lemma yields_from_bind {R A B} (P P' : State -> Prop) (m : Body R A) (k : A -> Body R B)
    (Qv : B -> State -> Prop) :
  triple P m P' (fun _ _ => True) (fun _ _ => True) ->
  (forall a, yields_from P' (k a) Qv) ->
  yields_from P (bind m k) Qv.
Proof.
  intros Hm Hk s Hs. unfold bind. specialize (Hm s Hs).
  destruct (m s) as [a s'|r s'|h s']; [apply Hk, Hm | exact Logic.I ..].
Qed.

Lemma yields_from_call {R R'} (P : State -> Prop) (f : Body R Empty_set)
    (Qv : R -> State -> Prop) :
  triple P f (fun _ => True) Qv (fun _ _ => True) ->
  yields_from P (@call R R' f) Qv.
Proof.
  intros Hf s Hs. unfold call. specialize (Hf s Hs).
  destruct (f s) as [[]|r s'|h s']; [exact Hf | exact Logic.I].
Qed.

Section Exact.

Context `{UnicodeTables} (env : Env).

Variable d : Z.
Hypothesis d_nonneg : 0 <= d.

Lemma exactly_stable :
  stable_trace (exactly d) /\ stable_fs (exactly d) /\ stable_errors (exactly d).
Proof. unfold stable_trace, stable_fs, stable_errors, exactly. cbn. auto. Qed.

Lemma exactly_stable_1 :
  stable_trace (exactly (d + 1)) /\ stable_fs (exactly (d + 1))
  /\ stable_errors (exactly (d + 1)).
Proof. unfold stable_trace, stable_fs, stable_errors, exactly. cbn. auto. Qed.

Lemma runResource_exact url path doUnzip doExtract :
  triple (exactly (d + 1)) (runResource env url path doUnzip doExtract) (exactly d)
    (fun _ => exactly d) (fun _ _ => False).
Proof.
  apply runResource_footprint; try apply exactly_stable_1; exa.
Qed.

(** A call of [runJnlp] that returns a descriptor has started a
    resource task for every unit it added to the counter. *)
Lemma runJnlp_exact address doHeader :
  triple (exactly d) (runJnlp env address doHeader) (exactly d)
    (fun r s => r <> None -> exactly d s) (fun _ _ => True).
Proof.
  unfold runJnlp.
  repeat (first
    [ lazymatch goal with
      | |- triple _ (bind (wg_Add 1) _) _ _ _ =>
        apply triple_bind with (Q1 := exactly (d + 1));
        [apply triple_wg_Add; first [intros; exact Logic.I | exa] | intros ?]
      | |- triple (exactly (d + 1)) (go (GoResource _ _ _ _)) _ _ _ =>
        unfold go; apply triple_modify; exa
      | |- triple (exactly (d + 1)) (call_proc (runResource _ _ _ _ _)) _ _ _ =>
        apply triple_call_proc;
        eapply triple_conseq; [apply runResource_exact | auto ..]; intros ? ? []
      end
    | unfold client_Get, ioutil_ReadAll, go; triple_step
    | progress cbv zeta
    | intros; first [exact Logic.I | congruence | assumption]
    | exa ]).
Qed.

End Exact.

Section Barrier.

Context `{UnicodeTables} (env : Env).

Lemma run_resolve_exact :
  yields_from (exactly 0) (run_resolve env) (fun jnlp s => jnlp <> None -> exactly 0 s).
Proof.
  unfold run_resolve.
  repeat (first
    [ apply yields_from_bind with (P' := exactly 0);
      [ repeat (first [ unfold_ops; triple_step
                      | intros; first [exact Logic.I | assumption] ])
      | intros ? ]
    | match goal with
      | |- yields_from _ (let '(_, _) := ?x in _) _ => destruct x
      end
    | progress cbv zeta ]).
  apply yields_from_call. eapply triple_conseq; [apply (runJnlp_exact env 0) | auto ..].
  lia.
Qed.

Lemma resource_lookup l :
  0 < pending l ->
  exists i url path doUnzip doExtract, l !! i = Some (GoResource url path doUnzip doExtract).
Proof.
  induction l as [|[url path doUnzip doExtract|address dh] l IH]; cbn [pending]; intros Hl.
  - lia.
  - exists 0%nat. eauto 10.
  - destruct (IH Hl) as (i & Hi). exists (S i). exact Hi.
Qed.

(** A resource task of the pool, run while the main goroutine waits,
    leaves it waiting, takes itself from the pool and one unit from
    the counter. *)
Lemma step_resource jnlp s i url path doUnzip doExtract :
  goroutines s !! i = Some (GoResource url path doUnzip doExtract) ->
  exactly 0 s ->
  exists s',
    step env (RunGo i) (Running (MainWait jnlp) s) = Some (Running (MainWait jnlp) s')
    /\ exactly 0 s'
    /\ pending (goroutines s') = pending (goroutines s) - 1.
Proof.
  intros Hi Hs. cbn [step]. rewrite Hi. cbn [run_task]. fold (taken i s).
  set (I := fun s1 => wg s1 = wg s /\ goroutines s1 = delete i (goroutines s)).
  assert (stable_trace I /\ stable_fs I /\ stable_errors I) as (Ht & Hf & He)
    by (unfold stable_trace, stable_fs, stable_errors, I; cbn; auto).
  pose proof (pending_delete _ _ _ Hi) as Hdel. cbn beta iota in Hdel.
  pose proof (pending_nonneg (delete i (goroutines s))) as Hpos.
  pose proof (runResource_footprint env I Ht Hf He
                (fun s1 => wg s1 = wg s - 1 /\ goroutines s1 = delete i (goroutines s))
                (fun _ _ => False) url path doUnzip doExtract) as Hk.
  unfold exactly in Hs.
  assert (forall s1, I s1 -> wg s1 - 1 < 0 -> False) as Hneg
    by (intros s1 [Hw _] Hn; lia).
  assert (forall s1, I s1 -> 0 <= wg s1 - 1 ->
            wg (set_wg (wg s1 - 1) s1) = wg s - 1
            /\ goroutines (set_wg (wg s1 - 1) s1) = delete i (goroutines s)) as Hdone
    by (intros s1 [Hw Hg] _; cbn; split; [lia | exact Hg]).
  specialize (Hk Hneg Hdone (taken i s) (conj eq_refl eq_refl)).
  unfold call_proc.
  destruct (runResource env url path doUnzip doExtract (taken i s)) as [a s'|r s'|h s'];
    [| |destruct Hk].
  all: destruct Hk as [Hw Hg]; exists s'; split; [reflexivity|];
    unfold exactly; rewrite Hg, Hw, Hdel; split; lia.
Qed.

(** With the counter equal to the number of resource tasks in the
    pool, running these tasks and then the main goroutine takes [run]
    past the barrier. *)
Lemma exact_schedule jnlp n s :
  pending (goroutines s) = Z.of_nat n -> exactly 0 s ->
  exists sched cfg,
    exec env sched (Running (MainWait jnlp) s) = Some cfg
    /\ length sched = S n
    /\ match cfg with
       | Running (MainDone _) _ => True
       | Stopped h _ => jnlp = None /\ h = Panic nil_dereference
       | _ => False
       end.
Proof.
  revert s. induction n as [|n IH]; intros s Hn Hs.
  - exists [RunMain]. unfold exactly in Hs.
    cbn [exec step]. replace (wg s =? 0) with true by (symmetry; apply Z.eqb_eq; lia).
    unfold run_launch, bind, get, when.
    destruct (channelError_Exists s); [eexists; split; [reflexivity|]; cbn; auto|].
    destruct jnlp as [j|]; cbn; eexists; split; try reflexivity; cbn; auto.
  - destruct (resource_lookup (goroutines s) ltac:(lia))
      as (i & url & path & doUnzip & doExtract & Hi).
    destruct (step_resource jnlp s i url path doUnzip doExtract Hi Hs)
      as (s1 & Hstep & Hs1 & Hp1).
    destruct (IH s1 ltac:(lia) Hs1) as (sched & cfg & Hexec & Hlen & Hcfg).
    exists (RunGo i :: sched), cfg. cbn [exec]. rewrite Hstep.
    split; [exact Hexec|]. split; [cbn; lia | exact Hcfg].
Qed.

(** When the root call has returned a descriptor, [run] can pass
    [wg.Wait()]: the counter equals the number of resource tasks in
    the pool, and once these have run, [run] returns. *)
Theorem barrier_opens disk jnlp s :
  exec env [RunMain] (init env disk) = Some (Running (MainWait (Some jnlp)) s) ->
  wg s = pending (goroutines s)
  /\ exists sched err s',
       length sched = S (Z.to_nat (wg s))
       /\ exec env sched (Running (MainWait (Some jnlp)) s)
          = Some (Running (MainDone err) s').
Proof.
  intros Hroot. unfold init in Hroot. cbn [exec step] in Hroot.
  match type of Hroot with context [run_resolve env ?s0] =>
    pose proof (run_resolve_exact s0 ltac:(unfold exactly; cbn; lia)) as Hk;
    destruct (run_resolve env s0) as [j s1|err s1|h s1]
  end; [|discriminate Hroot ..].
  injection Hroot as -> ->. specialize (Hk ltac:(discriminate)).
  assert (wg s = pending (goroutines s)) as Hwg by (unfold exactly in Hk; lia).
  split; [exact Hwg|].
  pose proof (pending_nonneg (goroutines s)) as Hpos.
  destruct (exact_schedule (Some jnlp) (Z.to_nat (wg s)) s ltac:(lia) Hk)
    as (sched & cfg & Hexec & Hlen & Hcfg).
  destruct cfg as [[|j|err] s'|h s']; try destruct Hcfg.
  - exists sched, err, s'. split; assumption.
  - discriminate.
Qed.

End Barrier.

(** The root call has scheduled the jar; after the jar task, [run]
    passes the barrier. *)
Lemma barrier_opens_witness :
  exists jnlp s,
    exec Fixture.single_jar [RunMain] (init Fixture.single_jar ∅)
    = Some (Running (MainWait (Some jnlp)) s)
    /\ wg s = pending (goroutines s)
    /\ exists sched err s',
         length sched = S (Z.to_nat (wg s))
         /\ exec Fixture.single_jar sched (Running (MainWait (Some jnlp)) s)
            = Some (Running (MainDone err) s').
Proof.
  eexists _, _.
  assert (exec Fixture.single_jar [RunMain] (init Fixture.single_jar ∅)
          = Some (Running (MainWait (Some _)) _)) as Hroot
    by (vm_compute; reflexivity).
  split; [exact Hroot | exact (barrier_opens _ _ _ _ Hroot)].
Defined.

(** ** The executable *)

(** The address of the root descriptor: the argument when there is
    exactly one, the [-url] flag otherwise. *)
Definition root_address (env : Env) : string :=
  match os_Args env with
  | [_; a] => a
  | _ => flag_url env
  end.

(** The executable [run] falls back to when none is given. *)
Definition default_executable (env : Env) (given : string) : string :=
  if len given =? 0 then (if common_IsWindowsOS env then "javaw" else "java") else given.

Section Executable.

Context `{UnicodeTables} (env : Env).

Variables (address : string) (jnlp : Jnlp).
Hypothesis Hjnlp :
  xml_Decode env (common_ToUTF8 env (http_Body env address)) = inr jnlp.
Hypothesis Hnone : Jnlp_PrivateJres jnlp = [].

Lemma runJnlp_jrepath v doHeader :
  inv (fun s => jrepath s = v) (fun _ s => jrepath s = v) (fun _ _ => True)
    (runJnlp env address doHeader).
Proof.
  unfold runJnlp.
  repeat (first
    [ unfold client_Get, ioutil_ReadAll, go, wg_Add; triple_step
    | intros; first [assumption | exact Logic.I]
    | match goal with
      | Hx : xml_Decode env (common_ToUTF8 env ?c) = inr ?a, Hin : _ ∈ Jnlp_PrivateJres ?a
        |- _ =>
        change c with (http_Body env address) in Hx;
        rewrite Hjnlp in Hx; injection Hx as <-;
        rewrite Hnone in Hin; apply elem_of_nil in Hin; destruct Hin
      end ]).
Qed.

End Executable.

(** When the root descriptor names no private runtime, the executable
    after the root call is the one given with [-jre], or [javaw] on
    Windows and [java] elsewhere when none is given. *)
Theorem executable_defaults `{UnicodeTables} (env : Env) jnlp s j s' :
  xml_Decode env (common_ToUTF8 env (http_Body env (root_address env))) = inr jnlp ->
  Jnlp_PrivateJres jnlp = [] ->
  run_resolve env s = Val j s' ->
  jrepath s' = default_executable env (jrepath s).
Proof.
  intros Hjnlp Hnone Hrun.
  assert (triple (fun s1 => jrepath s1 = jrepath s) (run_resolve env)
            (fun s1 => jrepath s1 = default_executable env (jrepath s))
            (fun _ _ => True) (fun _ _ => True)) as Hk.
  { unfold run_resolve.
    repeat (first
      [ lazymatch goal with
        | |- triple _ (bind get _) _ _ _ =>
          apply triple_bind_get; intros s1 Hs1;
          apply triple_bind
            with (Q1 := fun s2 => jrepath s2 = default_executable env (jrepath s));
          [ unfold default_executable; rewrite <- Hs1;
            destruct (len (jrepath s1) =? 0); cbn [when];
            [ destruct (common_IsWindowsOS env); apply triple_modify; reflexivity
            | apply triple_ret; auto ]
          | intros ? ]
        | |- triple _ (call (runJnlp _ _ _)) _ _ _ =>
          apply triple_call, (runJnlp_jrepath env (root_address env) jnlp Hjnlp Hnone)
        end
      | unfold_ops; triple_step
      | intros; first [assumption | exact Logic.I] ]). }
  specialize (Hk s eq_refl). rewrite Hrun in Hk. exact Hk.
Qed.

Lemma executable_defaults_witness :
  exists j s',
    run_resolve Fixture.single_jar (Fixture.start Fixture.single_jar) = Val j s'
    /\ jrepath s' = "java".
Proof.
  eexists _, _.
  assert (run_resolve Fixture.single_jar (Fixture.start Fixture.single_jar) = Val _ _)
    as Hrun by (vm_compute; reflexivity).
  split; [exact Hrun|].
  refine (executable_defaults Fixture.single_jar
            (Fixture.descriptor "http://h/app"
               [Fixture.group "" "" [Fixture.jar "x.jar"] [] [] []] [] "Main" [])
            _ _ _ eq_refl eq_refl Hrun).
Defined.

(** ** A root descriptor that is not obtained *)

(** The descriptor at [address] is not obtained in [s]: the request, the
    read of the body, the parsing of the address or the decoding fails
    with [err]; [s1] is the state in which it fails. *)
Definition not_obtained (env : Env) (address : string) (s : State) (err : error)
    (s1 : State) : Prop :=
  (fault env (trace s) (OpGet address) = Some err /\ s1 = requested address s)
  \/ (fault env (trace s) (OpGet address) = None
      /\ fault env (trace s ++ [OpGet address])%list (OpReadAll address) = Some err
      /\ s1 = arrived address s)
  \/ (arrives env address s
      /\ http_StatusCode env address = 200
      /\ s1 = arrived address s
      /\ (url_Parse env address = inl err
          \/ exists u,
               url_Parse env address = inr u
               /\ xml_Decode env (common_ToUTF8 env (http_Body env address)) = inl err)).

(** When the descriptor is not obtained, [runJnlp] returns [nil] having
    added the error and done nothing else; if the counter of the wait
    group was zero and the aggregator empty, as they are for the root
    call, [run] passes [wg.Wait()] and returns this error, nothing
    started. *)
Theorem root_failure_reported `{UnicodeTables} (env : Env) address doHeader s err s1 :
  not_obtained env address s err s1 ->
  runJnlp env address doHeader s = Return None (recorded (Some err) s1)
  /\ (wg s = 0 ->
      channelError s = [] ->
      step env RunMain (Running (MainWait None) (recorded (Some err) s1))
      = Some (Running (MainDone (Some err)) (recorded (Some err) s1))).
Proof.
  intros Hfail.
  assert (wg s1 = wg s /\ channelError s1 = channelError s) as [Hwg Herr].
  { destruct Hfail as [(_ & ->)|[(_ & _ & ->)|(_ & _ & -> & _)]]; split; reflexivity. }
  split.
  - destruct Hfail as [(Hget & ->)|[(Hget & Hread & ->)|(Harrives & Hstatus & -> & Hfail)]].
    + apply runJnlp_request_fails, Hget.
    + apply runJnlp_read_fails; assumption.
    + destruct Hfail as [Hparse|(u & Hparse & Hdecode)].
      * apply runJnlp_parse_fails; assumption.
      * eapply runJnlp_decode_fails; eassumption.
  - intros Hzero Hempty. cbn [step recorded wg set_channelError].
    rewrite Hwg, Hzero. cbn [Z.eqb].
    unfold run_launch, bind, get, when, channelError_Exists, channelError_Get.
    cbn [channelError set_channelError]. rewrite Herr, Hempty. reflexivity.
Qed.

(** The server of [Fixture.unreachable_root] does not answer the request
    of the root descriptor: [run] returns the error of the request. *)
Lemma root_failure_reported_witness :
  let env := Fixture.unreachable_root in
  let address := "http://h/app/a.jnlp" in
  let s := Fixture.start env in
  runJnlp env address true s = Return None (recorded (Some "failed") (requested address s))
  /\ step env RunMain (Running (MainWait None) (recorded (Some "failed") (requested address s)))
     = Some (Running (MainDone (Some "failed")) (recorded (Some "failed") (requested address s)))
  /\ exists s',
       exec env [RunMain; RunMain] (init env ∅) = Some (Running (MainDone (Some "failed")) s')
       /\ no_launch s'.
Proof.
  cbv zeta.
  destruct (root_failure_reported Fixture.unreachable_root "http://h/app/a.jnlp" true
              (Fixture.start Fixture.unreachable_root) "failed"
              (requested "http://h/app/a.jnlp" (Fixture.start Fixture.unreachable_root)))
    as [Hrun Hstep].
  { left. split; reflexivity. }
  split; [exact Hrun|]. split; [apply Hstep; reflexivity|].
  eexists. split; [vm_compute; reflexivity|].
  unfold no_launch. cbn [trace].
  repeat constructor; exact id.
Defined.
